(** * Personal landing page: the animation controller of [src/app.js]

    A shallow embedding of the page script's [AnimationController] and
    [ErrorHandler.handleImageError], with the slice of the browser they
    run against: the element tree, inline styles, class lists, the timer
    queue, animation frames, event listeners, the intersection observer
    and the console.

    Element references are positions in the document (document order), so
    two references to one element alias one [Node] of the store.  Closures
    handed to the browser ([setTimeout], [requestAnimationFrame],
    [addEventListener]) are closure-converted: a constructor carrying the
    captured variables, and an interpreter giving its body. *)

From Stdlib Require Import ZArith String Ascii List Lia Bool.
From stdpp Require Import base list strings pretty.

Local Open Scope string_scope.
Local Open Scope Z_scope.
Local Open Scope list_scope.

(** ** Inline styles *)

(** The [style] properties the script assigns.  An unset inline property
    reads as the empty string. *)
Inductive StyleProp : Type :=
| Opacity
| Transform
| Transition
| Animation
| AnimationDuration
| AnimationName.

#[global] Instance StyleProp_eq_dec : EqDecision StyleProp.
Proof. solve_decision. Defined.

Record Style : Type := mkStyle {
  opacity : string;
  transform : string;
  transition : string;
  animation : string;
  animationDuration : string;
  animationName : string
}.

Definition empty_style : Style := mkStyle "" "" "" "" "" "".

Definition style_get (p : StyleProp) (st : Style) : string :=
  match p with
  | Opacity => opacity st
  | Transform => transform st
  | Transition => transition st
  | Animation => animation st
  | AnimationDuration => animationDuration st
  | AnimationName => animationName st
  end.

(** What the longhands [animationDuration] and [animationName] read once
    the shorthand [animation] has been assigned [none]: their initial
    values. *)
Definition animationDuration_initial : string := "auto".
Definition animationName_initial : string := "none".

(** [el.style.p = v] keeps the assigned text.  [animation] is a shorthand
    and the field [animation] holds the text last assigned to it; the
    script assigns it only [none] (line 93), and that assignment resets
    the animation longhands to their initial values. *)
Definition style_set (p : StyleProp) (v : string) (st : Style) : Style :=
  match p with
  | Opacity => mkStyle v (transform st) (transition st) (animation st) (animationDuration st) (animationName st)
  | Transform => mkStyle (opacity st) v (transition st) (animation st) (animationDuration st) (animationName st)
  | Transition => mkStyle (opacity st) (transform st) v (animation st) (animationDuration st) (animationName st)
  | Animation => mkStyle (opacity st) (transform st) (transition st) v animationDuration_initial animationName_initial
  | AnimationDuration => mkStyle (opacity st) (transform st) (transition st) (animation st) v (animationName st)
  | AnimationName => mkStyle (opacity st) (transform st) (transition st) (animation st) (animationDuration st) v
  end.

(** ** Elements *)

Record Node : Type := mkNode {
  parent : option nat;            (* parent element, a document position *)
  classList : list string;        (* DOMTokenList: ordered, duplicate free *)
  style : Style;
  src : string;
  alt : string;
  requestAnimationFrame_prop : option nat
    (* the expando [card.requestAnimationFrame] written by the hover handler *)
}.

Definition with_style (f : Style -> Style) (n : Node) : Node :=
  mkNode (parent n) (classList n) (f (style n)) (src n) (alt n)
         (requestAnimationFrame_prop n).

Definition with_classList (f : list string -> list string) (n : Node) : Node :=
  mkNode (parent n) (f (classList n)) (style n) (src n) (alt n)
         (requestAnimationFrame_prop n).

Definition with_src_alt (s a : string) (n : Node) : Node :=
  mkNode (parent n) (classList n) (style n) s a (requestAnimationFrame_prop n).

Definition with_raf_prop (h : nat) (n : Node) : Node :=
  mkNode (parent n) (classList n) (style n) (src n) (alt n) (Some h).

(** [classList.contains(c)] *)
Definition contains (c : string) (cl : list string) : bool :=
  bool_decide (c ∈ cl).

(** [classList.add(c)]: a token already present is not added again. *)
Definition add_token (cl : list string) (c : string) : list string :=
  if contains c cl then cl else cl ++ [c].

(** [classList.add(c1, c2, ...)] *)
Definition classList_add (cs : list string) (cl : list string) : list string :=
  fold_left add_token cs cl.

(** ** Closures handed to the browser *)

(** The two arrow functions passed to [setTimeout], with the element each
    one captured. *)
Inductive TimerCallback : Type :=
| RevealCard (card : nat)
| RevealIcon (icon : nat).

(** The arrow function passed to [requestAnimationFrame]. *)
Inductive FrameCallback : Type :=
| PulseCard (card : nat).

Inductive EventType : Type :=
| mouseenter
| mouseleave
| focus
| blur.

#[global] Instance EventType_eq_dec : EqDecision EventType.
Proof. solve_decision. Defined.

(** The listeners of [setupHoverEffects]; all of them act on
    [e.currentTarget] and capture nothing. *)
Inductive Listener : Type :=
| CardHover (isEntering : bool)
| IconEnter
| IconLeave.

(** A decimal literal [mant / 10^digits], for [threshold: 0.1] and for the
    numbers inside style values. *)
Record Decimal : Type := mkDecimal { mant : Z; digits : nat }.

#[global] Instance Decimal_eq_dec : EqDecision Decimal.
Proof. solve_decision. Defined.

Record ObserverOptions : Type := mkObserverOptions {
  threshold : Decimal;
  rootMargin : string
}.

Record IntersectionObserver : Type := mkObserver {
  options : ObserverOptions;
  targets : list nat
}.

Record IntersectionObserverEntry : Type := mkEntry {
  isIntersecting : bool;
  target : nat
}.

(** ** The page *)

Record State : Type := mkState {
  document : list Node;
  App_animations_enabled : bool;
  Elements_linkCards : option (list nat);    (* [null] or a NodeList *)
  Elements_socialIcons : option (list nat);
  Elements_footer : option nat;              (* [null] or an element *)
  timers : list (Z * TimerCallback);         (* armed, not yet fired *)
  frames : list (nat * FrameCallback);       (* requested animation frames *)
  frame_handles : nat;                       (* handles given out so far *)
  listeners : list (nat * EventType * Listener);
  observers : list IntersectionObserver;
  console : list string;
  style_writes : list (nat * StyleProp * string)
    (* history of the visual state setter, oldest first *)
}.

Definition with_document (f : list Node -> list Node) (s : State) : State :=
  mkState (f (document s)) (App_animations_enabled s) (Elements_linkCards s)
          (Elements_socialIcons s) (Elements_footer s) (timers s) (frames s)
          (frame_handles s) (listeners s) (observers s) (console s)
          (style_writes s).

Definition with_Elements (lc si : option (list nat)) (ft : option nat)
    (s : State) : State :=
  mkState (document s) (App_animations_enabled s) lc si ft (timers s)
          (frames s) (frame_handles s) (listeners s) (observers s) (console s)
          (style_writes s).

Definition with_timers (f : list (Z * TimerCallback) -> list (Z * TimerCallback))
    (s : State) : State :=
  mkState (document s) (App_animations_enabled s) (Elements_linkCards s)
          (Elements_socialIcons s) (Elements_footer s) (f (timers s)) (frames s)
          (frame_handles s) (listeners s) (observers s) (console s)
          (style_writes s).

Definition with_frames (f : list (nat * FrameCallback) -> list (nat * FrameCallback))
    (h : nat) (s : State) : State :=
  mkState (document s) (App_animations_enabled s) (Elements_linkCards s)
          (Elements_socialIcons s) (Elements_footer s) (timers s) (f (frames s))
          h (listeners s) (observers s) (console s) (style_writes s).

Definition with_listeners
    (f : list (nat * EventType * Listener) -> list (nat * EventType * Listener))
    (s : State) : State :=
  mkState (document s) (App_animations_enabled s) (Elements_linkCards s)
          (Elements_socialIcons s) (Elements_footer s) (timers s) (frames s)
          (frame_handles s) (f (listeners s)) (observers s) (console s)
          (style_writes s).

Definition with_observers
    (f : list IntersectionObserver -> list IntersectionObserver)
    (s : State) : State :=
  mkState (document s) (App_animations_enabled s) (Elements_linkCards s)
          (Elements_socialIcons s) (Elements_footer s) (timers s) (frames s)
          (frame_handles s) (listeners s) (f (observers s)) (console s)
          (style_writes s).

Definition with_console (f : list string -> list string) (s : State) : State :=
  mkState (document s) (App_animations_enabled s) (Elements_linkCards s)
          (Elements_socialIcons s) (Elements_footer s) (timers s) (frames s)
          (frame_handles s) (listeners s) (observers s) (f (console s))
          (style_writes s).

Definition with_style_writes
    (f : list (nat * StyleProp * string) -> list (nat * StyleProp * string))
    (s : State) : State :=
  mkState (document s) (App_animations_enabled s) (Elements_linkCards s)
          (Elements_socialIcons s) (Elements_footer s) (timers s) (frames s)
          (frame_handles s) (listeners s) (observers s) (console s)
          (f (style_writes s)).

(** The page as the script finds it: the parsed document, the
    reduced-motion preference already folded into [App.animations.enabled],
    an empty [Elements] cache and nothing armed. *)
Definition page (doc : list Node) (enabled : bool) : State :=
  mkState doc enabled None None None [] [] 0%nat [] [] [] [].

(** ** Script execution: state and exceptions *)

Inductive Outcome (A : Type) : Type :=
| Ok (a : A) (s : State)
| Throw (e : string) (s : State).
Arguments Ok {A} a s.
Arguments Throw {A} e s.

Definition M (A : Type) : Type := State -> Outcome A.

Definition ret {A} (a : A) : M A := fun s => Ok a s.

Definition bind {A B} (m : M A) (k : A -> M B) : M B :=
  fun s => match m s with
           | Ok a s' => k a s'
           | Throw e s' => Throw e s'
           end.

Definition throw {A} (e : string) : M A := fun s => Throw e s.
Definition gets {A} (f : State -> A) : M A := fun s => Ok (f s) s.
Definition modify (f : State -> State) : M unit := fun s => Ok tt (f s).

Declare Scope js_scope.
Delimit Scope js_scope with js.
Notation "'let*' x := c 'in' k" := (bind c (fun x => k))
  (at level 10, x name, c at level 100, k at level 200) : js_scope.
Notation "c ;;; k" := (bind c (fun _ => k))
  (at level 100, k at level 200, right associativity) : js_scope.
Local Open Scope js_scope.

Definition when (b : bool) (m : M unit) : M unit := if b then m else ret tt.

(** The state a computation leaves behind, whether it returned or threw. *)
Definition final_state {A} (o : Outcome A) : State :=
  match o with Ok _ s => s | Throw _ s => s end.

Definition returned {A} (o : Outcome A) : bool :=
  match o with Ok _ _ => true | Throw _ _ => false end.

Definition exec {A} (m : M A) (s : State) : State := final_state (m s).

(** ** Browser primitives *)

(** [el.style.p = v] through an element reference.  Every reference the
    script holds comes out of a query, so it names an element of the
    document; [alter] leaves the store alone at a position outside it.  The
    write is recorded in [style_writes]. *)
Definition set_style (el : nat) (p : StyleProp) (v : string) : M unit :=
  modify (fun s =>
    with_style_writes (fun w => w ++ [(el, p, v)])
      (with_document (alter (with_style (style_set p v)) el) s)).

(** A selector list of class selectors, [".a, .b"], as the class names. *)
Definition Selector : Type := list string.

Definition matches (sel : Selector) (n : Node) : bool :=
  existsb (fun c => contains c (classList n)) sel.

(** Positions of the elements of [doc] matching [sel], in document order,
    the first element of [doc] having position [i]. *)
Fixpoint select_from (i : nat) (sel : Selector) (doc : list Node) : list nat :=
  match doc with
  | [] => []
  | n :: doc' =>
      if matches sel n then i :: select_from (S i) sel doc'
      else select_from (S i) sel doc'
  end.

(** [document.querySelectorAll(sel)] *)
Definition querySelectorAll (sel : Selector) : M (list nat) :=
  gets (fun s => select_from 0 sel (document s)).

(** [document.querySelector(sel)]: the first match or [null]. *)
Definition querySelector (sel : Selector) : M (option nat) :=
  gets (fun s => head (select_from 0 sel (document s))).

(** [d] lies strictly below [anc]: some chain of [parent] links leads from
    [d] to [anc]; [fuel] bounds the chain. *)
Fixpoint descends (doc : list Node) (fuel : nat) (anc d : nat) : bool :=
  match fuel with
  | O => false
  | S fuel' =>
      match doc !! d with
      | Some n =>
          match parent n with
          | Some p => bool_decide (p = anc) || descends doc fuel' anc p
          | None => false
          end
      | None => false
      end
  end.

(** [el.querySelector(sel)]: the first descendant of [el] matching. *)
Definition Element_querySelector (el : nat) (sel : Selector) : M (option nat) :=
  gets (fun s =>
    let doc := document s in
    head (filter (fun d => descends doc (length doc) el d = true)
                 (select_from 0 sel doc))).

Definition TypeError_forEach : string :=
  "TypeError: Cannot read properties of null (reading 'forEach')".
Definition TypeError_length : string :=
  "TypeError: Cannot read properties of null (reading 'length')".

(** [v.length] on a value that is [null] or a NodeList. *)
Definition NodeList_length (v : option (list nat)) : M nat :=
  match v with
  | Some l => ret (length l)
  | None => throw TypeError_length
  end.

Fixpoint forEach_from {A} (i : nat) (l : list A) (f : A -> nat -> M unit) : M unit :=
  match l with
  | [] => ret tt
  | x :: l' => f x i ;;; forEach_from (S i) l' f
  end.

(** [v.forEach((x, index) => ...)] on a value that is [null] or a NodeList. *)
Definition NodeList_forEach (v : option (list nat)) (f : nat -> nat -> M unit) : M unit :=
  match v with
  | Some l => forEach_from 0 l f
  | None => throw TypeError_forEach
  end.

(** Truthiness of a value that is [null] or an object. *)
Definition truthy {A} (v : option A) : bool :=
  match v with Some _ => true | None => false end.

(** [setTimeout(cb, delay)] *)
Definition setTimeout (cb : TimerCallback) (delay : Z) : M unit :=
  modify (with_timers (fun t => t ++ [(delay, cb)])).

(** [requestAnimationFrame(cb)] returns a fresh non-zero handle. *)
Definition requestAnimationFrame (cb : FrameCallback) : M nat :=
  fun s =>
    let h := S (frame_handles s) in
    Ok h (with_frames (fun f => f ++ [(h, cb)]) h s).

(** [el.addEventListener(type, l)] *)
Definition addEventListener (el : nat) (type : EventType) (l : Listener) : M unit :=
  modify (with_listeners (fun ls => ls ++ [(el, type, l)])).

Definition console_log (msg : string) : M unit :=
  modify (with_console (fun c => c ++ [msg])).

(** ** [AnimationController] *)

(** The arrow function given to [elements.forEach] (lines 90-94). *)
Definition show_element (el index : nat) : M unit :=
  set_style el Opacity "1" ;;;
  set_style el Transform "translateY(0)" ;;;
  set_style el Animation "none".

(** [disableAnimations] (lines 88-96) *)
Definition disableAnimations : M unit :=
  let* elements := querySelectorAll
      ["link-card"; "social-icon"; "hero-section"; "social-section"; "footer"] in
  forEach_from 0 elements show_element ;;;
  console_log "🎭 Animations disabled for accessibility".

(** The arrow function given to [linkCards.forEach] (lines 105-116). *)
Definition hide_card (card index : nat) : M unit :=
  set_style card Opacity "0" ;;;
  set_style card Transform "translateY(30px)" ;;;
  setTimeout (RevealCard card) (800 + Z.of_nat index * 150).

(** The arrow function given to [socialIcons.forEach] (lines 122-133). *)
Definition hide_icon (icon index : nat) : M unit :=
  set_style icon Opacity "0" ;;;
  set_style icon Transform "translateY(20px) scale(0.8)" ;;;
  setTimeout (RevealIcon icon) (1400 + Z.of_nat index * 100).

(** [v && v.length > 0] *)
Definition nonempty_NodeList (v : option (list nat)) : M bool :=
  if truthy v
  then let* n := NodeList_length v in ret (0 <? n)%nat
  else ret false.

(** [setupPageLoadAnimations] (lines 99-136) *)
Definition setupPageLoadAnimations : M unit :=
  let* linkCards := gets Elements_linkCards in
  let* socialIcons := gets Elements_socialIcons in
  let* cards_present := nonempty_NodeList linkCards in
  when cards_present (
    NodeList_forEach linkCards hide_card ;;;
    let* n := NodeList_length linkCards in
    console_log ("🎬 " +:+ pretty n +:+ " link cards animated with staggered timing")) ;;;
  let* icons_present := nonempty_NodeList socialIcons in
  when icons_present (
    NodeList_forEach socialIcons hide_icon ;;;
    let* n := NodeList_length socialIcons in
    console_log ("🎬 " +:+ pretty n +:+ " social icons animated")).

(** The bodies of the two timer callbacks (lines 111-115 and 128-132). *)
Definition run_timer (cb : TimerCallback) : M unit :=
  match cb with
  | RevealCard card =>
      set_style card Transition "all 0.6s cubic-bezier(0.4, 0, 0.2, 1)" ;;;
      set_style card Opacity "1" ;;;
      set_style card Transform "translateY(0)"
  | RevealIcon icon =>
      set_style icon Transition "all 0.5s cubic-bezier(0.4, 0, 0.2, 1)" ;;;
      set_style icon Opacity "1" ;;;
      set_style icon Transform "translateY(0) scale(1)"
  end.

(** [setupHoverEffects] (lines 139-177) *)
Definition setupHoverEffects : M unit :=
  let* linkCards := gets Elements_linkCards in
  when (truthy linkCards) (
    NodeList_forEach linkCards (fun card _ =>
      addEventListener card mouseenter (CardHover true) ;;;
      addEventListener card mouseleave (CardHover false) ;;;
      addEventListener card focus (CardHover true) ;;;
      addEventListener card blur (CardHover false)) ;;;
    console_log "🎯 Enhanced hover effects setup complete") ;;;
  let* socialIcons := gets Elements_socialIcons in
  when (truthy socialIcons) (
    NodeList_forEach socialIcons (fun icon _ =>
      addEventListener icon mouseenter IconEnter ;;;
      addEventListener icon mouseleave IconLeave)).

(** The body of the animation-frame callback (line 196). *)
Definition run_frame (cb : FrameCallback) : M unit :=
  match cb with
  | PulseCard card => set_style card AnimationName "subtle-pulse"
  end.

(** [handleCardHover] (lines 180-208) *)
Definition handleCardHover (card : nat) (isEntering : bool) : M unit :=
  let* arrow := Element_querySelector card ["link-arrow"] in
  let* logo := Element_querySelector card ["logo-container"] in
  if isEntering then
    match arrow with
    | Some a => set_style a Transform "translateX(6px)"
    | None => ret tt
    end ;;;
    match logo with
    | Some l => set_style l Transform "scale(1.15)"
    | None => ret tt
    end ;;;
    set_style card AnimationDuration "2s" ;;;
    set_style card AnimationName "none" ;;;
    let* h := requestAnimationFrame (PulseCard card) in
    modify (with_document (alter (with_raf_prop h) card))
  else
    match arrow with
    | Some a => set_style a Transform "translateX(0)"
    | None => ret tt
    end ;;;
    match logo with
    | Some l => set_style l Transform "scale(1)"
    | None => ret tt
    end ;;;
    set_style card AnimationName "none".

(** The bodies of the listeners, at [e.currentTarget]. *)
Definition run_listener (l : Listener) (currentTarget : nat) : M unit :=
  match l with
  | CardHover isEntering => handleCardHover currentTarget isEntering
  | IconEnter => set_style currentTarget Transform "translateY(-4px) scale(1.1)"
  | IconLeave => set_style currentTarget Transform "translateY(0) scale(1)"
  end.

(** [el.classList.contains(c)] through an element reference. *)
Definition has_class (c : string) (el : nat) (s : State) : bool :=
  match document s !! el with
  | Some n => contains c (classList n)
  | None => false
  end.

(** The arrow function given to [entries.forEach] (lines 218-222). *)
Definition on_entry (entry : IntersectionObserverEntry) (index : nat) : M unit :=
  let* marked := gets (has_class "animated" (target entry)) in
  when (isIntersecting entry && negb marked)
    (modify (with_document
       (alter (with_classList (classList_add ["fade-in"; "animated"]))
              (target entry)))).

(** The observer callback of [setupScrollAnimations] (lines 217-223). *)
Definition observer_callback (entries : list IntersectionObserverEntry) : M unit :=
  forEach_from 0 entries on_entry.

Definition observerOptions : ObserverOptions :=
  mkObserverOptions (mkDecimal 1 1) "0px 0px -50px 0px".

(** [setupScrollAnimations] (lines 211-230) *)
Definition setupScrollAnimations : M unit :=
  modify (with_observers (fun os => os ++ [mkObserver observerOptions []])) ;;;
  let* observer := gets (fun s => pred (length (observers s))) in
  let* footer := gets Elements_footer in
  match footer with
  | Some ft =>
      modify (with_observers
        (alter (fun o => mkObserver (options o) (targets o ++ [ft])) observer))
  | None => ret tt
  end.

(** [init] (lines 76-85) *)
Definition init : M unit :=
  let* enabled := gets App_animations_enabled in
  if negb enabled then
    disableAnimations
  else
    setupPageLoadAnimations ;;;
    setupHoverEffects ;;;
    setupScrollAnimations.

(** ** [ErrorHandler.handleImageError] (lines 288-295) *)

Definition fallback_src : string :=
  "https://ui-avatars.com/api/?name=Yaswanth+Reddy+Arumulla&size=400&background=4F46E5&color=ffffff&font-size=0.33&bold=true&format=svg".
Definition fallback_alt : string :=
  "Yaswanth Reddy Arumulla - DevOps Engineer (Generated Avatar)".

Definition handleImageError (img : nat) : M unit :=
  let* profile := gets (has_class "profile-image" img) in
  when profile (
    modify (with_document (alter (with_src_alt fallback_src fallback_alt) img)) ;;;
    console_log "🔄 Profile image fallback applied").

(** ** [cacheDOMElements] (lines 445-459)

    The three caches the animation controller reads; [heroSection] and
    [profileImage] are cached too and read by nothing.  The console line
    is kept without the object that follows it. *)

Definition cacheDOMElements : M unit :=
  let* linkCards := querySelectorAll ["link-card"] in
  let* socialIcons := querySelectorAll ["social-icon"] in
  let* footer := querySelector ["footer"] in
  modify (with_Elements (Some linkCards) (Some socialIcons) footer) ;;;
  console_log "💾 DOM elements cached:".

(** ** The event loop *)

(** What the browser can run after the script's synchronous part: the next
    due timer, a requested animation frame, an event of one of the four
    listened types at an element, or a batch of intersection changes. *)
Inductive Event : Type :=
| TimerFires
| FrameFires
| Dispatch (type : EventType) (el : nat)
| Intersects (entries : list IntersectionObserverEntry).

(** Position of the timer that fires next: the least delay, the earliest
    armed among equals (every timer of the page is armed by the one
    synchronous run of [init]). *)
Fixpoint earliest_from (i : nat) (best : nat * Z)
    (ts : list (Z * TimerCallback)) : nat :=
  match ts with
  | [] => fst best
  | (d, _) :: ts' =>
      if d <? snd best then earliest_from (S i) (i, d) ts'
      else earliest_from (S i) best ts'
  end.

Definition next_timer (ts : list (Z * TimerCallback)) : option nat :=
  match ts with
  | [] => None
  | (d, _) :: ts' => Some (earliest_from 1 (0%nat, d) ts')
  end.

(** The [k]-th pending timer fires: it leaves the queue, its callback runs. *)
Definition fire_timer (k : nat) : M unit :=
  let* t := gets (fun s => timers s !! k) in
  match t with
  | Some (_, cb) => modify (with_timers (delete k)) ;;; run_timer cb
  | None => ret tt
  end.

Definition fire_frame : M unit :=
  let* f := gets (fun s => head (frames s)) in
  match f with
  | Some (_, cb) =>
      modify (fun s => with_frames (drop 1) (frame_handles s) s) ;;; run_frame cb
  | None => ret tt
  end.

Definition listens (el : nat) (type : EventType)
    (l : nat * EventType * Listener) : bool :=
  bool_decide (l.1.1 = el) && bool_decide (l.1.2 = type).

(** An exception leaving a callback is reported by the browser and ends
    that callback only. *)
Definition report {A} (o : Outcome A) : Outcome unit :=
  match o with
  | Ok _ s => Ok tt s
  | Throw e s => Ok tt (with_console (fun c => c ++ [e]) s)
  end.

(** The listeners registered at [el] for [type] run in registration order. *)
Definition dispatch (type : EventType) (el : nat) : M unit :=
  let* ls := gets (fun s => filter (fun l => listens el type l = true) (listeners s)) in
  forEach_from 0 ls (fun l _ => fun s => report (run_listener l.2 el s)).

(** A batch of entries is delivered by an observer that watches all of
    their targets. *)
Definition watched (s : State) (entries : list IntersectionObserverEntry) : bool :=
  existsb (fun o => forallb (fun e => bool_decide (target e ∈ targets o)) entries)
          (observers s).

Definition step (ev : Event) : M unit :=
  match ev with
  | TimerFires =>
      let* k := gets (fun s => next_timer (timers s)) in
      match k with
      | Some k => fire_timer k
      | None => ret tt
      end
  | FrameFires => fire_frame
  | Dispatch type el => dispatch type el
  | Intersects entries =>
      let* w := gets (fun s => watched s entries) in
      when w (observer_callback entries)
  end.

Fixpoint run (evs : list Event) (s : State) : State :=
  match evs with
  | [] => s
  | ev :: evs' => run evs' (final_state (report (step ev s)))
  end.

(** The page once the script's synchronous part has run: the slice of
    [initializeApp] that reaches the animation controller. *)
Definition loaded (doc : list Node) (enabled : bool) : State :=
  exec (cacheDOMElements ;;; init) (page doc enabled).

(** ** Reading style values

    The script writes style values as text.  The readers below give the
    numbers inside the values it uses: a decimal number, a transform list
    of [translateX], [translateY] and [scale] functions separated by
    spaces, and a transition of the form [property duration easing]. *)

Definition is_digit (c : ascii) : bool :=
  (48 <=? nat_of_ascii c)%nat && (nat_of_ascii c <=? 57)%nat.

Definition digit_value (c : ascii) : Z := Z.of_nat (nat_of_ascii c) - 48.

(** Reads a run of digits onto [acc]; also counts them. *)
Fixpoint read_digits (cs : list ascii) (acc : Z) (k : nat) : Z * nat * list ascii :=
  match cs with
  | c :: cs' =>
      if is_digit c then read_digits cs' (acc * 10 + digit_value c) (S k)
      else (acc, k, cs)
  | [] => (acc, k, [])
  end.

(** [-]digits[.digits], and what follows it. *)
Definition read_number (cs : list ascii) : option (Decimal * list ascii) :=
  let '(neg, cs1) :=
    match cs with
    | "-"%char :: r => (true, r)
    | _ => (false, cs)
    end in
  let '(ip, k, cs2) := read_digits cs1 0 0 in
  if (k =? 0)%nat then None
  else
    let sign (m : Z) := if neg : bool then - m else m in
    match cs2 with
    | "."%char :: r =>
        let '(m, d, cs3) := read_digits r ip 0 in
        if (d =? 0)%nat then None else Some (mkDecimal (sign m) d, cs3)
    | _ => Some (mkDecimal (sign ip) 0, cs2)
    end.

Definition Decimal_is (d : Decimal) (k : Z) : bool :=
  mant d =? k * 10 ^ Z.of_nat (digits d).

Definition Decimal_below (d : Decimal) (k : Z) : bool :=
  mant d <? k * 10 ^ Z.of_nat (digits d).

Definition css_number (v : string) : option Decimal :=
  match read_number (list_ascii_of_string v) with
  | Some (d, []) => Some d
  | _ => None
  end.

Inductive TransformFn : Type :=
| translateX (px : Decimal)
| translateY (px : Decimal)
| scale (k : Decimal).

Fixpoint strip_prefix (p cs : list ascii) : option (list ascii) :=
  match p, cs with
  | [], _ => Some cs
  | a :: p', c :: cs' => if bool_decide (a = c) then strip_prefix p' cs' else None
  | _ :: _, [] => None
  end.

(** A length argument up to the closing parenthesis: pixels, or a unitless
    zero. *)
Definition read_length (cs : list ascii) : option Decimal :=
  match read_number cs with
  | Some (d, rest) =>
      if bool_decide (rest = list_ascii_of_string "px)") then Some d
      else if bool_decide (rest = list_ascii_of_string ")") && Decimal_is d 0
           then Some d else None
  | None => None
  end.

Definition read_factor (cs : list ascii) : option Decimal :=
  match read_number cs with
  | Some (d, rest) =>
      if bool_decide (rest = list_ascii_of_string ")") then Some d else None
  | None => None
  end.

Definition read_transform_fn (cs : list ascii) : option TransformFn :=
  match strip_prefix (list_ascii_of_string "translateY(") cs with
  | Some arg => translateY <$> read_length arg
  | None =>
  match strip_prefix (list_ascii_of_string "translateX(") cs with
  | Some arg => translateX <$> read_length arg
  | None =>
  match strip_prefix (list_ascii_of_string "scale(") cs with
  | Some arg => scale <$> read_factor arg
  | None => None
  end end end.

(** Splits at single spaces. *)
Fixpoint split_words (cur : list ascii) (cs : list ascii) : list (list ascii) :=
  match cs with
  | [] => [rev cur]
  | c :: cs' =>
      if bool_decide (c = " "%char) then rev cur :: split_words [] cs'
      else split_words (c :: cur) cs'
  end.

Definition css_transform (v : string) : option (list TransformFn) :=
  mapM read_transform_fn (split_words [] (list_ascii_of_string v)).

(** Vertical translation of a transform list, in pixels; none means 0. *)
Fixpoint offsetY (fs : list TransformFn) : Decimal :=
  match fs with
  | translateY d :: _ => d
  | _ :: fs' => offsetY fs'
  | [] => mkDecimal 0 0
  end.

(** Scale factor of a transform list; none means 1. *)
Fixpoint scale_factor (fs : list TransformFn) : Decimal :=
  match fs with
  | scale k :: _ => k
  | _ :: fs' => scale_factor fs'
  | [] => mkDecimal 1 0
  end.

(** Duration in seconds and easing function of [property duration easing]. *)
Definition css_transition (v : string) : option (Decimal * string) :=
  match split_words [] (list_ascii_of_string v) with
  | _ :: dur :: ease :: rest =>
      match read_number dur with
      | Some (d, ["s"%char]) =>
          Some (d, string_of_list_ascii
                     (ease ++ concat (map (fun w => " "%char :: w) rest)))
      | _ => None
      end
  | _ => None
  end.

(** The visual state of an element, read off its inline style. *)
Definition opacity_is (k : Z) (st : Style) : bool :=
  match css_number (opacity st) with
  | Some d => Decimal_is d k
  | None => false
  end.

Definition is_hidden (st : Style) : bool := opacity_is 0 st.
Definition is_visible (st : Style) : bool := opacity_is 1 st.

Definition has_vertical_offset (st : Style) : bool :=
  match css_transform (transform st) with
  | Some fs => negb (Decimal_is (offsetY fs) 0)
  | None => false
  end.

Definition zero_offset (st : Style) : bool :=
  match css_transform (transform st) with
  | Some fs => Decimal_is (offsetY fs) 0
  | None => false
  end.

Definition scaled_down (st : Style) : bool :=
  match css_transform (transform st) with
  | Some fs => Decimal_below (scale_factor fs) 1
  | None => false
  end.

Definition unit_scale (st : Style) : bool :=
  match css_transform (transform st) with
  | Some fs => Decimal_is (scale_factor fs) 1
  | None => false
  end.

(** An eased transition of [seconds / 10] seconds. *)
Definition eased_transition (tenths : Z) (st : Style) : bool :=
  match css_transition (transition st) with
  | Some (d, ease) =>
      bool_decide (d = mkDecimal tenths 1)
      && bool_decide (ease = "cubic-bezier(0.4, 0, 0.2, 1)")
  | None => false
  end.

(** * Definitions for the proofs

    Predicates on computations, closed forms of the loops, and the words
    the statements use.  None of them is part of the script. *)

(** A computation that never throws. *)
Definition returns {A} (m : M A) : Prop := forall s, returned (m s) = true.

(** A computation that leaves a view [view] of the state as it was. *)
Definition preserves {X A} (view : State -> X) (m : M A) : Prop :=
  forall s, view (final_state (m s)) = view s.

(** ** What the two staggering loops do

    [hide_card] and [hide_icon] are one loop body at two settings; its
    effect on the page is given in closed form by [staggered]. *)

Definition stagger (tr : string) (mk : nat -> TimerCallback) (base per : Z)
    (el index : nat) : M unit :=
  set_style el Opacity "0" ;;;
  set_style el Transform tr ;;;
  setTimeout (mk el) (base + Z.of_nat index * per).

Definition hidden_style (tr : string) (st : Style) : Style :=
  style_set Transform tr (style_set Opacity "0" st).

Definition hide_all (tr : string) (l : list nat) (doc : list Node) : list Node :=
  foldl (fun d c => alter (with_style (hidden_style tr)) c d) doc l.

Definition stagger_timers (mk : nat -> TimerCallback) (base per : Z)
    (i : nat) (l : list nat) : list (Z * TimerCallback) :=
  imap (fun k c => (base + Z.of_nat (i + k) * per, mk c)) l.

Definition stagger_writes (tr : string) (l : list nat)
    : list (nat * StyleProp * string) :=
  flat_map (fun c => [(c, Opacity, "0"); (c, Transform, tr)]) l.

Definition staggered (tr : string) (mk : nat -> TimerCallback) (base per : Z)
    (i : nat) (l : list nat) (s : State) : State :=
  with_timers (fun t => t ++ stagger_timers mk base per i l)
    (with_style_writes (fun w => w ++ stagger_writes tr l)
       (with_document (hide_all tr l) s)).

(** One block of [setupPageLoadAnimations]: guard, loop and log line. *)
Definition phase (tr : string) (mk : nat -> TimerCallback) (base per : Z)
    (what : string) (v : option (list nat)) (s : State) : State :=
  match v with
  | Some (c :: l) =>
      with_console
        (fun k => k ++ ["🎬 " +:+ pretty (length (c :: l)) +:+ what])
        (staggered tr mk base per 0 (c :: l) s)
  | _ => s
  end.

Definition cards_phase : option (list nat) -> State -> State :=
  phase "translateY(30px)" RevealCard 800 150
        " link cards animated with staggered timing".

Definition icons_phase : option (list nat) -> State -> State :=
  phase "translateY(20px) scale(0.8)" RevealIcon 1400 100
        " social icons animated".

Definition NodeList_items (v : option (list nat)) : list nat := default [] v.

(** Everything but the document, the timers, the console and the write
    history is out of reach of a block. *)
Definition phase_frame (s : State) :=
  (App_animations_enabled s, Elements_linkCards s, Elements_socialIcons s,
   Elements_footer s, frames s, frame_handles s, listeners s, observers s).

(** ** The vocabulary of the specification *)

Inductive Group : Type := Card | Icon.

#[global] Instance Group_eq_dec : EqDecision Group.
Proof. solve_decision. Defined.

Definition baseDelay (G : Group) : Z :=
  match G with Card => 800 | Icon => 1400 end.

Definition perItemDelay (G : Group) : Z :=
  match G with Card => 150 | Icon => 100 end.

(** The reveal callback the script arms for a target of group [G]. *)
Definition reveal (G : Group) : nat -> TimerCallback :=
  match G with Card => RevealCard | Icon => RevealIcon end.

Definition timer_group (cb : TimerCallback) : Group :=
  match cb with RevealCard _ => Card | RevealIcon _ => Icon end.

Definition timer_target (cb : TimerCallback) : nat :=
  match cb with RevealCard el => el | RevealIcon el => el end.

(** The targets of group [G], in capture order: the cached NodeList. *)
Definition group_targets (G : Group) (s : State) : list nat :=
  NodeList_items
    (match G with
     | Card => Elements_linkCards s
     | Icon => Elements_socialIcons s
     end).

(** The timers a computation arms, in arming order. *)
Definition armed_by (m : M unit) (s : State) : list (Z * TimerCallback) :=
  drop (length (timers s)) (timers (exec m s)).

Definition group_timers (G : Group) (ts : list (Z * TimerCallback))
    : list (Z * TimerCallback) :=
  filter (fun t => timer_group t.2 = G) ts.

Definition delays_of (G : Group) (ts : list (Z * TimerCallback)) : list Z :=
  (group_timers G ts).*1.

(** ** The element cache *)

(** The [Elements] cache holds what the queries of [cacheDOMElements] find
    in the document. *)
Definition Elements_cached (s : State) : Prop :=
  Elements_linkCards s = Some (select_from 0 ["link-card"] (document s))
  /\ Elements_socialIcons s = Some (select_from 0 ["social-icon"] (document s))
  /\ Elements_footer s = head (select_from 0 ["footer"] (document s)).

Definition cached (doc : list Node) (enabled : bool) : State :=
  exec cacheDOMElements (page doc enabled).

Definition group_class (G : Group) : string :=
  match G with Card => "link-card" | Icon => "social-icon" end.

(** ** Style writes leave the rest of an element alone *)

(** Everything of the document but the inline styles. *)
Definition structure (s : State) :=
  (fun n => (parent n, classList n, src n, alt n)) <$> document s.

(** ** [disableAnimations] *)

Definition shown_now (node : Node) : Prop :=
  opacity (style node) = "1"
  /\ transform (style node) = "translateY(0)"
  /\ animation (style node) = "none".

(** ** The intersection callback *)

Definition occurrences (c : string) (cl : list string) : nat :=
  length (filter (fun x => x = c) cl).

(** What a single intersecting entry for [ft] does. *)
Definition trigger (ft : nat) (s : State) : State :=
  exec (observer_callback [mkEntry true ft]) s.

(** ** The page after [setupPageLoadAnimations] *)

Definition card_hidden : string := "translateY(30px)".
Definition icon_hidden : string := "translateY(20px) scale(0.8)".

(** The transform a target of group [G] is given before its reveal. *)
Definition hidden_transform (G : Group) : string :=
  match G with Card => card_hidden | Icon => icon_hidden end.

(** ** What a reveal timer does *)

Definition final_transform (G : Group) : string :=
  match G with Card => "translateY(0)" | Icon => "translateY(0) scale(1)" end.

Definition reveal_transition (G : Group) : string :=
  match G with
  | Card => "all 0.6s cubic-bezier(0.4, 0, 0.2, 1)"
  | Icon => "all 0.5s cubic-bezier(0.4, 0, 0.2, 1)"
  end.

Definition revealed_style (G : Group) (st : Style) : Style :=
  style_set Transform (final_transform G)
    (style_set Opacity "1" (style_set Transition (reveal_transition G) st)).

(** The transition duration of a group's reveal, in tenths of a second. *)
Definition reveal_tenths (G : Group) : Z :=
  match G with Card => 6 | Icon => 5 end.

(** ** Visibility along a run *)

(** A computation that takes every state to one related to it by [R]. *)
Definition respects (R : State -> State -> Prop) {A} (m : M A) : Prop :=
  forall s, R s (final_state (m s)).

(** ** Steps that leave visibility alone *)

Definition opacity_view (s : State) : list string :=
  (fun n => opacity (style n)) <$> document s.

(** From [s] to [s']: the same pending timers, the same opacity on every
    element, and no write to [opacity] or [transition]. *)
Definition quiet (s s' : State) : Prop :=
  timers s' = timers s
  /\ opacity_view s' = opacity_view s
  /\ exists ws, style_writes s' = style_writes s ++ ws
                /\ Forall (fun w => w.1.2 <> Opacity /\ w.1.2 <> Transition) ws.

(** ** One event *)

(** The page after the browser has handled [ev]. *)
Definition next (ev : Event) (s : State) : State :=
  final_state (report (step ev s)).

(** The callback of the timer that fires next, if one is pending. *)
Definition due_timer (s : State) : option TimerCallback :=
  match next_timer (timers s) with
  | Some k => snd <$> timers s !! k
  | None => None
  end.

(** The per-target flag: an element is Visible at opacity 1 and Hidden at
    opacity 0. *)
Definition Visible (s : State) (el : nat) : bool :=
  match document s !! el with
  | Some n => is_visible (style n)
  | None => false
  end.

Definition Hidden (s : State) (el : nat) : bool :=
  match document s !! el with
  | Some n => is_hidden (style n)
  | None => false
  end.

(** Who runs when [ev] is handled in [s]. *)
Inductive Writer : Type :=
| ByTimer (cb : TimerCallback)
| ByOther (ev : Event).

Definition writer_of (ev : Event) (s : State) : Writer :=
  match ev with
  | TimerFires =>
      match due_timer s with
      | Some cb => ByTimer cb
      | None => ByOther ev
      end
  | _ => ByOther ev
  end.

(** Number of writes to the opacity of [el] among [ws]. *)
Definition flag_writes (el : nat) (ws : list (nat * StyleProp * string)) : nat :=
  length (filter (fun w => w.1.1 = el /\ w.1.2 = Opacity) ws).

(** Writes to the opacity of [el] made while [ev] is handled in [s]. *)
Definition flag_writes_during (el : nat) (ev : Event) (s : State) : nat :=
  flag_writes el (drop (length (style_writes s)) (style_writes (next ev s))).

(** The callbacks that wrote the opacity of [el] along a run, in order,
    each with the number of its writes. *)
Fixpoint flag_writers (el : nat) (evs : list Event) (s : State)
    : list (Writer * nat) :=
  match evs with
  | [] => []
  | ev :: evs' =>
      let k := flag_writes_during el ev s in
      (if (0 <? k)%nat then [(writer_of ev s, k)] else [])
      ++ flag_writers el evs' (next ev s)
  end.

(** Steps of a run at which [el] goes from not Visible to Visible, and
    steps at which it goes back. *)
Fixpoint transitions (el : nat) (evs : list Event) (s : State) : nat :=
  match evs with
  | [] => 0
  | ev :: evs' =>
      ((if negb (Visible s el) && Visible (next ev s) el then 1 else 0)
       + transitions el evs' (next ev s))%nat
  end.

Fixpoint regressions (el : nat) (evs : list Event) (s : State) : nat :=
  match evs with
  | [] => 0
  | ev :: evs' =>
      ((if Visible s el && negb (Visible (next ev s) el) then 1 else 0)
       + regressions el evs' (next ev s))%nat
  end.

(** The page after the [k]-th pending timer, [cb], has fired. *)
Definition fired (k : nat) (cb : TimerCallback) (s : State) : State :=
  with_style_writes
    (fun w => w ++ [(timer_target cb, Transition, reveal_transition (timer_group cb));
                    (timer_target cb, Opacity, "1");
                    (timer_target cb, Transform, final_transform (timer_group cb))])
    (with_document
       (alter (with_style (revealed_style (timer_group cb))) (timer_target cb))
       (with_timers (delete k) s)).

(** ** Visibility across one event *)

Definition visible_text (o : string) : bool :=
  match css_number o with
  | Some d => Decimal_is d 1
  | None => false
  end.

(** ** Writes to the flag across one event *)

(** The pending timers that reveal [el]. *)
Definition pending (el : nat) (s : State) : list (Z * TimerCallback) :=
  filter (fun t => timer_target t.2 = el) (timers s).

(** ** The loaded page *)

(** What the later setup routines leave alone. *)
Definition core (s : State) :=
  (document s, timers s, style_writes s,
   Elements_linkCards s, Elements_socialIcons s).

(** ** The timers of one element *)

Definition other (G : Group) : Group :=
  match G with Card => Icon | Icon => Card end.

(** * Sample pages *)

Definition element (classes : list string) : Node :=
  mkNode None classes empty_style "" "" None.

(** A hero, a profile image, three cards, two icons and a footer. *)
Definition sample_page : list Node :=
  [element ["hero-section"]; element ["profile-image"];
   element ["link-card"]; element ["link-card"]; element ["link-card"];
   element ["social-icon"]; element ["social-icon"]; element ["footer"]].

(** One element carrying both group classes. *)
Definition shared_page : list Node :=
  [element ["link-card"; "social-icon"]].

(** A card that comes with an inline transition of its own. *)
Definition slow_page : list Node :=
  [mkNode None ["link-card"] (mkStyle "" "" "all 5s ease" "" "" "") "" "" None].

(** * Definitions for further properties of the script *)

(** ** What [setupHoverEffects] registers *)

(** The four listeners of a card and the two of an icon, in the order of
    the [addEventListener] calls. *)
Definition card_listeners (cards : list nat) : list (nat * EventType * Listener) :=
  flat_map (fun card => [(card, mouseenter, CardHover true);
                         (card, mouseleave, CardHover false);
                         (card, focus, CardHover true);
                         (card, blur, CardHover false)]) cards.

Definition icon_listeners (icons : list nat) : list (nat * EventType * Listener) :=
  flat_map (fun icon => [(icon, mouseenter, IconEnter);
                         (icon, mouseleave, IconLeave)]) icons.

(** The page after [setupHoverEffects]. *)
Definition hover_registered (s : State) : State :=
  match Elements_socialIcons s with
  | Some icons => with_listeners (fun ls => ls ++ icon_listeners icons)
  | None => fun s' => s'
  end
    (match Elements_linkCards s with
     | Some cards =>
         with_console
           (fun c => c ++ ["🎯 Enhanced hover effects setup complete"])
           (with_listeners (fun ls => ls ++ card_listeners cards) s)
     | None => s
     end).

(** ** What [disableAnimations] writes *)

(** The selector list of [disableAnimations]. *)
Definition shown_selector : Selector :=
  ["link-card"; "social-icon"; "hero-section"; "social-section"; "footer"].

Definition shown_style (st : Style) : Style :=
  style_set Animation "none"
    (style_set Transform "translateY(0)" (style_set Opacity "1" st)).

(** What [disableAnimations] does to one element. *)
Definition shown_if_selected (node : Node) : Node :=
  if matches shown_selector node then with_style shown_style node else node.

(** ** Pages on which nothing is armed *)

Definition inert (s : State) : Prop :=
  timers s = [] /\ frames s = [] /\ listeners s = [] /\ observers s = [].

(** Number of timer firings in a run. *)
Fixpoint timer_firings (evs : list Event) : nat :=
  match evs with
  | [] => 0
  | TimerFires :: evs' => S (timer_firings evs')
  | _ :: evs' => timer_firings evs'
  end.

(** ** The order of reveals *)

#[global] Instance TimerCallback_eq_dec : EqDecision TimerCallback.
Proof. solve_decision. Defined.

(** The timer the setup arms for the target [el] at index [i] of [G]. *)
Definition timer_of (G : Group) (i : nat) (el : nat) : Z * TimerCallback :=
  (baseDelay G + Z.of_nat i * perItemDelay G, reveal G el).

(** In [s], reached from [s0]: the pending timers are timers of [s0], a
    timer that has fired was due no later than any pending one, and the
    target of a fired timer is Visible. *)
Definition in_schedule (s0 s : State) : Prop :=
  (forall t, t ∈ timers s -> t ∈ timers s0)
  /\ (forall t t', t ∈ timers s0 -> t ∉ timers s -> t' ∈ timers s ->
                   t.1 <= t'.1)
  /\ (forall t, t ∈ timers s0 -> t ∉ timers s ->
                Visible s (timer_target t.2) = true)
  /\ (forall t, t ∈ timers s0 -> is_Some (document s !! timer_target t.2)).

(** ** Classes along a run *)

(** From [s] to [s']: the same observers, every element still there, and
    every class an element had still on it. *)
Definition grows (s s' : State) : Prop :=
  observers s' = observers s
  /\ length (document s') = length (document s)
  /\ forall c el, has_class c el s = true -> has_class c el s' = true.

(** ** The parts of a hovered card *)

(** What [card.querySelector(sel)] finds in [s]. *)
Definition card_part (card : nat) (sel : Selector) (s : State) : option nat :=
  head (filter (fun d => descends (document s) (length (document s)) card d = true)
               (select_from 0 sel (document s))).

(** [part.style.p = v] on the store, for a part that may be missing. *)
Definition restyle (part : option nat) (p : StyleProp) (v : string)
    (doc : list Node) : list Node :=
  match part with
  | Some a => alter (with_style (style_set p v)) a doc
  | None => doc
  end.

(** Document order: a parent comes before its children. *)
Definition parents_first (doc : list Node) : Prop :=
  forall n node p, doc !! n = Some node -> parent node = Some p -> (p < n)%nat.

(** The document after [handleCardHover(card, isEntering)]. *)
Definition hovered (card : nat) (isEntering : bool) (s : State) : list Node :=
  let arrow := card_part card ["link-arrow"] s in
  let logo := card_part card ["logo-container"] s in
  if isEntering then
    alter (with_raf_prop (S (frame_handles s))) card
      (alter (with_style (style_set AnimationName "none")) card
         (alter (with_style (style_set AnimationDuration "2s")) card
            (restyle logo Transform "scale(1.15)"
               (restyle arrow Transform "translateX(6px)" (document s)))))
  else
    alter (with_style (style_set AnimationName "none")) card
      (restyle logo Transform "scale(1)"
         (restyle arrow Transform "translateX(0)" (document s))).

(** * [Utils]

    [throttle] and [debounce] return a function that closes over one
    variable and arms timers.  The closure is a record; time is the clock
    in milliseconds at which the browser runs a call or a timer, and
    applying the wrapped [func] is recorded with the time and the
    arguments.  [limit] and [wait] are whole numbers of milliseconds. *)

(** The delay [setTimeout] works with: its argument is converted to a
    signed 32-bit integer, and a negative delay counts as 0.  A timer
    armed with the argument [d] at time [t] can fire from
    [t + timer_delay d] on. *)
Definition to_long (d : Z) : Z := (d + 2 ^ 31) mod 2 ^ 32 - 2 ^ 31.

Definition timer_delay (d : Z) : Z := Z.max 0 (to_long d).

(** ** [Utils.throttle] (lines 45-56) *)

(** What one application of [func] does, as far as the throttled function
    can tell: it returns, it throws, or it first calls the throttled
    function again with [args].  [inner] is what [func] does if that call
    applies it, [catches] tells whether [func] catches an exception that
    comes out of that call, and [rest] is how [func] goes on. *)
Inductive Body (A : Type) : Type :=
| Done
| Raise
| Reenter (args : A) (inner : Body A) (catches : bool) (rest : Body A).
Arguments Done {A}.
Arguments Raise {A}.
Arguments Reenter {A} args inner catches rest.

Record Throttle (A : Type) : Type := mkThrottle {
  inThrottle : bool;              (* [undefined] reads as false *)
  throttle_timers : list Z;       (* armed resets, by the time they are due *)
  throttle_invoked : list (Z * (A * Body A))
    (* applications of [func]: time, arguments, what [func] did *)
}.
Arguments mkThrottle {A} _ _ _.
Arguments inThrottle {A} _.
Arguments throttle_timers {A} _.
Arguments throttle_invoked {A} _.

(** [throttle(func, limit)] *)
Definition throttle {A} : Throttle A := mkThrottle false [] [].

(** [func.apply(context, args)] begins. *)
Definition applied {A} (now : Z) (args : A) (body : Body A)
    (th : Throttle A) : Throttle A :=
  mkThrottle (inThrottle th) (throttle_timers th)
             (throttle_invoked th ++ [(now, (args, body))]).

(** [inThrottle = true; setTimeout(() => inThrottle = false, limit)] *)
Definition throttled {A} (limit now : Z) (th : Throttle A) : Throttle A :=
  mkThrottle true (throttle_timers th ++ [now + timer_delay limit])
             (throttle_invoked th).

(** [func] runs as [body] at [now]; the second component tells whether it
    threw.  A call of the throttled function from inside [func] goes
    through lines 49-53 like any other call. *)
Fixpoint run_body {A} (limit now : Z) (body : Body A) (th : Throttle A)
    : Throttle A * bool :=
  match body with
  | Done => (th, false)
  | Raise => (th, true)
  | Reenter args inner catches rest =>
      let r :=
        if inThrottle th then (th, false)
        else
          let r' := run_body limit now inner (applied now args inner th) in
          if r'.2 then r' else (throttled limit now r'.1, false) in
      if r.2 && negb catches then r else run_body limit now rest r.1
  end.

(** The returned function, called at [now] with [args]; [body] is what
    [func] does if it is applied.  When [func] throws, the exception
    leaves the function before line 51. *)
Definition throttle_wrapper {A} (limit now : Z) (args : A) (body : Body A)
    (th : Throttle A) : Throttle A * bool :=
  if inThrottle th then (th, false)
  else
    let r := run_body limit now body (applied now args body th) in
    if r.2 then r else (throttled limit now r.1, false).

(** A call from the browser: an exception is reported and lost. *)
Definition throttle_call {A} (limit now : Z) (args : A) (body : Body A)
    (th : Throttle A) : Throttle A :=
  (throttle_wrapper limit now args body th).1.

(** The browser looks at the timer queue at [now]: the reset armed first
    runs if it is due. *)
Definition throttle_tick {A} (now : Z) (th : Throttle A) : Throttle A :=
  match throttle_timers th with
  | due :: rest =>
      if due <=? now then mkThrottle false rest (throttle_invoked th) else th
  | [] => th
  end.

(** What the browser does with a function of [Utils]: it calls it with
    some payload, or it looks at the timer queue. *)
Inductive UtilEvent (P : Type) : Type :=
| Call (now : Z) (payload : P)
| Tick (now : Z).
Arguments Call {P} now payload.
Arguments Tick {P} now.

Definition event_time {P} (ev : UtilEvent P) : Z :=
  match ev with Call now _ => now | Tick now => now end.

(** For [throttle] a call comes with the arguments and with what [func]
    does on them. *)
Definition throttle_step {A} (limit : Z) (th : Throttle A)
    (ev : UtilEvent (A * Body A)) : Throttle A :=
  match ev with
  | Call now p => throttle_call limit now p.1 p.2 th
  | Tick now => throttle_tick now th
  end.

Definition throttle_run {A} (limit : Z) (evs : list (UtilEvent (A * Body A)))
    : Throttle A :=
  fold_left (throttle_step limit) evs throttle.

(** The clock never goes back along [evs], starting at [t0]. *)
Fixpoint in_time {P} (t0 : Z) (evs : list (UtilEvent P)) : Prop :=
  match evs with
  | [] => True
  | ev :: evs' => t0 <= event_time ev /\ in_time (event_time ev) evs'
  end.

(** The calls of a trace, with their times. *)
Fixpoint calls_of {P} (evs : list (UtilEvent P)) : list (Z * P) :=
  match evs with
  | [] => []
  | Call now p :: evs' => (now, p) :: calls_of evs'
  | Tick _ :: evs' => calls_of evs'
  end.

(** [func] returns or throws without calling the throttled function. *)
Definition plain {A} (body : Body A) : bool :=
  match body with Reenter _ _ _ _ => false | _ => true end.

(** In every call of [evs], [func] is plain. *)
Definition plain_calls {A} (evs : list (UtilEvent (A * Body A))) : Prop :=
  Forall (fun c => plain c.2.2 = true) (calls_of evs).

(** The application did not simply return. *)
Definition not_done {A} (p : A * Body A) : bool :=
  match p.2 with Done => false | _ => true end.

(** An application that returned is followed by the next one no sooner
    than [gap] later. *)
Fixpoint spaced {P} (throws : P -> bool) (gap : Z) (inv : list (Z * P)) : Prop :=
  match inv with
  | (t1, a1) :: inv' =>
      match inv' with
      | (t2, _) :: _ => (throws a1 = false -> t1 + gap <= t2)
      | [] => True
      end /\ spaced throws gap inv'
  | [] => True
  end.

(** ** [Utils.debounce] (lines 32-42)

    [func] is applied in the last statement of [later], so a [func] that
    calls the debounced function is a timer followed by a call at the same
    time. *)

Record Debounce (A : Type) : Type := mkDebounce {
  timeout : option nat;                  (* [undefined] or a timer id *)
  timer_ids : nat;                       (* timer ids given out so far *)
  debounce_timers : list (nat * Z * A);  (* id, due time, captured args *)
  debounce_invoked : list (Z * A)
}.
Arguments mkDebounce {A} _ _ _ _.
Arguments timeout {A} _.
Arguments timer_ids {A} _.
Arguments debounce_timers {A} _.
Arguments debounce_invoked {A} _.

(** [debounce(func, wait)] *)
Definition debounce {A} : Debounce A := mkDebounce None 0 [] [].

(** [clearTimeout(id)]: [undefined] and ids that are no longer armed are
    ignored. *)
Definition clearTimeout {A} (id : option nat) (ts : list (nat * Z * A))
    : list (nat * Z * A) :=
  match id with
  | Some i => filter (fun t => t.1.1 <> i) ts
  | None => ts
  end.

(** [executedFunction(...args)] called at [now]. *)
Definition debounce_call {A} (wait : Z) (now : Z) (args : A)
    (db : Debounce A) : Debounce A :=
  let id := S (timer_ids db) in
  mkDebounce (Some id) id
    (clearTimeout (timeout db) (debounce_timers db)
       ++ [(id, now + timer_delay wait, args)])
    (debounce_invoked db).

(** The browser looks at the timer queue at [now]: the timer armed first
    runs [later] if it is due. *)
Definition debounce_tick {A} (now : Z) (db : Debounce A) : Debounce A :=
  match debounce_timers db with
  | (id, due, args) :: rest =>
      if due <=? now then
        mkDebounce (timeout db) (timer_ids db)
          (clearTimeout (timeout db) rest)
          (debounce_invoked db ++ [(now, args)])
      else db
  | [] => db
  end.

Definition debounce_step {A} (wait : Z) (db : Debounce A) (ev : UtilEvent A)
    : Debounce A :=
  match ev with
  | Call now args => debounce_call wait now args db
  | Tick now => debounce_tick now db
  end.

Definition debounce_run {A} (wait : Z) (evs : list (UtilEvent A)) : Debounce A :=
  fold_left (debounce_step wait) evs debounce.

(** A burst: calls with nothing in between. *)
Definition burst {A} (calls : list (Z * A)) : list (UtilEvent A) :=
  map (fun c => Call c.1 c.2) calls.

(** What holds of a throttled function at clock [t]: while throttled one
    reset is armed, due [gap] after the last application; otherwise no
    reset is armed and the last application that returned lies at least
    [gap] back. *)
Definition throttle_inv {A} (gap : Z) (t : Z) (th : Throttle A) : Prop :=
  (if inThrottle th
   then exists tl al, last (throttle_invoked th) = Some (tl, al)
                      /\ throttle_timers th = [tl + gap]
   else throttle_timers th = []
        /\ forall tl al, last (throttle_invoked th) = Some (tl, al) ->
                         not_done al = false -> tl + gap <= t)
  /\ spaced not_done gap (throttle_invoked th).

(** What holds of a debounced function after the events [evs]: at most one
    timer is armed, it is the one [timeout] names, and it carries the
    arguments of a call of [evs] and is due [gap] after that call; every
    application so far came [gap] or more after a call with its arguments. *)
Definition debounce_inv {A} (gap : Z) (evs : list (UtilEvent A))
    (db : Debounce A) : Prop :=
  (debounce_timers db = []
   \/ exists id t0 a,
        debounce_timers db = [(id, t0 + gap, a)]
        /\ timeout db = Some id
        /\ (t0, a) ∈ calls_of evs)
  /\ Forall (fun x => exists t0, (t0, x.2) ∈ calls_of evs /\ t0 + gap <= x.1)
            (debounce_invoked db).

(** * [PerformanceMonitor.trackImageLoading] (lines 244-282)

    The result of [document.querySelectorAll('img')] is given with what the
    browser knows of each image at that moment.  The two counters the
    listeners close over are fields next to the page.  [console.warn]
    writes to the same console as [console.log]. *)

Record Image : Type := mkImage {
  image_el : nat;          (* the element *)
  complete : bool;
  naturalHeight : nat
}.

Record ImageTracking : Type := mkImageTracking {
  tracked_page : State;
  images : list Image;
  loadedImages : nat;
  totalImages : nat;
  image_listeners : list nat   (* indexes of the images that got listeners *)
}.

(** [img.complete && img.naturalHeight !== 0] *)
Definition already_loaded (img : Image) : bool :=
  complete img && negb (naturalHeight img =? 0)%nat.

(** The body of [images.forEach] (lines 254-277): count the image or give
    it its two listeners. *)
Definition track_image (tr : ImageTracking) (index : nat) (img : Image)
    : ImageTracking :=
  if already_loaded img then
    mkImageTracking (tracked_page tr) (images tr) (S (loadedImages tr))
                    (totalImages tr) (image_listeners tr)
  else
    mkImageTracking (tracked_page tr) (images tr) (loadedImages tr)
                    (totalImages tr) (image_listeners tr ++ [index]).

Fixpoint track_images_from (index : nat) (imgs : list Image)
    (tr : ImageTracking) : ImageTracking :=
  match imgs with
  | [] => tr
  | img :: imgs' => track_images_from (S index) imgs' (track_image tr index img)
  end.

Definition log_line (msg : string) (tr : ImageTracking) : ImageTracking :=
  mkImageTracking (exec (console_log msg) (tracked_page tr)) (images tr)
                  (loadedImages tr) (totalImages tr) (image_listeners tr).

Definition trackImageLoading (imgs : list Image) (s : State) : ImageTracking :=
  let tr := mkImageTracking s imgs 0 (length imgs) [] in
  if (totalImages tr =? 0)%nat then
    log_line "📷 No images to track" tr
  else
    let tr := track_images_from 0 imgs tr in
    if (loadedImages tr =? totalImages tr)%nat
    then log_line "✅ All images already loaded" tr
    else tr.

(** The [load] listener of the image at [index] (lines 258-265). *)
Definition on_image_load (index : nat) (tr : ImageTracking) : ImageTracking :=
  let tr := mkImageTracking (tracked_page tr) (images tr) (S (loadedImages tr))
                            (totalImages tr) (image_listeners tr) in
  let tr := log_line ("📸 Image " +:+ pretty (index + 1)%nat +:+ "/"
                      +:+ pretty (totalImages tr) +:+ " loaded successfully") tr in
  if (loadedImages tr =? totalImages tr)%nat
  then log_line "✅ All images loaded successfully" tr
  else tr.

(** [img.src], through the element reference. *)
Definition src_of (el : nat) (s : State) : string :=
  match document s !! el with
  | Some n => src n
  | None => ""
  end.

(** The [error] listener of the image [img] (lines 267-275). *)
Definition on_image_error (img : Image) (tr : ImageTracking) : ImageTracking :=
  let tr := log_line ("❌ Failed to load image: "
                      +:+ substring 0 50 (src_of (image_el img) (tracked_page tr))
                      +:+ "...") tr in
  let tr := mkImageTracking (exec (handleImageError (image_el img)) (tracked_page tr))
                            (images tr) (S (loadedImages tr))
                            (totalImages tr) (image_listeners tr) in
  if (loadedImages tr =? totalImages tr)%nat
  then log_line "⚠️ All images processed (some may have failed)" tr
  else tr.

Inductive ImageEvent : Type :=
| ImageLoad (index : nat)
| ImageError (index : nat).

Definition image_index (ev : ImageEvent) : nat :=
  match ev with ImageLoad i => i | ImageError i => i end.

(** An event reaches a listener only at an image that was given one. *)
Definition image_step (tr : ImageTracking) (ev : ImageEvent) : ImageTracking :=
  if bool_decide (image_index ev ∈ image_listeners tr) then
    match ev with
    | ImageLoad i => on_image_load i tr
    | ImageError i =>
        match images tr !! i with
        | Some img => on_image_error img tr
        | None => tr
        end
    end
  else tr.

Definition image_run (evs : list ImageEvent) (tr : ImageTracking) : ImageTracking :=
  fold_left image_step evs tr.

(** The three lines that announce that all images are done. *)
Definition completion_line (msg : string) : bool :=
  bool_decide (msg = "✅ All images already loaded")
  || bool_decide (msg = "✅ All images loaded successfully")
  || bool_decide (msg = "⚠️ All images processed (some may have failed)").

Definition completion_lines (s : State) : nat :=
  length (filter (fun msg => completion_line msg = true) (console s)).

(** Number of images counted as loaded when tracking starts. *)
Definition ready (imgs : list Image) : nat :=
  length (filter (fun img => already_loaded img = true) imgs).

(** The events of [evs] that reach a listener. *)
Definition delivered (tr : ImageTracking) (evs : list ImageEvent)
    : list ImageEvent :=
  filter (fun ev => image_index ev ∈ image_listeners tr) evs.

(** ** More sample data *)

(** A card with a logo and an arrow inside it. *)
Definition card_page : list Node :=
  [element ["link-card"];
   mkNode (Some 0%nat) ["logo-container"] empty_style "" "" None;
   mkNode (Some 0%nat) ["link-arrow"] empty_style "" "" None].

(** A card that carries an inline animation when the script runs. *)
Definition spinning_page : list Node :=
  [mkNode None ["link-card"] (mkStyle "0" "" "" "" "3s" "spin") "" "" None].

(** Two calls within the limit, the reset, and a later call; [func]
    returns each time. *)
Definition scroll_trace : list (UtilEvent (nat * Body nat)) :=
  [Call 0 (1%nat, Done); Call 50 (2%nat, Done); Tick 100;
   Call 120 (3%nat, Done)].

(** A loaded image and one that is still loading. *)
Definition two_images : list Image :=
  [mkImage 1 true 10; mkImage 0 false 0].

(** * The readers of style values, on values of the script *)

Example css_transform_icon_hidden :
  css_transform "translateY(20px) scale(0.8)"
  = Some [translateY (mkDecimal 20 0); scale (mkDecimal 8 1)].
Proof. reflexivity. Qed.

Example css_transform_hover :
  css_transform "translateY(-4px) scale(1.1)"
  = Some [translateY (mkDecimal (-4) 0); scale (mkDecimal 11 1)].
Proof. reflexivity. Qed.

Example css_transition_card :
  css_transition "all 0.6s cubic-bezier(0.4, 0, 0.2, 1)"
  = Some (mkDecimal 6 1, "cubic-bezier(0.4, 0, 0.2, 1)").
Proof. reflexivity. Qed.

(** * Reasoning about script runs *)

Lemma returns_ret {A} (a : A) : returns (ret a).
Proof. intros s. reflexivity. Qed.

Lemma returns_gets {A} (f : State -> A) : returns (gets f).
Proof. intros s. reflexivity. Qed.

Lemma preserves_ret {X A} (view : State -> X) (a : A) : preserves view (ret a).
Proof. intros s. reflexivity. Qed.

Lemma preserves_gets {X A} (view : State -> X) (f : State -> A) :
  preserves view (gets f).
Proof. intros s. reflexivity. Qed.

Lemma preserves_throw {X A} (view : State -> X) e :
  preserves view (throw (A:=A) e).
Proof. intros s. reflexivity. Qed.

Lemma returns_modify f : returns (modify f).
Proof. intros s. reflexivity. Qed.

Lemma preserves_modify {X} (view : State -> X) f :
  (forall s, view (f s) = view s) -> preserves view (modify f).
Proof. intros H s. apply H. Qed.

Lemma returns_bind {A B} (m : M A) (k : A -> M B) :
  returns m -> (forall a, returns (k a)) -> returns (bind m k).
Proof.
  intros Hm Hk s. unfold bind. specialize (Hm s).
  destruct (m s) as [a s'|e s']; [apply Hk | discriminate].
Qed.

Lemma preserves_bind {X A B} (view : State -> X) (m : M A) (k : A -> M B) :
  preserves view m -> (forall a, preserves view (k a)) -> preserves view (bind m k).
Proof.
  intros Hm Hk s. unfold bind. specialize (Hm s).
  destruct (m s) as [a s'|e s']; simpl in *; [rewrite Hk | ]; exact Hm.
Qed.

Lemma returns_when b m : returns m -> returns (when b m).
Proof. intros H. destruct b; [exact H | apply returns_ret]. Qed.

Lemma preserves_when {X} (view : State -> X) b m :
  preserves view m -> preserves view (when b m).
Proof. intros H. destruct b; [exact H | apply preserves_ret]. Qed.

Lemma returns_forEach {A} (f : A -> nat -> M unit) l :
  (forall x i, returns (f x i)) -> forall i, returns (forEach_from i l f).
Proof.
  intros Hf. induction l as [|x l IH]; intros i; simpl.
  - apply returns_ret.
  - apply returns_bind; [apply Hf | intros _; apply IH].
Qed.

Lemma preserves_forEach {X A} (view : State -> X) (f : A -> nat -> M unit) l :
  (forall x i, preserves view (f x i)) ->
  forall i, preserves view (forEach_from i l f).
Proof.
  intros Hf. induction l as [|x l IH]; intros i; simpl.
  - apply preserves_ret.
  - apply preserves_bind; [apply Hf | intros _; apply IH].
Qed.

Lemma preserves_report {X A} (view : State -> X) (m : M A) :
  (forall f s, view (with_console f s) = view s) ->
  preserves view m -> preserves view (fun s => report (m s)).
Proof.
  intros Hc Hm s. specialize (Hm s).
  destruct (m s) as [a s'|e s']; simpl in *; [|rewrite Hc]; exact Hm.
Qed.

(** A run that returns is its final state. *)
Lemma returns_exec {A} (m : M A) s :
  returned (m s) = true -> exists a, m s = Ok a (exec m s).
Proof.
  unfold exec. destruct (m s) as [a s'|e s']; [eauto | discriminate].
Qed.

Lemma exec_bind {A B} (m : M A) (k : A -> M B) s a s' :
  m s = Ok a s' -> exec (bind m k) s = exec (k a) s'.
Proof. intros H. unfold exec, bind. rewrite H. reflexivity. Qed.

Create HintDb js.
#[local] Hint Resolve returns_ret returns_gets returns_modify returns_when
  : js.
#[local] Hint Resolve preserves_ret preserves_gets preserves_throw
  preserves_when : js.

(** Chains of [bind] are taken apart by the lemmas above. *)
Ltac returns_tac :=
  repeat first
    [ match goal with |- forall _, _ => intro end
    | apply returns_bind
    | apply returns_forEach
    | apply returns_when
    | apply returns_ret
    | apply returns_gets
    | apply returns_modify ].

Ltac preserves_tac :=
  repeat first
    [ match goal with |- forall _, _ => intro end
    | apply preserves_bind
    | apply preserves_forEach
    | apply preserves_when
    | apply preserves_ret
    | apply preserves_gets
    | apply preserves_throw
    | apply preserves_modify; intros [] ; reflexivity ].

(** ** The primitives never throw *)

Lemma returns_set_style el p v : returns (set_style el p v).
Proof. apply returns_modify. Qed.

Lemma returns_setTimeout cb d : returns (setTimeout cb d).
Proof. apply returns_modify. Qed.

Lemma returns_hide_card card index : returns (hide_card card index).
Proof. unfold hide_card, set_style, setTimeout. returns_tac. Qed.

Lemma returns_hide_icon icon index : returns (hide_icon icon index).
Proof. unfold hide_icon, set_style, setTimeout. returns_tac. Qed.

Lemma returns_nonempty_NodeList v : returns (nonempty_NodeList v).
Proof. destruct v; unfold nonempty_NodeList; simpl; returns_tac. Qed.

(** The guard [v && v.length > 0] holds for a NodeList with an element and
    for nothing else. *)
Lemma nonempty_NodeList_eq v s :
  nonempty_NodeList v s
  = Ok (match v with Some (_ :: _) => true | _ => false end) s.
Proof. destruct v as [[|x l]|]; reflexivity. Qed.

(** ** What the two staggering loops do

    [hide_card] and [hide_icon] are one loop body at two settings; its
    effect on the page is given in closed form by [staggered]. *)

Lemma hide_card_stagger : hide_card = stagger "translateY(30px)" RevealCard 800 150.
Proof. reflexivity. Qed.

Lemma hide_icon_stagger :
  hide_icon = stagger "translateY(20px) scale(0.8)" RevealIcon 1400 100.
Proof. reflexivity. Qed.

Lemma stagger_timers_cons mk base per i c l :
  stagger_timers mk base per i (c :: l)
  = (base + Z.of_nat i * per, mk c) :: stagger_timers mk base per (S i) l.
Proof.
  unfold stagger_timers. rewrite imap_cons. f_equal.
  - by rewrite Nat.add_0_r.
  - apply imap_ext. intros k x _. simpl. by rewrite Nat.add_succ_r.
Qed.

(** Projections of an updated state. *)
Ltac state_simpl :=
  cbv beta iota delta
    [with_timers with_style_writes with_document with_console with_frames
     with_listeners with_observers with_Elements
     document App_animations_enabled Elements_linkCards Elements_socialIcons
     Elements_footer timers frames frame_handles listeners observers console
     style_writes].

Lemma forEach_stagger tr mk base per l : forall i s,
  forEach_from i l (stagger tr mk base per) s
  = Ok tt (staggered tr mk base per i l s).
Proof.
  induction l as [|c l IH]; intros i s.
  - destruct s. unfold staggered. state_simpl.
    unfold stagger_timers, stagger_writes, hide_all.
    cbn [imap flat_map foldl]. by rewrite !app_nil_r.
  - simpl. unfold bind at 1.
    change (stagger tr mk base per c i s) with
      (Ok tt (with_timers (fun t => t ++ [(base + Z.of_nat i * per, mk c)])
         (with_style_writes (fun w => w ++ [(c, Transform, tr)])
           (with_document (alter (with_style (style_set Transform tr)) c)
             (with_style_writes (fun w => w ++ [(c, Opacity, "0")])
               (with_document (alter (with_style (style_set Opacity "0")) c) s)))))).
    cbv beta iota. rewrite IH. f_equal. destruct s.
    unfold staggered. state_simpl.
    rewrite stagger_timers_cons.
    unfold stagger_writes, hide_all. cbn [flat_map foldl].
    rewrite list_alter_alter_eq, <- !app_assoc.
    reflexivity.
Qed.

Lemma bind_gets {A B} (f : State -> A) (k : A -> M B) s :
  bind (gets f) k s = k (f s) s.
Proof. reflexivity. Qed.

Lemma bind_Ok {A B} (m : M A) (k : A -> M B) s a s' :
  m s = Ok a s' -> bind m k s = k a s'.
Proof. intros H. unfold bind. by rewrite H. Qed.

Lemma block_eq tr mk base per what v s :
  when (match v with Some (_ :: _) => true | _ => false end)
       (NodeList_forEach v (stagger tr mk base per) ;;;
        let* n := NodeList_length v in
        console_log ("🎬 " +:+ pretty n +:+ what)) s
  = Ok tt (phase tr mk base per what v s).
Proof.
  destruct v as [[|c l]|]; try reflexivity.
  unfold when, NodeList_forEach.
  erewrite bind_Ok by apply forEach_stagger. reflexivity.
Qed.

Lemma setupPageLoadAnimations_eq s :
  setupPageLoadAnimations s
  = Ok tt (icons_phase (Elements_socialIcons s)
             (cards_phase (Elements_linkCards s) s)).
Proof.
  unfold setupPageLoadAnimations. rewrite !bind_gets.
  erewrite bind_Ok by apply nonempty_NodeList_eq.
  rewrite hide_card_stagger, hide_icon_stagger.
  erewrite bind_Ok by apply block_eq.
  erewrite bind_Ok by apply nonempty_NodeList_eq.
  apply block_eq.
Qed.

Lemma stagger_timers_nil mk base per i : stagger_timers mk base per i [] = [].
Proof. reflexivity. Qed.

Lemma timers_phase tr mk base per what v s :
  timers (phase tr mk base per what v s)
  = timers s ++ stagger_timers mk base per 0 (NodeList_items v).
Proof.
  destruct v as [[|c l]|]; simpl; rewrite ?app_nil_r; try reflexivity.
Qed.

Lemma document_phase tr mk base per what v s :
  document (phase tr mk base per what v s)
  = hide_all tr (NodeList_items v) (document s).
Proof. destruct v as [[|c l]|]; reflexivity. Qed.

Lemma style_writes_phase tr mk base per what v s :
  style_writes (phase tr mk base per what v s)
  = style_writes s ++ stagger_writes tr (NodeList_items v).
Proof.
  destruct v as [[|c l]|]; simpl; rewrite ?app_nil_r; try reflexivity.
Qed.

Lemma phase_empty tr mk base per what v s :
  NodeList_items v = [] -> phase tr mk base per what v s = s.
Proof. destruct v as [[|c l]|]; simpl; [reflexivity | discriminate | reflexivity]. Qed.

Lemma phase_frame_phase tr mk base per what v s :
  phase_frame (phase tr mk base per what v s) = phase_frame s.
Proof. destruct v as [[|c l]|]; reflexivity. Qed.

(** ** The timers armed by [setupPageLoadAnimations] *)

Lemma armed_by_setupPageLoadAnimations s :
  armed_by setupPageLoadAnimations s
  = stagger_timers RevealCard 800 150 0 (group_targets Card s)
    ++ stagger_timers RevealIcon 1400 100 0 (group_targets Icon s).
Proof.
  unfold armed_by, exec. rewrite setupPageLoadAnimations_eq. simpl.
  unfold icons_phase, cards_phase. rewrite !timers_phase, <- app_assoc.
  by rewrite drop_app_length.
Qed.

Lemma group_timers_stagger G G' base per l : forall i,
  group_timers G (stagger_timers (reveal G') base per i l)
  = if decide (G' = G) then stagger_timers (reveal G') base per i l else [].
Proof.
  induction l as [|c l IH]; intros i.
  - by destruct (decide (G' = G)).
  - rewrite stagger_timers_cons. unfold group_timers in *.
    rewrite filter_cons, IH. simpl.
    replace (timer_group (reveal G' c)) with G' by (by destruct G').
    by destruct (decide (G' = G)).
Qed.

Lemma group_timers_setupPageLoadAnimations G s :
  group_timers G (armed_by setupPageLoadAnimations s)
  = stagger_timers (reveal G) (baseDelay G) (perItemDelay G) 0
      (group_targets G s).
Proof.
  rewrite armed_by_setupPageLoadAnimations. unfold group_timers.
  rewrite filter_app.
  pose proof (group_timers_stagger G Card 800 150 (group_targets Card s) 0) as Hc.
  pose proof (group_timers_stagger G Icon 1400 100 (group_targets Icon s) 0) as Hi.
  unfold group_timers in Hc, Hi. simpl in Hc, Hi. rewrite Hc, Hi.
  destruct G; simpl; by rewrite ?app_nil_r.
Qed.

Lemma delays_of_setupPageLoadAnimations G s :
  delays_of G (armed_by setupPageLoadAnimations s)
  = imap (fun i _ => baseDelay G + Z.of_nat i * perItemDelay G)
         (group_targets G s).
Proof.
  unfold delays_of. rewrite group_timers_setupPageLoadAnimations.
  unfold stagger_timers. rewrite fmap_imap. by apply imap_ext.
Qed.

Lemma hidden_style_idem tr n :
  with_style (hidden_style tr) (with_style (hidden_style tr) n)
  = with_style (hidden_style tr) n.
Proof. reflexivity. Qed.

Lemma hide_all_lookup tr l : forall (doc : list Node) (n : nat),
  hide_all tr l doc !! n
  = if decide (n ∈ l) then with_style (hidden_style tr) <$> doc !! n
    else doc !! n.
Proof.
  induction l as [|c l IH]; intros doc n.
  - simpl. destruct (decide (n ∈ [])) as [H|H]; [by apply elem_of_nil in H | done].
  - unfold hide_all in *. simpl. rewrite IH.
    destruct (decide (n = c)) as [->|Hne].
    + rewrite list_lookup_alter_eq.
      destruct (decide (c ∈ l)), (decide (c ∈ c :: l)) as [|Hn]; try done.
      * destruct (doc !! c); simpl; by rewrite ?hidden_style_idem.
      * exfalso. apply Hn. by left.
      * exfalso. apply Hn. by left.
    + rewrite list_lookup_alter_ne by done.
      destruct (decide (n ∈ l)) as [Hl|Hl], (decide (n ∈ c :: l)) as [Hc|Hc];
        try done.
      * exfalso. apply Hc. by right.
      * exfalso. apply elem_of_cons in Hc as [?|?]; done.
Qed.

Lemma hide_all_length tr l : forall doc : list Node,
  length (hide_all tr l doc) = length doc.
Proof.
  induction l as [|c l IH]; intros doc; [done|].
  unfold hide_all in *. simpl. by rewrite IH, length_alter.
Qed.

(** * The claims *)

(** C1. Every target at index [i] of group [G] gets a reveal timer with
    delay [baseDelay G + i * perItemDelay G], the base and step being 800
    and 150 for cards and 1400 and 100 for icons; three cards are armed at
    800, 950 and 1100 and two icons at 1400 and 1500. *)
Theorem C1_reveal_delay (s : State) :
  let armed := armed_by setupPageLoadAnimations s in
  (forall G i el,
      group_targets G s !! i = Some el ->
      group_timers G armed !! i
      = Some (baseDelay G + Z.of_nat i * perItemDelay G, reveal G el))
  /\ (baseDelay Card, perItemDelay Card) = (800, 150)
  /\ (baseDelay Icon, perItemDelay Icon) = (1400, 100)
  /\ (length (group_targets Card s) = 3%nat ->
      delays_of Card armed = [800; 950; 1100])
  /\ (length (group_targets Icon s) = 2%nat ->
      delays_of Icon armed = [1400; 1500]).
Proof.
  intros armed. subst armed. repeat split.
  - intros G i el Hi. rewrite group_timers_setupPageLoadAnimations.
    unfold stagger_timers. rewrite list_lookup_imap, Hi. reflexivity.
  - intros Hlen. rewrite delays_of_setupPageLoadAnimations.
    destruct (group_targets Card s) as [|a [|b [|c [|d l]]]]; try discriminate.
    reflexivity.
  - intros Hlen. rewrite delays_of_setupPageLoadAnimations.
    destruct (group_targets Icon s) as [|a [|b [|c l]]]; try discriminate.
    reflexivity.
Qed.

(** C4. Scheduling the [n] targets of a group arms exactly [n] reveals,
    with delays strictly increasing in index order, the last one being
    [baseDelay G + perItemDelay G * (n - 1)]. *)
Theorem C4_stagger_shape (s : State) (G : Group) :
  let armed := armed_by setupPageLoadAnimations s in
  let n := length (group_targets G s) in
  length (group_timers G armed) = n
  /\ length armed
     = (length (group_targets Card s) + length (group_targets Icon s))%nat
  /\ (forall i j di dj,
        (i < j)%nat ->
        delays_of G armed !! i = Some di ->
        delays_of G armed !! j = Some dj ->
        di < dj)
  /\ (n <> 0%nat ->
      last (delays_of G armed)
      = Some (baseDelay G + perItemDelay G * (Z.of_nat n - 1))).
Proof.
  intros armed n. subst armed n. repeat split.
  - rewrite group_timers_setupPageLoadAnimations.
    unfold stagger_timers. apply length_imap.
  - rewrite armed_by_setupPageLoadAnimations, length_app.
    unfold stagger_timers. by rewrite !length_imap.
  - intros i j di dj Hij. rewrite delays_of_setupPageLoadAnimations.
    rewrite !list_lookup_imap.
    destruct (group_targets G s !! i), (group_targets G s !! j);
      simpl; intros [= <-] [= <-].
    destruct G; simpl; lia.
  - intros Hn. rewrite delays_of_setupPageLoadAnimations.
    rewrite last_lookup, length_imap, list_lookup_imap.
    assert (is_Some (group_targets G s !! pred (length (group_targets G s))))
      as [x Hx] by (apply lookup_lt_is_Some; lia).
    rewrite Hx. cbn [fmap option_fmap option_map]. f_equal.
    destruct G; cbn [baseDelay perItemDelay]; lia.
Qed.

(** C6. With no target in either group [setupPageLoadAnimations] returns
    at once and leaves the page as it was: no timer, no console line, no
    exception; a group without targets gets no timer. *)
Theorem C6_empty_is_noop (s : State) :
  (group_targets Card s = [] -> group_targets Icon s = [] ->
   setupPageLoadAnimations s = Ok tt s)
  /\ (forall G, group_targets G s = [] ->
      group_timers G (armed_by setupPageLoadAnimations s) = []).
Proof.
  split.
  - intros Hc Hi. rewrite setupPageLoadAnimations_eq.
    unfold icons_phase, cards_phase. by rewrite !phase_empty.
  - intros G HG. rewrite group_timers_setupPageLoadAnimations, HG.
    reflexivity.
Qed.

(** ** Queries *)

Lemma elem_of_select_from sel doc : forall i n,
  n ∈ select_from i sel doc
  <-> exists node, (i <= n)%nat /\ doc !! (n - i)%nat = Some node
                   /\ matches sel node = true.
Proof.
  induction doc as [|x doc IH]; intros i n; simpl.
  - split; [intros H; by apply elem_of_nil in H | intros (node & _ & H & _); done].
  - assert (n ∈ select_from (S i) sel doc
            <-> exists node, (i < n)%nat /\ doc !! (n - S i)%nat = Some node
                             /\ matches sel node = true) as IH'.
    { rewrite IH. split; intros (node & ? & ? & ?); exists node; repeat split; (lia || done). }
    assert (forall node, (i < n)%nat ->
              (x :: doc) !! (n - i)%nat = Some node
              <-> doc !! (n - S i)%nat = Some node) as Hshift.
    { intros node Hlt. replace (n - i)%nat with (S (n - S i)) by lia. done. }
    destruct (matches sel x) eqn:Hx.
    + rewrite elem_of_cons, IH'. split.
      * intros [->|(node & Hlt & Hl & Hm)].
        -- exists x. rewrite Nat.sub_diag. repeat split; (lia || done).
        -- exists node. repeat split; [lia | by apply Hshift | done].
      * intros (node & Hle & Hl & Hm).
        destruct (decide (n = i)) as [->|Hne]; [by left | right].
        exists node. repeat split; [lia | apply Hshift; (lia || done) | done].
    + rewrite IH'. split.
      * intros (node & Hlt & Hl & Hm).
        exists node. repeat split; [lia | by apply Hshift | done].
      * intros (node & Hle & Hl & Hm).
        destruct (decide (n = i)) as [->|Hne].
        -- rewrite Nat.sub_diag in Hl. simpl in Hl. congruence.
        -- exists node. repeat split; [lia | apply Hshift; (lia || done) | done].
Qed.

(** An element is in the result of [querySelectorAll] exactly when it is in
    the document and matches. *)
Lemma elem_of_select sel doc n :
  n ∈ select_from 0 sel doc
  <-> exists node, doc !! n = Some node /\ matches sel node = true.
Proof.
  rewrite elem_of_select_from. rewrite Nat.sub_0_r.
  split; intros (node & H); exists node; intuition lia.
Qed.

(** A query lists no element twice. *)
Lemma NoDup_select_from sel doc : forall i, NoDup (select_from i sel doc).
Proof.
  induction doc as [|x doc IH]; intros i; simpl; [constructor|].
  destruct (matches sel x); [|apply IH].
  constructor; [|apply IH].
  rewrite elem_of_select_from. intros (node & Hle & _). lia.
Qed.

Lemma matches_weaken c sel node :
  c ∈ sel -> matches [c] node = true -> matches sel node = true.
Proof.
  unfold matches. simpl. rewrite orb_false_r. intros Hc Hm.
  apply existsb_exists. exists c. split; [by apply list_elem_of_In | done].
Qed.

Lemma cached_Elements_cached doc enabled : Elements_cached (cached doc enabled).
Proof. repeat split. Qed.

Lemma group_targets_cached s G :
  Elements_cached s ->
  group_targets G s = select_from 0 [group_class G] (document s).
Proof. intros (Hc & Hi & _). unfold group_targets. destruct G; by rewrite ?Hc, ?Hi. Qed.

(** ** Loops that establish a fact about each element they visit *)

Lemma forEach_keeps {A} (f : A -> nat -> M unit) (Q : State -> Prop) l :
  (forall y i s, Q s -> Q (final_state (f y i s))) ->
  forall i s, Q s -> Q (final_state (forEach_from i l f s)).
Proof.
  intros Hkeep. induction l as [|y l IH]; intros i s HQ; [done|].
  simpl. unfold bind. pose proof (Hkeep y i s HQ) as Hk.
  destruct (f y i s) as [[] s1|e s1]; [by apply IH | done].
Qed.

Lemma forEach_establishes {A} (f : A -> nat -> M unit) (P : A -> State -> Prop) l :
  (forall x i, returns (f x i)) ->
  (forall x i s, P x (final_state (f x i s))) ->
  (forall x y i s, P x s -> P x (final_state (f y i s))) ->
  forall i s x, x ∈ l -> P x (final_state (forEach_from i l f s)).
Proof.
  intros Hret Hest Hkeep. induction l as [|y l IH]; intros i s x Hx.
  - by apply elem_of_nil in Hx.
  - simpl. unfold bind. pose proof (Hret y i s) as Hr.
    pose proof (Hest y i s) as He.
    destruct (f y i s) as [[] s1|e s1]; [|discriminate]. simpl in He.
    apply elem_of_cons in Hx as [->|Hl]; [|by apply IH].
    apply (forEach_keeps f (P y)); [apply Hkeep | exact He].
Qed.

(** ** Style writes leave the rest of an element alone *)

Lemma fmap_alter_same {A B} (f : A -> B) (g : A -> A) (l : list A) i :
  (forall x, f (g x) = f x) -> f <$> alter g i l = f <$> l.
Proof.
  intros H. revert i. induction l as [|x l IH]; intros [|i]; simpl; [done..| |].
  - by rewrite H.
  - f_equal. apply IH.
Qed.

Lemma preserves_set_style_structure el p v :
  preserves structure (set_style el p v).
Proof.
  apply preserves_modify. intros s. unfold structure. destruct s; simpl.
  by apply fmap_alter_same.
Qed.

Lemma structure_lookup s s' el node :
  structure s' = structure s ->
  document s !! el = Some node ->
  exists node', document s' !! el = Some node'
                /\ parent node' = parent node
                /\ classList node' = classList node
                /\ src node' = src node /\ alt node' = alt node.
Proof.
  unfold structure. intros Heq Hl.
  assert (((fun n => (parent n, classList n, src n, alt n)) <$> document s') !! el
          = Some (parent node, classList node, src node, alt node)) as H.
  { rewrite Heq, list_lookup_fmap, Hl. reflexivity. }
  rewrite list_lookup_fmap in H.
  destruct (document s' !! el) as [node'|]; [|discriminate].
  exists node'. simpl in H. injection H as -> -> -> ->. done.
Qed.

(** ** [disableAnimations] *)

Lemma returns_show_element el i : returns (show_element el i).
Proof. unfold show_element, set_style. returns_tac. Qed.

Lemma show_element_document el i s :
  document (final_state (show_element el i s))
  = alter (with_style (style_set Animation "none"))  el
      (alter (with_style (style_set Transform "translateY(0)")) el
         (alter (with_style (style_set Opacity "1")) el (document s))).
Proof. reflexivity. Qed.

Lemma disableAnimations_shows s el :
  el ∈ select_from 0
         ["link-card"; "social-icon"; "hero-section"; "social-section"; "footer"]
         (document s) ->
  forall node, document (exec disableAnimations s) !! el = Some node ->
               shown_now node.
Proof.
  intros Hel. unfold exec, disableAnimations, bind. simpl.
  pose proof (returns_forEach show_element
                (select_from 0 ["link-card"; "social-icon"; "hero-section";
                                "social-section"; "footer"] (document s))
                returns_show_element 0%nat s) as Hret.
  pose proof (forEach_establishes show_element
    (fun el s => forall node, document s !! el = Some node -> shown_now node)
    (select_from 0 ["link-card"; "social-icon"; "hero-section";
                    "social-section"; "footer"] (document s))
    returns_show_element) as Hall.
  specialize (Hall
    ltac:(intros x i s0 node; rewrite show_element_document;
          rewrite !list_lookup_alter_eq; destruct (document s0 !! x); simpl;
          [intros [= <-]; by repeat split | done])
    ltac:(intros x y i s0 HP node; rewrite show_element_document;
          destruct (decide (y = x)) as [->|Hne];
          [ rewrite !list_lookup_alter_eq; destruct (document s0 !! x); simpl;
            [intros [= <-]; by repeat split | done]
          | rewrite !list_lookup_alter_ne by done; apply HP ])
    0%nat s el Hel).
  simpl in Hall.
  destruct (forEach_from 0 _ show_element s) as [[] s1|e s1]; [|discriminate].
  exact Hall.
Qed.

Lemma returns_disableAnimations : returns disableAnimations.
Proof.
  unfold disableAnimations, querySelectorAll, console_log.
  returns_tac.
Qed.

Lemma preserves_show_element {X} (view : State -> X) el i :
  (forall el p v, preserves view (set_style el p v)) ->
  preserves view (show_element el i).
Proof. intros H. unfold show_element. preserves_tac; apply H. Qed.

Lemma preserves_disableAnimations_timers :
  preserves (fun s => (timers s, frames s, listeners s, observers s))
            disableAnimations.
Proof.
  unfold disableAnimations, querySelectorAll, console_log, show_element, set_style.
  preserves_tac.
Qed.

Lemma preserves_disableAnimations_structure : preserves structure disableAnimations.
Proof.
  unfold disableAnimations, querySelectorAll, console_log.
  preserves_tac; apply preserves_set_style_structure.
Qed.

Lemma init_disabled s :
  App_animations_enabled s = false -> init s = disableAnimations s.
Proof. intros H. unfold init, bind, gets. by rewrite H. Qed.

(** C2. With animations disabled, [init] returns after putting every card
    and icon in its final visible state (opacity 1, no offset, no
    animation), and arms no timer. *)
Theorem C2_disabled_shows_at_once (s : State) :
  App_animations_enabled s = false ->
  Elements_cached s ->
  let s' := exec init s in
  init s = Ok tt s'
  /\ armed_by init s = []
  /\ timers s' = timers s
  /\ forall G el, el ∈ group_targets G s ->
       exists node node',
         document s !! el = Some node
         /\ document s' !! el = Some node'
         /\ opacity (style node') = "1"
         /\ transform (style node') = "translateY(0)"
         /\ animation (style node') = "none"
         /\ is_visible (style node') = true
         /\ zero_offset (style node') = true
         /\ classList node' = classList node.
Proof.
  intros Hoff Hcache s'. subst s'. unfold armed_by, exec.
  rewrite (init_disabled s Hoff).
  pose proof (preserves_disableAnimations_timers s) as Ht.
  injection Ht as Ht _ _ _.
  repeat split.
  - pose proof (returns_disableAnimations s) as Hr.
    destruct (disableAnimations s) as [[] s1|e s1]; [done | discriminate].
  - rewrite Ht. apply drop_all.
  - exact Ht.
  - intros G el Hel. rewrite (group_targets_cached s G Hcache) in Hel.
    pose proof Hel as Hel'. apply elem_of_select in Hel' as (node & Hnode & Hm).
    destruct (structure_lookup s (final_state (disableAnimations s)) el node
                (preserves_disableAnimations_structure s) Hnode)
      as (node' & Hnode' & _ & Hcl & _).
    assert (shown_now node') as (Ho & Htr & Han).
    { apply (disableAnimations_shows s el); [|exact Hnode'].
      apply elem_of_select. exists node. split; [done|].
      apply (matches_weaken (group_class G)); [|done].
      destruct G; cbn [group_class]; repeat constructor. }
    exists node, node'. unfold is_visible, opacity_is, zero_offset.
    rewrite Ho, Htr. by repeat split.
Qed.

(** C10. [handleImageError] puts the fallback source and alt text on an
    image carrying the class [profile-image], and on no other: for any
    other image the page is left exactly as it was. *)
Theorem C10_fallback_only_for_profile_image (s : State) (img : nat) (node : Node) :
  document s !! img = Some node ->
  (contains "profile-image" (classList node) = true ->
     exists s',
       handleImageError img s = Ok tt s'
       /\ document s' !! img = Some (with_src_alt fallback_src fallback_alt node)
       /\ (forall el, el <> img -> document s' !! el = document s !! el))
  /\ (contains "profile-image" (classList node) = false ->
      handleImageError img s = Ok tt s).
Proof.
  intros Hnode. unfold handleImageError, bind, gets, has_class.
  rewrite Hnode. split; intros ->; simpl.
  - eexists. split; [reflexivity|]. simpl. split.
    + by rewrite list_lookup_alter_eq, Hnode.
    + intros el Hne. by rewrite list_lookup_alter_ne.
  - reflexivity.
Qed.

(** ** The intersection callback *)

Lemma contains_true c cl : contains c cl = true <-> c ∈ cl.
Proof. unfold contains. by rewrite bool_decide_eq_true. Qed.

Lemma contains_false c cl : contains c cl = false <-> c ∉ cl.
Proof. unfold contains. by rewrite bool_decide_eq_false. Qed.

Lemma occurrences_absent c cl : c ∉ cl -> occurrences c cl = 0%nat.
Proof.
  unfold occurrences. induction cl as [|x cl IH]; intros Hc; [done|].
  rewrite filter_cons. apply not_elem_of_cons in Hc as [Hne Hc].
  destruct (decide (x = c)); [congruence | by apply IH].
Qed.

Lemma occurrences_app c l1 l2 :
  occurrences c (l1 ++ l2) = (occurrences c l1 + occurrences c l2)%nat.
Proof. unfold occurrences. by rewrite filter_app, length_app. Qed.

Lemma add_token_other cl c d : c <> d -> c ∉ cl -> c ∉ add_token cl d.
Proof.
  intros Hne Hc. unfold add_token. destruct (contains d cl); [done|].
  rewrite elem_of_app, list_elem_of_singleton. tauto.
Qed.

Lemma add_token_fresh cl c :
  c ∉ cl -> add_token cl c = cl ++ [c].
Proof. intros Hc. unfold add_token. apply contains_false in Hc. by rewrite Hc. Qed.

(** One entry: the mark is added when the entry intersects and the element
    is not marked yet; nothing happens otherwise. *)
Lemma on_entry_eq entry i s :
  on_entry entry i s
  = Ok tt (if isIntersecting entry && negb (has_class "animated" (target entry) s)
           then with_document
                  (alter (with_classList (classList_add ["fade-in"; "animated"]))
                         (target entry)) s
           else s).
Proof.
  unfold on_entry, bind, gets, when.
  by destruct (isIntersecting entry && negb (has_class "animated" (target entry) s)).
Qed.

Lemma forEach_on_entry_noop entries : forall i s,
  (forall e, e ∈ entries ->
     isIntersecting e = false \/ has_class "animated" (target e) s = true) ->
  forEach_from i entries on_entry s = Ok tt s.
Proof.
  induction entries as [|e entries IH]; intros i s H; [done|].
  cbn [forEach_from]. erewrite bind_Ok by apply on_entry_eq.
  assert (isIntersecting e && negb (has_class "animated" (target e) s) = false) as ->.
  { destruct (H e) as [->| ->]; [by left | done | by rewrite andb_false_r]. }
  apply IH. intros e' He'. apply H. by right.
Qed.

Lemma mark_marks s ft node :
  document s !! ft = Some node ->
  has_class "animated" ft
    (with_document
       (alter (with_classList (classList_add ["fade-in"; "animated"])) ft) s)
  = true.
Proof.
  intros Hnode. unfold has_class. cbn [document with_document].
  rewrite list_lookup_alter_eq, Hnode.
  cbn [fmap option_fmap option_map with_classList classList classList_add fold_left].
  apply contains_true. unfold add_token at 1.
  destruct (contains "animated" _) eqn:E; [by apply contains_true|].
  apply elem_of_app. right. by left.
Qed.

Lemma trigger_eq ft s :
  trigger ft s
  = if has_class "animated" ft s then s
    else with_document
           (alter (with_classList (classList_add ["fade-in"; "animated"])) ft) s.
Proof.
  unfold trigger, exec, observer_callback. cbn [forEach_from].
  erewrite bind_Ok by apply on_entry_eq.
  cbn [isIntersecting target andb ret final_state].
  by destruct (has_class "animated" ft s).
Qed.

Lemma trigger_marks ft s node :
  document s !! ft = Some node -> has_class "animated" ft (trigger ft s) = true.
Proof.
  intros Hnode. rewrite trigger_eq.
  destruct (has_class "animated" ft s) eqn:E; [done | by eapply mark_marks].
Qed.

(** A batch about one element acts as a single intersecting entry does, or
    not at all. *)
Lemma observer_callback_batch ft node entries : forall i s,
  document s !! ft = Some node ->
  (forall e, e ∈ entries -> target e = ft) ->
  forEach_from i entries on_entry s
  = Ok tt (if existsb isIntersecting entries then trigger ft s else s).
Proof.
  induction entries as [|e entries IH]; intros i s Hnode Hft; [done|].
  assert (target e = ft) as Het by (apply Hft; by left).
  assert (forall e', e' ∈ entries -> target e' = ft) as Hft'
    by (intros e' He'; apply Hft; by right).
  cbn [forEach_from existsb]. erewrite bind_Ok by apply on_entry_eq.
  rewrite Het. destruct (isIntersecting e) eqn:Ee; cbn [andb orb].
  - replace (if negb (has_class "animated" ft s) then _ else s)
      with (trigger ft s)
      by (rewrite trigger_eq; by destruct (has_class "animated" ft s)).
    apply forEach_on_entry_noop. intros e' He'. right.
    rewrite (Hft' e' He'). by eapply trigger_marks.
  - by apply IH.
Qed.

(** C3. The first callback that reports the watched element as
    intersecting leaves it marked [animated] (adding [fade-in] and
    [animated], once each, if the mark was not there), and every later
    callback about that element changes nothing; callbacks that report no
    intersection change nothing either. *)
Theorem C3_trigger_idempotent (s : State) (ft : nat) (node : Node)
    (entries : list IntersectionObserverEntry) :
  document s !! ft = Some node ->
  (forall e, e ∈ entries -> target e = ft) ->
  existsb isIntersecting entries = true ->
  let s1 := exec (observer_callback entries) s in
  has_class "animated" ft s1 = true
  /\ (has_class "animated" ft s = false ->
      exists node1,
        document s1 !! ft = Some node1
        /\ classList node1 = classList_add ["fade-in"; "animated"] (classList node)
        /\ occurrences "animated" (classList node1) = 1%nat
        /\ occurrences "animated" (classList node) = 0%nat)
  /\ (forall later,
        (forall e, e ∈ later -> target e = ft) ->
        observer_callback later s1 = Ok tt s1)
  /\ (forall earlier,
        (forall e, e ∈ earlier -> isIntersecting e = false) ->
        observer_callback earlier s = Ok tt s).
Proof.
  intros Hnode Hft Hsome s1.
  assert (s1 = trigger ft s) as Hs1.
  { subst s1. unfold exec, observer_callback.
    rewrite (observer_callback_batch ft node entries 0 s Hnode Hft), Hsome.
    reflexivity. }
  assert (has_class "animated" ft s1 = true) as Hmarked
    by (rewrite Hs1; by eapply trigger_marks).
  repeat split.
  - exact Hmarked.
  - intros Hfresh. rewrite Hs1, trigger_eq, Hfresh.
    cbn [document with_document]. rewrite list_lookup_alter_eq, Hnode.
    eexists. split; [reflexivity|].
    cbn [with_classList classList]. split; [reflexivity|].
    unfold has_class in Hfresh. rewrite Hnode in Hfresh.
    apply contains_false in Hfresh.
    split; [|by apply occurrences_absent].
    cbn [classList_add fold_left].
    rewrite (add_token_fresh _ "animated")
      by (by apply add_token_other).
    rewrite occurrences_app, occurrences_absent by (by apply add_token_other).
    reflexivity.
  - intros later Hlater. apply forEach_on_entry_noop.
    intros e He. right. by rewrite (Hlater e He).
  - intros earlier Hearlier. apply forEach_on_entry_noop.
    intros e He. left. by apply Hearlier.
Qed.

(** ** The page after [setupPageLoadAnimations] *)

Lemma document_setupPageLoadAnimations s :
  document (exec setupPageLoadAnimations s)
  = hide_all icon_hidden (group_targets Icon s)
      (hide_all card_hidden (group_targets Card s) (document s)).
Proof.
  unfold exec. rewrite setupPageLoadAnimations_eq. cbn [final_state].
  unfold icons_phase, cards_phase. by rewrite !document_phase.
Qed.

Lemma style_writes_setupPageLoadAnimations s :
  style_writes (exec setupPageLoadAnimations s)
  = style_writes s ++ stagger_writes card_hidden (group_targets Card s)
      ++ stagger_writes icon_hidden (group_targets Icon s).
Proof.
  unfold exec. rewrite setupPageLoadAnimations_eq. cbn [final_state].
  unfold icons_phase, cards_phase. by rewrite !style_writes_phase, <- app_assoc.
Qed.

Lemma timers_setupPageLoadAnimations s :
  timers (exec setupPageLoadAnimations s)
  = timers s ++ armed_by setupPageLoadAnimations s.
Proof.
  rewrite armed_by_setupPageLoadAnimations.
  unfold exec. rewrite setupPageLoadAnimations_eq. cbn [final_state].
  unfold icons_phase, cards_phase. by rewrite !timers_phase, <- app_assoc.
Qed.

(** The style of an element once the setup has run. *)
Lemma lookup_setupPageLoadAnimations s el node :
  document s !! el = Some node ->
  document (exec setupPageLoadAnimations s) !! el
  = Some (if decide (el ∈ group_targets Icon s)
          then with_style (hidden_style icon_hidden) node
          else if decide (el ∈ group_targets Card s)
               then with_style (hidden_style card_hidden) node
               else node).
Proof.
  intros Hnode. rewrite document_setupPageLoadAnimations, !hide_all_lookup, Hnode.
  destruct (decide (el ∈ group_targets Icon s)),
    (decide (el ∈ group_targets Card s)); reflexivity.
Qed.

Lemma group_targets_in_document s G el :
  Elements_cached s -> el ∈ group_targets G s ->
  exists node, document s !! el = Some node.
Proof.
  intros Hc Hel. rewrite (group_targets_cached s G Hc) in Hel.
  apply elem_of_select in Hel as (node & Hnode & _). eauto.
Qed.

(** ** What a reveal timer does *)

Lemma run_timer_eq G el s :
  run_timer (reveal G el) s
  = Ok tt (with_style_writes
             (fun w => w ++ [(el, Transition, reveal_transition G);
                             (el, Opacity, "1");
                             (el, Transform, final_transform G)])
             (with_document (alter (with_style (revealed_style G)) el) s)).
Proof.
  destruct G; destruct s; cbn [reveal run_timer]; unfold bind, set_style, modify;
    state_simpl; rewrite !list_alter_alter_eq, <- !app_assoc; reflexivity.
Qed.

Lemma run_timer_lookup G el s node :
  document s !! el = Some node ->
  document (exec (run_timer (reveal G el)) s) !! el
  = Some (with_style (revealed_style G) node).
Proof.
  intros Hnode. unfold exec. rewrite run_timer_eq.
  cbn [final_state document with_style_writes with_document].
  by rewrite list_lookup_alter_eq, Hnode.
Qed.

Lemma stagger_writes_split tr l el :
  el ∈ l ->
  exists before after,
    stagger_writes tr l
    = before ++ [(el, Opacity, "0"); (el, Transform, tr)] ++ after.
Proof.
  intros (l1 & l2 & ->)%list_elem_of_split.
  exists (stagger_writes tr l1), (stagger_writes tr l2).
  unfold stagger_writes. by rewrite flat_map_app.
Qed.

(** C5, as the code has it.  For every target the setup writes opacity 0 and a
    transform with a vertical offset; the transform of the icon loop is
    scaled down and that of the card loop is not.  When the setup returns
    every target is hidden and offset, and it is scaled down exactly when
    it is a target of the icon group: a card is not scaled down unless it
    is an icon too, for then the icon loop, which runs second, has
    overwritten its transform.  When its timer fires a target gets opacity
    1, no offset and unit scale, under an eased transition of fixed
    duration. *)
Theorem C5_hidden_then_final (s : State) :
  Elements_cached s ->
  let s' := exec setupPageLoadAnimations s in
  (forall G el,
      el ∈ group_targets G s ->
      exists before after,
        drop (length (style_writes s)) (style_writes s')
        = before ++ [(el, Opacity, "0"); (el, Transform, hidden_transform G)]
                 ++ after)
  /\ (forall G st,
        is_hidden (hidden_style (hidden_transform G) st) = true
        /\ has_vertical_offset (hidden_style (hidden_transform G) st) = true
        /\ scaled_down (hidden_style (hidden_transform G) st)
           = match G with Card => false | Icon => true end)
  /\ (forall G el,
        el ∈ group_targets G s ->
        exists node,
          document s' !! el = Some node
          /\ opacity (style node) = "0"
          /\ is_hidden (style node) = true
          /\ has_vertical_offset (style node) = true
          /\ scaled_down (style node)
             = bool_decide (el ∈ group_targets Icon s))
  /\ (forall G el s0 node0,
        document s0 !! el = Some node0 ->
        exists node,
          document (exec (run_timer (reveal G el)) s0) !! el = Some node
          /\ is_visible (style node) = true
          /\ zero_offset (style node) = true
          /\ unit_scale (style node) = true
          /\ eased_transition (reveal_tenths G) (style node) = true).
Proof.
  intros Hc s'. subst s'. split; [|split; [|split]].
  - intros G el Hel.
    rewrite style_writes_setupPageLoadAnimations, drop_app_length.
    destruct G; cbn [hidden_transform].
    + destruct (stagger_writes_split card_hidden _ el Hel) as (b & a & ->).
      exists b, (a ++ stagger_writes icon_hidden (group_targets Icon s)).
      by rewrite <- !app_assoc.
    + destruct (stagger_writes_split icon_hidden _ el Hel) as (b & a & ->).
      exists (stagger_writes card_hidden (group_targets Card s) ++ b), a.
      by rewrite <- !app_assoc.
  - intros G st. by destruct G.
  - intros G el Hel.
    destruct (group_targets_in_document s G el Hc Hel) as (node0 & Hnode0).
    rewrite (lookup_setupPageLoadAnimations s el node0 Hnode0).
    eexists. split; [reflexivity|].
    destruct (decide (el ∈ group_targets Icon s)) as [Hi|Hi].
    + rewrite bool_decide_eq_true_2 by done. by repeat split.
    + rewrite bool_decide_eq_false_2 by done.
      destruct G; [|done]. rewrite decide_True by done. by repeat split.
  - intros G el s0 node0 Hnode0.
    rewrite (run_timer_lookup G el s0 node0 Hnode0).
    eexists. split; [reflexivity|]. destruct G; repeat split; reflexivity.
Qed.

(** ** No operation throws *)

Lemma returns_when_truthy {A} (v : option A) (m : M unit) :
  (is_Some v -> returns m) -> returns (when (truthy v) m).
Proof.
  intros H. destruct v; cbn [truthy when]; [apply H; eauto | apply returns_ret].
Qed.

Lemma returns_NodeList_forEach v f :
  is_Some v -> (forall x i, returns (f x i)) -> returns (NodeList_forEach v f).
Proof. intros [l ->] Hf. by apply returns_forEach. Qed.

Lemma returns_requestAnimationFrame cb : returns (requestAnimationFrame cb).
Proof. intros s. reflexivity. Qed.

Lemma returns_report {A} (m : M A) : returns (fun s => report (m s)).
Proof. intros s. by destruct (m s). Qed.

(** Case analysis on what a [match] or [if] inspects, then the chain. *)
Ltac returns_cases :=
  repeat first
    [ match goal with |- forall _, _ => intro end
    | apply returns_bind
    | apply returns_forEach
    | apply returns_ret
    | apply returns_gets
    | apply returns_modify
    | apply returns_requestAnimationFrame
    | apply returns_report
    | match goal with
      | |- returns (match ?x with _ => _ end) => destruct x
      | |- returns (when ?b _) => destruct b; cbn [when]
      end ].

Lemma returns_setupPageLoadAnimations : returns setupPageLoadAnimations.
Proof. intros s. by rewrite setupPageLoadAnimations_eq. Qed.

Lemma returns_setupHoverEffects : returns setupHoverEffects.
Proof.
  unfold setupHoverEffects. apply returns_bind; [apply returns_gets|].
  intros linkCards. apply returns_bind.
  - apply returns_when_truthy. intros Hv. apply returns_bind.
    + apply returns_NodeList_forEach; [done|]. unfold addEventListener. returns_cases.
    + intros _. apply returns_modify.
  - intros _. apply returns_bind; [apply returns_gets|].
    intros socialIcons. apply returns_when_truthy. intros Hv.
    apply returns_NodeList_forEach; [done|]. unfold addEventListener. returns_cases.
Qed.

Lemma returns_setupScrollAnimations : returns setupScrollAnimations.
Proof. unfold setupScrollAnimations. returns_cases. Qed.

Lemma returns_init : returns init.
Proof.
  unfold init. apply returns_bind; [apply returns_gets|]. intros enabled.
  destruct (negb enabled).
  - apply returns_disableAnimations.
  - apply returns_bind; [apply returns_setupPageLoadAnimations|]. intros _.
    apply returns_bind; [apply returns_setupHoverEffects|]. intros _.
    apply returns_setupScrollAnimations.
Qed.

Lemma returns_run_timer cb : returns (run_timer cb).
Proof. destruct cb; unfold run_timer, set_style; returns_cases. Qed.

Lemma returns_handleCardHover card isEntering :
  returns (handleCardHover card isEntering).
Proof.
  unfold handleCardHover, Element_querySelector, set_style. returns_cases.
Qed.

Lemma returns_run_listener l el : returns (run_listener l el).
Proof.
  destruct l; cbn [run_listener];
    [apply returns_handleCardHover | apply returns_modify..].
Qed.

Lemma returns_observer_callback entries : returns (observer_callback entries).
Proof.
  unfold observer_callback. apply returns_forEach. intros e i s.
  by rewrite on_entry_eq.
Qed.

Lemma returns_step ev : returns (step ev).
Proof.
  destruct ev; cbn [step].
  - unfold fire_timer. returns_cases. apply returns_run_timer.
  - unfold fire_frame, run_frame, set_style. returns_cases.
  - unfold dispatch. returns_cases.
  - apply returns_bind; [apply returns_gets|]. intros w.
    apply returns_when, returns_observer_callback.
Qed.

Lemma returns_handleImageError img : returns (handleImageError img).
Proof. unfold handleImageError, console_log. returns_cases. Qed.

Lemma returns_cacheDOMElements : returns cacheDOMElements.
Proof.
  unfold cacheDOMElements, querySelectorAll, querySelector, console_log.
  returns_cases.
Qed.

(** C8. No operation of the sequencer throws, whatever the page: [init],
    its parts and every callback return.  A missing footer is not
    observed, a missing or empty group gets no timer, and with a [null]
    cache the setup routines leave the page as it was. *)
Theorem C8_total_and_skips_missing (s : State) :
  returned (init s) = true
  /\ returned (disableAnimations s) = true
  /\ returned (setupPageLoadAnimations s) = true
  /\ returned (setupHoverEffects s) = true
  /\ returned (setupScrollAnimations s) = true
  /\ (forall ev, returned (step ev s) = true)
  /\ (Elements_footer s = None ->
      observers (exec setupScrollAnimations s)
      = observers s ++ [mkObserver observerOptions []])
  /\ (forall G, group_targets G s = [] ->
      group_timers G (armed_by setupPageLoadAnimations s) = [])
  /\ (Elements_linkCards s = None -> Elements_socialIcons s = None ->
      setupPageLoadAnimations s = Ok tt s /\ setupHoverEffects s = Ok tt s).
Proof.
  split; [apply returns_init|].
  split; [apply returns_disableAnimations|].
  split; [apply returns_setupPageLoadAnimations|].
  split; [apply returns_setupHoverEffects|].
  split; [apply returns_setupScrollAnimations|].
  split; [intros ev; apply returns_step|].
  split; [|split].
  - intros Hft. unfold exec, setupScrollAnimations, bind, gets, modify.
    cbn [Elements_footer with_observers]. rewrite Hft. reflexivity.
  - intros G HG. rewrite group_timers_setupPageLoadAnimations, HG. reflexivity.
  - intros Hc Hi. split.
    + rewrite setupPageLoadAnimations_eq, Hc, Hi. reflexivity.
    + unfold setupHoverEffects. rewrite bind_gets, Hc.
      cbn [truthy when]. unfold bind at 1. cbn [ret].
      rewrite bind_gets, Hi. reflexivity.
Qed.

(** * Visibility along a run *)

(** ** Computations that move the page along a preorder *)

Section Respects.
Variable R : State -> State -> Prop.
Hypothesis R_refl : forall s, R s s.
Hypothesis R_trans : forall s1 s2 s3, R s1 s2 -> R s2 s3 -> R s1 s3.

Lemma respects_ret {A} (a : A) : respects R (ret a).
Proof. intros s. apply R_refl. Qed.

Lemma respects_gets {A} (f : State -> A) : respects R (gets f).
Proof. intros s. apply R_refl. Qed.

Lemma respects_modify f : (forall s, R s (f s)) -> respects R (modify f).
Proof. intros H s. apply H. Qed.

Lemma respects_bind {A B} (m : M A) (k : A -> M B) :
  respects R m -> (forall a, respects R (k a)) -> respects R (bind m k).
Proof.
  intros Hm Hk s. unfold bind. specialize (Hm s).
  destruct (m s) as [a s'|e s']; cbn [final_state] in *; [|exact Hm].
  eapply R_trans; [exact Hm | apply Hk].
Qed.

Lemma respects_forEach {A} (f : A -> nat -> M unit) l :
  (forall x i, respects R (f x i)) -> forall i, respects R (forEach_from i l f).
Proof.
  intros Hf. induction l as [|x l IH]; intros i; cbn [forEach_from].
  - apply respects_ret.
  - apply respects_bind; [apply Hf | intros _; apply IH].
Qed.

Lemma respects_report {A} (m : M A) :
  (forall f s, R s (with_console f s)) ->
  respects R m -> respects R (fun s => report (m s)).
Proof.
  intros Hc Hm s. specialize (Hm s).
  destruct (m s) as [a s'|e s']; cbn [report final_state] in *; [exact Hm|].
  eapply R_trans; [exact Hm | apply Hc].
Qed.
End Respects.

(** ** Steps that leave visibility alone *)

Lemma quiet_refl s : quiet s s.
Proof. repeat split. exists []. by rewrite app_nil_r. Qed.

Lemma quiet_trans s1 s2 s3 : quiet s1 s2 -> quiet s2 s3 -> quiet s1 s3.
Proof.
  intros (Ht & Ho & ws & Hw & Hf) (Ht' & Ho' & ws' & Hw' & Hf').
  repeat split; [congruence..|].
  exists (ws ++ ws'). split; [by rewrite Hw', Hw, app_assoc | by apply Forall_app].
Qed.

Lemma quiet_same s s' :
  timers s' = timers s -> document s' = document s ->
  style_writes s' = style_writes s -> quiet s s'.
Proof.
  intros Ht Hd Hw. unfold quiet, opacity_view. rewrite Ht, Hd, Hw.
  repeat split. exists []. by rewrite app_nil_r.
Qed.

Lemma quiet_alter (f : Node -> Node) el s :
  (forall n, opacity (style (f n)) = opacity (style n)) ->
  quiet s (with_document (alter f el) s).
Proof.
  intros Hf. unfold quiet, opacity_view.
  cbn [timers document style_writes with_document].
  rewrite fmap_alter_same by done.
  repeat split. exists []. by rewrite app_nil_r.
Qed.

Lemma quiet_set_style el p v :
  p <> Opacity -> p <> Transition -> respects quiet (set_style el p v).
Proof.
  intros Hp Hp' s. unfold quiet, opacity_view, set_style, modify.
  cbn [final_state timers document style_writes with_document with_style_writes].
  rewrite fmap_alter_same by (intros n; by destruct p).
  split; [done|]. split; [done|].
  exists [(el, p, v)]. split; [done|]. by repeat constructor.
Qed.

Ltac quiet_tac :=
  repeat first
    [ match goal with |- forall _, _ => intro end
    | apply (respects_bind quiet quiet_trans)
    | apply (respects_forEach quiet quiet_refl quiet_trans)
    | apply (respects_ret quiet quiet_refl)
    | apply (respects_gets quiet quiet_refl)
    | apply (respects_report quiet quiet_trans);
        [intros ? ?; by apply quiet_same|]
    | apply quiet_set_style; discriminate
    | apply respects_modify; intros ?; apply quiet_alter; reflexivity
    | apply respects_modify; intros ?; by apply quiet_same
    | match goal with
      | |- respects _ (match ?x with _ => _ end) => destruct x
      | |- respects _ (when ?b _) => destruct b; cbn [when]
      end ].

Lemma quiet_requestAnimationFrame cb : respects quiet (requestAnimationFrame cb).
Proof. intros s. by apply quiet_same. Qed.

Lemma quiet_handleCardHover card isEntering :
  respects quiet (handleCardHover card isEntering).
Proof.
  unfold handleCardHover, Element_querySelector. quiet_tac.
  all: try apply quiet_requestAnimationFrame.
Qed.

Lemma quiet_run_listener l el : respects quiet (run_listener l el).
Proof.
  destruct l; cbn [run_listener];
    [apply quiet_handleCardHover | quiet_tac..].
Qed.

Lemma quiet_dispatch type el : respects quiet (dispatch type el).
Proof. unfold dispatch. quiet_tac. apply quiet_run_listener. Qed.

Lemma quiet_fire_frame : respects quiet fire_frame.
Proof. unfold fire_frame, run_frame. quiet_tac. Qed.

Lemma quiet_observer_callback entries : respects quiet (observer_callback entries).
Proof. unfold observer_callback, on_entry. quiet_tac. Qed.

(** ** One event *)

Lemma run_cons ev evs s : run (ev :: evs) s = run evs (next ev s).
Proof. reflexivity. Qed.

Lemma run_app evs1 evs2 : forall s, run (evs1 ++ evs2) s = run evs2 (run evs1 s).
Proof. induction evs1 as [|ev evs1 IH]; intros s; [done | apply IH]. Qed.

Lemma reveal_timer cb : cb = reveal (timer_group cb) (timer_target cb).
Proof. by destruct cb. Qed.

Lemma fire_timer_eq k s :
  fire_timer k s
  = Ok tt (match timers s !! k with
           | Some (_, cb) => fired k cb s
           | None => s
           end).
Proof.
  unfold fire_timer. rewrite bind_gets.
  destruct (timers s !! k) as [[d cb]|]; [|reflexivity].
  unfold bind, modify. rewrite (reveal_timer cb) at 1. by rewrite run_timer_eq.
Qed.

(** An event either leaves visibility alone or is the firing of the due
    timer. *)
Lemma next_cases ev s :
  quiet s (next ev s)
  \/ (ev = TimerFires
      /\ exists k d cb,
           next_timer (timers s) = Some k
           /\ timers s !! k = Some (d, cb)
           /\ due_timer s = Some cb
           /\ next ev s = fired k cb s).
Proof.
  unfold next. destruct ev; cbn [step].
  - rewrite bind_gets. unfold due_timer.
    destruct (next_timer (timers s)) as [k|]; [|left; apply quiet_refl].
    rewrite fire_timer_eq.
    destruct (timers s !! k) as [[d cb]|] eqn:Hk; [|left; apply quiet_refl].
    right. split; [done|]. exists k, d, cb. by rewrite Hk.
  - left. apply (respects_report quiet quiet_trans);
      [intros ? ?; by apply quiet_same | apply quiet_fire_frame].
  - left. apply (respects_report quiet quiet_trans);
      [intros ? ?; by apply quiet_same | apply quiet_dispatch].
  - left. apply (respects_report quiet quiet_trans);
      [intros ? ?; by apply quiet_same|].
    apply (respects_bind quiet quiet_trans);
      [apply (respects_gets quiet quiet_refl)|].
    intros [|]; cbn [when];
      [apply quiet_observer_callback | apply (respects_ret quiet quiet_refl)].
Qed.

(** ** Visibility across one event *)

Lemma Visible_view s el :
  Visible s el
  = match opacity_view s !! el with
    | Some o => visible_text o
    | None => false
    end.
Proof.
  unfold Visible, opacity_view. rewrite list_lookup_fmap.
  by destruct (document s !! el).
Qed.

Lemma Visible_quiet s s' el : quiet s s' -> Visible s' el = Visible s el.
Proof. intros (_ & Ho & _). by rewrite !Visible_view, Ho. Qed.

Lemma document_fired k cb s :
  document (fired k cb s)
  = alter (with_style (revealed_style (timer_group cb))) (timer_target cb)
          (document s).
Proof. reflexivity. Qed.

Lemma Visible_fired k cb s el :
  Visible (fired k cb s) el
  = if decide (timer_target cb = el)
    then match document s !! el with Some _ => true | None => false end
    else Visible s el.
Proof.
  unfold Visible. rewrite document_fired.
  destruct (decide (timer_target cb = el)) as [->|Hne].
  - rewrite list_lookup_alter_eq.
    destruct (document s !! el) as [n|];
      cbn [fmap option_fmap option_map]; [|done].
    by destruct (timer_group cb).
  - by rewrite list_lookup_alter_ne.
Qed.

(** Once Visible, an element stays Visible. *)
Lemma Visible_next ev s el : Visible s el = true -> Visible (next ev s) el = true.
Proof.
  intros Hv. destruct (next_cases ev s) as [Hq|(_ & k & d & cb & _ & _ & _ & ->)].
  - by rewrite (Visible_quiet s _ el Hq).
  - rewrite Visible_fired. destruct (decide (timer_target cb = el)); [|done].
    unfold Visible in Hv. by destruct (document s !! el).
Qed.

Lemma Visible_run evs el : forall s,
  Visible s el = true -> Visible (run evs s) el = true.
Proof.
  induction evs as [|ev evs IH]; intros s Hv; [done|].
  rewrite run_cons. by apply IH, Visible_next.
Qed.

Lemma regressions_zero el evs : forall s, regressions el evs s = 0%nat.
Proof.
  induction evs as [|ev evs IH]; intros s; [done|].
  cbn [regressions]. rewrite IH.
  destruct (Visible s el) eqn:Hv; [|done].
  by rewrite (Visible_next ev s el Hv).
Qed.

Lemma transitions_Visible el evs : forall s,
  Visible s el = true -> transitions el evs s = 0%nat.
Proof.
  induction evs as [|ev evs IH]; intros s Hv; [done|].
  cbn [transitions]. rewrite Hv. cbn [negb andb].
  by apply IH, Visible_next.
Qed.

Lemma transitions_le_1 el evs : forall s, (transitions el evs s <= 1)%nat.
Proof.
  induction evs as [|ev evs IH]; intros s; cbn [transitions]; [lia|].
  destruct (negb (Visible s el) && Visible (next ev s) el) eqn:E.
  - apply andb_true_iff in E as [_ Hv].
    rewrite (transitions_Visible el evs _ Hv). lia.
  - specialize (IH (next ev s)). lia.
Qed.

(** ** Writes to the flag across one event *)

Lemma flag_writes_quiet el ev s :
  quiet s (next ev s) -> flag_writes_during el ev s = 0%nat.
Proof.
  intros (_ & _ & ws & Hw & Hf). unfold flag_writes_during, flag_writes.
  rewrite Hw, drop_app_length. clear Hw.
  induction Hf as [|w ws [Hne _] _ IH]; [done|].
  rewrite filter_cons_False; [exact IH | tauto].
Qed.

Lemma flag_writes_fired el ev k cb s :
  next ev s = fired k cb s ->
  flag_writes_during el ev s = if decide (timer_target cb = el) then 1%nat else 0%nat.
Proof.
  intros Hn. unfold flag_writes_during, flag_writes. rewrite Hn.
  unfold fired. cbn [style_writes with_style_writes with_document with_timers].
  rewrite drop_app_length.
  destruct (decide (timer_target cb = el)) as [He|He].
  - rewrite filter_cons_False by (cbn; intros [_ ?]; discriminate).
    rewrite filter_cons_True by done.
    rewrite filter_cons_False by (cbn; intros [_ ?]; discriminate).
    reflexivity.
  - rewrite !filter_cons_False by (cbn; tauto). reflexivity.
Qed.

Lemma filter_delete {A} (P : A -> Prop) `{!forall x, Decision (P x)}
    (l : list A) k x :
  l !! k = Some x ->
  (length (filter P (delete k l)) + (if decide (P x) then 1 else 0)
   = length (filter P l))%nat.
Proof.
  revert k. induction l as [|y l IH]; intros [|k] Hk; try done.
  - cbn in Hk. injection Hk as ->. cbn [delete list_delete].
    rewrite filter_cons. destruct (decide (P x)); cbn [length]; lia.
  - cbn in Hk. cbn [delete list_delete].
    rewrite !filter_cons. specialize (IH k Hk).
    destruct (decide (P y)); cbn [length];
      [rewrite <- IH; reflexivity | exact IH].
Qed.

Lemma elem_of_delete {A} (l : list A) k x : x ∈ delete k l -> x ∈ l.
Proof.
  revert k. induction l as [|y l IH]; intros [|k] H; try done.
  - cbn [delete list_delete] in H. by right.
  - cbn [delete list_delete] in H.
    apply elem_of_cons in H as [->|H]; [by left | right; by eapply IH].
Qed.

Lemma pending_fired el k d cb s :
  timers s !! k = Some (d, cb) ->
  (length (pending el (fired k cb s))
   + (if decide (timer_target cb = el) then 1 else 0)
   = length (pending el s))%nat.
Proof.
  intros Hk. unfold pending, fired.
  cbn [timers with_style_writes with_document with_timers].
  exact (filter_delete (fun t => timer_target t.2 = el) (timers s) k (d, cb) Hk).
Qed.

(** Every write to the flag of [el] is the single write of a timer that
    reveals [el], and uses that timer up. *)
Lemma flag_writers_account el evs : forall s,
  (length (flag_writers el evs s) + length (pending el (run evs s))
   = length (pending el s))%nat
  /\ Forall (fun w => exists d cb, w = (ByTimer cb, 1%nat)
                                  /\ timer_target cb = el
                                  /\ (d, cb) ∈ timers s)
            (flag_writers el evs s).
Proof.
  induction evs as [|ev evs IH]; intros s; [by split|].
  rewrite run_cons. cbn [flag_writers].
  destruct (IH (next ev s)) as [Hlen Hall].
  destruct (next_cases ev s) as [Hq|(-> & k & d & cb & Hk & Hl & Hdue & Hn)].
  - rewrite (flag_writes_quiet el ev s Hq). cbn [Nat.ltb Nat.leb app].
    destruct Hq as (Ht & _). unfold pending in *.
    split; [by rewrite <- Ht|].
    eapply Forall_impl; [exact Hall|]. cbn beta.
    intros w (d & cb & ? & ? & Hin). exists d, cb. by rewrite <- Ht.
  - rewrite (flag_writes_fired el TimerFires k cb s Hn).
    pose proof (pending_fired el k d cb s Hl) as Hp. rewrite <- Hn in Hp.
    assert (forall t, t ∈ timers (next TimerFires s) -> t ∈ timers s) as Hsub.
    { intros t. rewrite Hn. apply elem_of_delete. }
    assert (Forall (fun w => exists d cb, w = (ByTimer cb, 1%nat)
                                         /\ timer_target cb = el
                                         /\ (d, cb) ∈ timers s)
                   (flag_writers el evs (next TimerFires s))) as Hall'.
    { eapply Forall_impl; [exact Hall|]. cbn beta.
      intros w (d' & cb' & ? & ? & Hin). exists d', cb'. eauto. }
    destruct (decide (timer_target cb = el)) as [He|He].
    + cbn [Nat.ltb Nat.leb app length]. split; [lia|].
      constructor; [|exact Hall'].
      exists d, cb. unfold writer_of. rewrite Hdue.
      repeat split; [done|]. by eapply list_elem_of_lookup_2.
    + cbn [Nat.ltb Nat.leb app]. split; [lia | exact Hall'].
Qed.

(** ** The loaded page *)

Lemma exec_seq {A B} (m : M A) (k : M B) s :
  returns m -> exec (m ;;; k) s = exec k (exec m s).
Proof.
  intros Hm. unfold exec, bind. specialize (Hm s).
  destruct (m s); [reflexivity | discriminate].
Qed.

Ltac preserves_cases :=
  repeat first
    [ match goal with |- forall _, _ => intro end
    | apply preserves_bind
    | apply preserves_forEach
    | apply preserves_ret
    | apply preserves_gets
    | apply preserves_throw
    | apply preserves_modify; intros []; reflexivity
    | match goal with
      | |- preserves _ (match ?x with _ => _ end) => destruct x
      | |- preserves _ (when ?b _) => destruct b; cbn [when]
      end ].

Lemma preserves_core_setupHoverEffects : preserves core setupHoverEffects.
Proof.
  unfold setupHoverEffects, NodeList_forEach, addEventListener, console_log.
  preserves_cases.
Qed.

Lemma preserves_core_setupScrollAnimations : preserves core setupScrollAnimations.
Proof. unfold setupScrollAnimations. preserves_cases. Qed.

Lemma loaded_enabled doc :
  loaded doc true
  = exec setupScrollAnimations
      (exec setupHoverEffects
         (exec setupPageLoadAnimations (cached doc true))).
Proof.
  unfold loaded, cached.
  rewrite exec_seq by apply returns_cacheDOMElements.
  set (s := exec cacheDOMElements (page doc true)).
  assert (init s = (setupPageLoadAnimations ;;; setupHoverEffects ;;;
                    setupScrollAnimations) s) as Hinit by reflexivity.
  unfold exec at 1. rewrite Hinit. fold (exec (setupPageLoadAnimations ;;; setupHoverEffects ;;;
                    setupScrollAnimations) s).
  rewrite exec_seq by apply returns_setupPageLoadAnimations.
  by rewrite exec_seq by apply returns_setupHoverEffects.
Qed.

Lemma core_loaded doc :
  core (loaded doc true) = core (exec setupPageLoadAnimations (cached doc true)).
Proof.
  rewrite loaded_enabled. unfold exec at 1.
  rewrite preserves_core_setupScrollAnimations. unfold exec at 1.
  by rewrite preserves_core_setupHoverEffects.
Qed.

Lemma group_targets_phase G tr mk base per what v s :
  group_targets G (phase tr mk base per what v s) = group_targets G s.
Proof. destruct v as [[|c l]|]; reflexivity. Qed.

Lemma group_targets_setupPageLoadAnimations G s :
  group_targets G (exec setupPageLoadAnimations s) = group_targets G s.
Proof.
  unfold exec. rewrite setupPageLoadAnimations_eq. cbn [final_state].
  unfold icons_phase, cards_phase. by rewrite !group_targets_phase.
Qed.

Lemma group_targets_core G s s' :
  core s' = core s -> group_targets G s' = group_targets G s.
Proof.
  unfold core, group_targets. intros H. injection H as _ _ _ Hc Hi.
  destruct G; congruence.
Qed.

Lemma group_targets_loaded doc G :
  group_targets G (loaded doc true) = select_from 0 [group_class G] doc.
Proof.
  rewrite (group_targets_core G _ _ (core_loaded doc)).
  rewrite group_targets_setupPageLoadAnimations. by destruct G.
Qed.

Lemma group_targets_cached_doc doc enabled G :
  group_targets G (cached doc enabled) = select_from 0 [group_class G] doc.
Proof. by destruct G. Qed.

Lemma timers_loaded doc :
  timers (loaded doc true)
  = stagger_timers RevealCard 800 150 0 (select_from 0 ["link-card"] doc)
    ++ stagger_timers RevealIcon 1400 100 0 (select_from 0 ["social-icon"] doc).
Proof.
  pose proof (core_loaded doc) as H. unfold core in H.
  injection H as _ Ht _ _ _. rewrite Ht, timers_setupPageLoadAnimations.
  rewrite armed_by_setupPageLoadAnimations.
  by rewrite !group_targets_cached_doc.
Qed.

Lemma document_loaded doc :
  document (loaded doc true)
  = document (exec setupPageLoadAnimations (cached doc true)).
Proof. pose proof (core_loaded doc) as H. unfold core in H. by injection H. Qed.

(** ** The timers of one element *)

Lemma timer_target_reveal G c : timer_target (reveal G c) = c.
Proof. by destruct G. Qed.

Lemma pending_stagger G el b p l : forall i,
  NoDup l ->
  length (filter (fun t => timer_target t.2 = el)
                 (stagger_timers (reveal G) b p i l))
  = if decide (el ∈ l) then 1%nat else 0%nat.
Proof.
  induction l as [|c l IH]; intros i Hnd.
  - by rewrite decide_False by apply not_elem_of_nil.
  - apply NoDup_cons in Hnd as [Hc Hnd].
    rewrite stagger_timers_cons, filter_cons. cbn [snd].
    rewrite timer_target_reveal. pose proof (IH (S i) Hnd) as IH'.
    destruct (decide (c = el)) as [->|Hne]; cbn [length]; rewrite IH'.
    + rewrite (decide_False (P := el ∈ l)) by done.
      by rewrite decide_True by (by left).
    + destruct (decide (el ∈ l)) as [Hl|Hl].
      * by rewrite decide_True by (by right).
      * rewrite decide_False; [done|].
        intros [?|?]%elem_of_cons; congruence.
Qed.

Lemma elem_of_stagger_timers t mk b p l : forall i,
  t ∈ stagger_timers mk b p i l -> exists c, c ∈ l /\ t.2 = mk c.
Proof.
  induction l as [|c l IH]; intros i; [by intros ?%elem_of_nil|].
  rewrite stagger_timers_cons. intros [->|H]%elem_of_cons.
  - exists c. split; [by left | done].
  - destruct (IH _ H) as (c' & ? & ?). exists c'. split; [by right | done].
Qed.

Lemma pending_loaded doc el :
  length (pending el (loaded doc true))
  = ((if decide (el ∈ group_targets Card (loaded doc true)) then 1 else 0)
     + (if decide (el ∈ group_targets Icon (loaded doc true)) then 1 else 0))%nat.
Proof.
  rewrite !group_targets_loaded. unfold pending.
  rewrite timers_loaded, filter_app, length_app.
  rewrite (pending_stagger Card), (pending_stagger Icon)
    by apply NoDup_select_from.
  reflexivity.
Qed.

Lemma own_timer_loaded doc G el d cb :
  el ∉ group_targets (other G) (loaded doc true) ->
  (d, cb) ∈ timers (loaded doc true) ->
  timer_target cb = el ->
  cb = reveal G el.
Proof.
  rewrite group_targets_loaded, timers_loaded.
  intros Hother [H|H]%elem_of_app Ht;
    apply elem_of_stagger_timers in H as (c & Hc & Hcb);
    cbn [snd] in Hcb; subst cb; cbn [timer_target] in Ht; subst c;
    destruct G; cbn [other group_class reveal] in *; done.
Qed.

(** ** Visibility at the end of a run *)

Lemma present_next ev s el :
  is_Some (document s !! el) -> is_Some (document (next ev s) !! el).
Proof.
  intros Hs. destruct (next_cases ev s) as [Hq|(_ & k & d & cb & _ & _ & _ & ->)].
  - destruct Hq as (_ & Ho & _).
    apply lookup_lt_is_Some. apply lookup_lt_is_Some in Hs.
    unfold opacity_view in Ho.
    apply (f_equal length) in Ho. rewrite !length_fmap in Ho. lia.
  - rewrite document_fired. apply lookup_lt_is_Some.
    rewrite length_alter. by apply lookup_lt_is_Some.
Qed.

Lemma written_then_Visible el evs : forall s,
  is_Some (document s !! el) ->
  flag_writers el evs s <> [] ->
  Visible (run evs s) el = true.
Proof.
  induction evs as [|ev evs IH]; intros s Hs Hw; [done|].
  rewrite run_cons. cbn [flag_writers] in Hw.
  destruct (next_cases ev s) as [Hq|(-> & k & d & cb & _ & _ & _ & Hn)].
  - rewrite (flag_writes_quiet el ev s Hq) in Hw. cbn [Nat.ltb Nat.leb app] in Hw.
    apply IH; [by apply present_next | done].
  - rewrite (flag_writes_fired el TimerFires k cb s Hn) in Hw.
    destruct (decide (timer_target cb = el)) as [He|He].
    + apply Visible_run. rewrite Hn, Visible_fired, decide_True by done.
      by destruct Hs as [n ->].
    + cbn [Nat.ltb Nat.leb app] in Hw.
      apply IH; [by apply present_next | done].
Qed.

Lemma transitions_reached el evs : forall s,
  Visible s el = false ->
  Visible (run evs s) el = true ->
  transitions el evs s = 1%nat.
Proof.
  induction evs as [|ev evs IH]; intros s Hs He.
  - cbn [run] in He. congruence.
  - rewrite run_cons in He. cbn [transitions]. rewrite Hs. cbn [negb andb].
    destruct (Visible (next ev s) el) eqn:Hn.
    + by rewrite transitions_Visible.
    + by rewrite IH.
Qed.

Lemma Hidden_not_Visible s el : Hidden s el = true -> Visible s el = false.
Proof.
  unfold Hidden, Visible, is_hidden, is_visible, opacity_is, Decimal_is.
  destruct (document s !! el) as [n|]; [|done].
  destruct (css_number (opacity (style n))) as [d|]; [|done].
  intros H0%Z.eqb_eq. apply Z.eqb_neq. lia.
Qed.

(** C7, as the code has it.  A target that belongs to one group only starts
    Hidden, becomes Visible at most once and never goes back, and its
    opacity is written by one callback along any run: its own reveal timer,
    once.  When every timer has fired the write has happened and the target
    is Visible. *)
Theorem C7_one_group_one_write (doc : list Node) (G : Group) (el : nat) :
  el ∈ group_targets G (loaded doc true) ->
  el ∉ group_targets (other G) (loaded doc true) ->
  Hidden (loaded doc true) el = true
  /\ (forall evs,
        (transitions el evs (loaded doc true) <= 1)%nat
        /\ regressions el evs (loaded doc true) = 0%nat)
  /\ (forall evs,
        flag_writers el evs (loaded doc true) = []
        \/ flag_writers el evs (loaded doc true)
           = [(ByTimer (reveal G el), 1%nat)])
  /\ (forall evs,
        timers (run evs (loaded doc true)) = [] ->
        flag_writers el evs (loaded doc true) = [(ByTimer (reveal G el), 1%nat)]
        /\ Visible (run evs (loaded doc true)) el = true
        /\ transitions el evs (loaded doc true) = 1%nat).
Proof.
  intros Hin Hout.
  assert (exists node, doc !! el = Some node) as (node & Hnode).
  { rewrite group_targets_loaded in Hin.
    apply elem_of_select in Hin as (node & ? & _). eauto. }
  assert (document (loaded doc true) !! el
          = Some (with_style (hidden_style
                    (match G with Card => card_hidden | Icon => icon_hidden end))
                    node)) as Hdoc.
  { rewrite document_loaded.
    rewrite (lookup_setupPageLoadAnimations (cached doc true) el node Hnode).
    rewrite !group_targets_cached_doc, <- !group_targets_loaded.
    destruct G; cbn [other] in Hout.
    - by rewrite decide_False, decide_True.
    - by rewrite decide_True. }
  assert (Hidden (loaded doc true) el = true) as Hhid.
  { unfold Hidden. rewrite Hdoc. by destruct G. }
  assert (length (pending el (loaded doc true)) = 1%nat) as Hpend.
  { rewrite pending_loaded. destruct G; cbn [other] in Hout.
    - by rewrite decide_True, decide_False.
    - by rewrite decide_False, decide_True. }
  assert (forall evs,
            flag_writers el evs (loaded doc true) = []
            \/ flag_writers el evs (loaded doc true)
               = [(ByTimer (reveal G el), 1%nat)]) as Hwriters.
  { intros evs.
    destruct (flag_writers_account el evs (loaded doc true)) as [Hlen Hall].
    destruct (flag_writers el evs (loaded doc true)) as [|w [|w' ws]];
      [by left | right | cbn [length] in Hlen; lia].
    apply Forall_cons in Hall as [(d & cb & -> & Ht & Hd) _].
    by rewrite (own_timer_loaded doc G el d cb Hout Hd Ht). }
  split; [exact Hhid|]. split; [|split; [exact Hwriters|]].
  - intros evs. split; [apply transitions_le_1 | apply regressions_zero].
  - intros evs Hdone.
    destruct (flag_writers_account el evs (loaded doc true)) as [Hlen _].
    unfold pending in Hlen at 1. rewrite Hdone, Hpend in Hlen.
    rewrite filter_nil in Hlen. cbn [length] in Hlen.
    assert (flag_writers el evs (loaded doc true)
            = [(ByTimer (reveal G el), 1%nat)]) as Hw.
    { destruct (Hwriters evs) as [He|He]; [|done].
      rewrite He in Hlen. cbn [length] in Hlen. lia. }
    assert (Visible (run evs (loaded doc true)) el = true) as Hv.
    { apply written_then_Visible; [by rewrite Hdoc | by rewrite Hw]. }
    repeat split; [exact Hw | exact Hv |].
    apply transitions_reached; [by apply Hidden_not_Visible | exact Hv].
Qed.

(** C9, as the code has it.  The setup returns with every target already hidden and
    every reveal timer still pending; it never writes [transition], which
    the script only assigns when a timer fires, as the first write of the
    callback.  So the setup leaves the inline transition of every element
    as it found it, and a target that has none when the setup runs is
    hidden with none. *)
Theorem C9_hidden_before_any_reveal (s : State) :
  Elements_cached s ->
  let s' := exec setupPageLoadAnimations s in
  setupPageLoadAnimations s = Ok tt s'
  /\ (forall G el,
        el ∈ group_targets G s ->
        exists node, document s' !! el = Some node
                     /\ is_hidden (style node) = true)
  /\ timers s' = timers s ++ armed_by setupPageLoadAnimations s
  /\ (forall G i el,
        group_targets G s !! i = Some el ->
        (baseDelay G + Z.of_nat i * perItemDelay G, reveal G el) ∈ timers s')
  /\ (forall el node node',
        document s !! el = Some node ->
        document s' !! el = Some node' ->
        transition (style node') = transition (style node))
  /\ (forall G el node,
        el ∈ group_targets G s ->
        document s !! el = Some node ->
        transition (style node) = EmptyString ->
        exists node',
          document s' !! el = Some node'
          /\ is_hidden (style node') = true
          /\ transition (style node') = EmptyString)
  /\ (forall w, w ∈ drop (length (style_writes s)) (style_writes s') ->
                w.1.2 <> Transition)
  /\ (forall G el s0,
        drop (length (style_writes s0))
             (style_writes (exec (run_timer (reveal G el)) s0))
        = [(el, Transition, reveal_transition G);
           (el, Opacity, "1");
           (el, Transform, final_transform G)])
  /\ (forall ev s0 w,
        w ∈ drop (length (style_writes s0)) (style_writes (next ev s0)) ->
        w.1.2 = Transition ->
        ev = TimerFires
        /\ exists cb, due_timer s0 = Some cb /\ w.1.1 = timer_target cb).
Proof.
  intros Hc s'. subst s'. repeat split.
  - unfold exec. by rewrite setupPageLoadAnimations_eq.
  - intros G el Hel.
    destruct (group_targets_in_document s G el Hc Hel) as (node0 & Hnode0).
    rewrite (lookup_setupPageLoadAnimations s el node0 Hnode0).
    eexists. split; [reflexivity|].
    destruct (decide (el ∈ group_targets Icon s)) as [Hi|Hi]; [reflexivity|].
    destruct G; [|done]. by rewrite decide_True.
  - apply timers_setupPageLoadAnimations.
  - intros G i el Hi. rewrite timers_setupPageLoadAnimations.
    apply elem_of_app. right.
    assert (group_timers G (armed_by setupPageLoadAnimations s) !! i
            = Some (baseDelay G + Z.of_nat i * perItemDelay G, reveal G el)) as H.
    { rewrite group_timers_setupPageLoadAnimations.
      unfold stagger_timers. by rewrite list_lookup_imap, Hi. }
    apply list_elem_of_lookup_2 in H. unfold group_timers in H.
    by apply list_elem_of_filter in H as [_ H].
  - intros el node node' Hnode.
    rewrite (lookup_setupPageLoadAnimations s el node Hnode).
    intros [= <-].
    destruct (decide (el ∈ group_targets Icon s)),
      (decide (el ∈ group_targets Card s)); reflexivity.
  - intros G el node Hel Hnode Hnone.
    rewrite (lookup_setupPageLoadAnimations s el node Hnode).
    eexists. split; [reflexivity|].
    destruct (decide (el ∈ group_targets Icon s)) as [Hi|Hi];
      [split; [reflexivity | exact Hnone]|].
    destruct G; [|done]. rewrite decide_True by done.
    split; [reflexivity | exact Hnone].
  - intros w. rewrite style_writes_setupPageLoadAnimations, drop_app_length.
    rewrite elem_of_app. unfold stagger_writes.
    intros [H|H]; apply list_elem_of_In, in_flat_map in H as (c & _ & Hw);
      simpl in Hw; destruct Hw as [<-|[<-|[]]]; discriminate.
  - intros G el s0. unfold exec. rewrite run_timer_eq.
    cbn [final_state style_writes with_style_writes with_document].
    apply drop_app_length.
  - destruct (next_cases ev s0)
      as [(_ & _ & ws & Hws & Hf)|(He & k & d & cb & _ & _ & Hdue & Hn)].
    + rewrite Hws, drop_app_length in H.
      rewrite Forall_forall in Hf. by destruct (Hf w H).
    + exact He.
  - destruct (next_cases ev s0)
      as [(_ & _ & ws & Hws & Hf)|(He & k & d & cb & _ & _ & Hdue & Hn)].
    + rewrite Hws, drop_app_length in H.
      rewrite Forall_forall in Hf. by destruct (Hf w H).
    + exists cb. split; [exact Hdue|].
      rewrite Hn in H. unfold fired in H.
      cbn [style_writes with_style_writes with_document with_timers] in H.
      rewrite drop_app_length in H.
      apply elem_of_cons in H as [->|H]; [reflexivity|].
      apply elem_of_cons in H as [->|H]; [reflexivity|].
      apply list_elem_of_singleton in H as ->. reflexivity.
Qed.

(** * The claims on sample pages *)

Lemma C1_reveal_delay_witness :
  group_timers Card
    (armed_by setupPageLoadAnimations (cached sample_page true)) !! 1%nat
  = Some (950, RevealCard 3)
  /\ delays_of Card (armed_by setupPageLoadAnimations (cached sample_page true))
     = [800; 950; 1100]
  /\ delays_of Icon (armed_by setupPageLoadAnimations (cached sample_page true))
     = [1400; 1500].
Proof.
  destruct (C1_reveal_delay (cached sample_page true)) as (H & _ & _ & Hc & Hi).
  split; [exact (H Card 1%nat 3%nat eq_refl)|].
  split; [exact (Hc eq_refl) | exact (Hi eq_refl)].
Defined.

Lemma C2_disabled_shows_at_once_witness :
  App_animations_enabled (cached sample_page false) = false
  /\ init (cached sample_page false)
     = Ok tt (exec init (cached sample_page false))
  /\ armed_by init (cached sample_page false) = []
  /\ length (group_targets Card (cached sample_page false)
             ++ group_targets Icon (cached sample_page false)) = 5%nat.
Proof.
  destruct (C2_disabled_shows_at_once (cached sample_page false) eq_refl
              (cached_Elements_cached sample_page false)) as (H1 & H2 & _).
  split; [reflexivity|]. split; [exact H1|]. split; [exact H2 | reflexivity].
Defined.

Lemma C3_trigger_idempotent_witness :
  document (loaded sample_page true) !! 7%nat
  = Some (element ["footer"])
  /\ has_class "animated" 7
       (exec (observer_callback [mkEntry true 7])
             (loaded sample_page true)) = true
  /\ observer_callback [mkEntry true 7]
       (exec (observer_callback [mkEntry true 7]) (loaded sample_page true))
     = Ok tt (exec (observer_callback [mkEntry true 7])
                   (loaded sample_page true)).
Proof.
  assert (forall e, e ∈ [mkEntry true 7] -> target e = 7%nat) as Hft
    by (intros e ->%list_elem_of_singleton; reflexivity).
  destruct (C3_trigger_idempotent (loaded sample_page true) 7
              (element ["footer"]) [mkEntry true 7] eq_refl Hft eq_refl)
    as (H1 & _ & H3 & _).
  split; [reflexivity|]. split; [exact H1 | exact (H3 _ Hft)].
Defined.

Lemma C4_stagger_shape_witness :
  length (group_timers Icon
            (armed_by setupPageLoadAnimations (cached sample_page true)))
  = 2%nat
  /\ last (delays_of Icon
             (armed_by setupPageLoadAnimations (cached sample_page true)))
     = Some 1500.
Proof.
  destruct (C4_stagger_shape (cached sample_page true) Icon) as (H1 & _ & _ & H4).
  split; [exact H1 | apply H4; discriminate].
Defined.

Lemma C6_empty_is_noop_witness :
  group_targets Card (page [] true) = []
  /\ group_targets Icon (page [] true) = []
  /\ setupPageLoadAnimations (page [] true) = Ok tt (page [] true).
Proof.
  destruct (C6_empty_is_noop (page [] true)) as (H & _).
  split; [reflexivity|]. split; [reflexivity|]. exact (H eq_refl eq_refl).
Defined.

Lemma C8_total_and_skips_missing_witness :
  Elements_footer (page [] true) = None
  /\ observers (exec setupScrollAnimations (page [] true))
     = [mkObserver observerOptions []]
  /\ setupHoverEffects (page [] true) = Ok tt (page [] true).
Proof.
  destruct (C8_total_and_skips_missing (page [] true))
    as (_ & _ & _ & _ & _ & _ & Hft & _ & Hnull).
  split; [reflexivity|]. split; [exact (Hft eq_refl)|].
  exact (proj2 (Hnull eq_refl eq_refl)).
Defined.

Lemma C10_fallback_only_for_profile_image_witness :
  handleImageError 0 (page [element ["link-card"]] true)
  = Ok tt (page [element ["link-card"]] true)
  /\ exists s',
       handleImageError 0 (page [element ["profile-image"]] true) = Ok tt s'
       /\ document s' !! 0%nat
          = Some (with_src_alt fallback_src fallback_alt
                               (element ["profile-image"])).
Proof.
  split.
  - exact (proj2 (C10_fallback_only_for_profile_image
                    (page [element ["link-card"]] true) 0
                    (element ["link-card"]) eq_refl) eq_refl).
  - destruct (proj1 (C10_fallback_only_for_profile_image
                       (page [element ["profile-image"]] true) 0
                       (element ["profile-image"]) eq_refl) eq_refl)
      as (s' & H1 & H2 & _).
    exists s'. split; [exact H1 | exact H2].
Defined.

(** Membership in a computed list of elements. *)
Ltac in_computed_list :=
  rewrite list_elem_of_In; vm_compute; intuition (auto; discriminate).

Lemma C5_hidden_then_final_witness :
  2%nat ∈ group_targets Card (cached sample_page true)
  /\ (2%nat ∉ group_targets Icon (cached sample_page true))
  /\ exists node,
       document (exec setupPageLoadAnimations (cached sample_page true)) !! 2%nat
       = Some node
       /\ is_hidden (style node) = true
       /\ has_vertical_offset (style node) = true
       /\ scaled_down (style node) = false.
Proof.
  assert (2%nat ∈ group_targets Card (cached sample_page true)) as Hin
    by in_computed_list.
  assert (2%nat ∉ group_targets Icon (cached sample_page true)) as Hout
    by in_computed_list.
  destruct (C5_hidden_then_final (cached sample_page true)
              (cached_Elements_cached sample_page true)) as (_ & _ & H & _).
  destruct (H Card 2%nat Hin) as (node & Hn & _ & Hh & Hv & Hs).
  split; [exact Hin|]. split; [exact Hout|].
  exists node. split; [exact Hn|]. split; [exact Hh|]. split; [exact Hv|].
  rewrite Hs. by apply bool_decide_eq_false_2.
Defined.

(** C5, as stated, fails on an element that is both a card and an icon:
    the icon loop runs after the card loop and overwrites the transform,
    so this target of the card group starts scaled down. *)
Lemma C5_counterexample :
  0%nat ∈ group_targets Card (cached shared_page true)
  /\ (exists node,
        document (exec setupPageLoadAnimations (cached shared_page true))
          !! 0%nat
        = Some node
        /\ transform (style node) = "translateY(20px) scale(0.8)"
        /\ scaled_down (style node) = true)
  /\ ~ (forall doc el node,
          el ∈ group_targets Card (cached doc true) ->
          document (exec setupPageLoadAnimations (cached doc true)) !! el
          = Some node ->
          scaled_down (style node) = false).
Proof.
  assert (0%nat ∈ group_targets Card (cached shared_page true)) as Hin
    by in_computed_list.
  split; [exact Hin|]. split.
  - eexists. split; [reflexivity|]. by split.
  - intros H.
    specialize (H shared_page 0%nat _ Hin eq_refl).
    vm_compute in H. discriminate.
Qed.

(** C7, as stated, fails on an element that is both a card and an icon:
    the card timer and the icon timer each write its opacity, so the flag
    is written twice, by two callbacks. *)
Lemma C7_counterexample :
  0%nat ∈ group_targets Card (loaded shared_page true)
  /\ 0%nat ∈ group_targets Icon (loaded shared_page true)
  /\ flag_writers 0 [TimerFires; TimerFires] (loaded shared_page true)
     = [(ByTimer (RevealCard 0), 1%nat); (ByTimer (RevealIcon 0), 1%nat)]
  /\ ~ (forall doc G el evs,
          el ∈ group_targets G (loaded doc true) ->
          (length (flag_writers el evs (loaded doc true)) <= 1)%nat).
Proof.
  assert (0%nat ∈ group_targets Card (loaded shared_page true)) as Hc
    by in_computed_list.
  assert (0%nat ∈ group_targets Icon (loaded shared_page true)) as Hi
    by in_computed_list.
  assert (flag_writers 0 [TimerFires; TimerFires] (loaded shared_page true)
          = [(ByTimer (RevealCard 0), 1%nat); (ByTimer (RevealIcon 0), 1%nat)])
    as Hw by (vm_compute; reflexivity).
  split; [exact Hc|]. split; [exact Hi|]. split; [exact Hw|].
  intros H. specialize (H shared_page Card 0%nat [TimerFires; TimerFires] Hc).
  rewrite Hw in H. cbn [length] in H. lia.
Qed.

Lemma C7_one_group_one_write_witness :
  2%nat ∈ group_targets Card (loaded sample_page true)
  /\ (2%nat ∉ group_targets Icon (loaded sample_page true))
  /\ Hidden (loaded sample_page true) 2 = true
  /\ flag_writers 2
       [TimerFires; Dispatch mouseenter 2; TimerFires; TimerFires;
        Intersects [mkEntry true 7]; TimerFires; FrameFires; TimerFires]
       (loaded sample_page true)
     = [(ByTimer (RevealCard 2), 1%nat)].
Proof.
  assert (2%nat ∈ group_targets Card (loaded sample_page true)) as Hin
    by in_computed_list.
  assert (2%nat ∉ group_targets Icon (loaded sample_page true)) as Hout
    by in_computed_list.
  destruct (C7_one_group_one_write sample_page Card 2 Hin Hout)
    as (Hh & _ & _ & Hall).
  split; [exact Hin|]. split; [exact Hout|]. split; [exact Hh|].
  refine (proj1 (Hall _ _)). vm_compute. reflexivity.
Defined.

(** C9, as stated, fails on a card that comes with an inline transition:
    the setup hides it and leaves that transition in place, so the hiding
    is applied under a transition of five seconds. *)
Lemma C9_counterexample :
  App_animations_enabled (cached slow_page true) = true
  /\ 0%nat ∈ group_targets Card (cached slow_page true)
  /\ (exists node,
        document (exec setupPageLoadAnimations (cached slow_page true)) !! 0%nat
        = Some node
        /\ is_hidden (style node) = true
        /\ transition (style node) = "all 5s ease"
        /\ css_transition (transition (style node))
           = Some (mkDecimal 5 0, "ease"))
  /\ ~ (forall doc G el node,
          el ∈ group_targets G (cached doc true) ->
          document (exec setupPageLoadAnimations (cached doc true)) !! el
          = Some node ->
          css_transition (transition (style node)) = None).
Proof.
  assert (0%nat ∈ group_targets Card (cached slow_page true)) as Hin
    by in_computed_list.
  split; [reflexivity|]. split; [exact Hin|]. split.
  - eexists. split; [reflexivity|]. by repeat split.
  - intros H.
    specialize (H slow_page Card 0%nat _ Hin eq_refl).
    vm_compute in H. discriminate.
Qed.

Lemma C9_hidden_before_any_reveal_witness :
  setupPageLoadAnimations (cached sample_page true)
  = Ok tt (exec setupPageLoadAnimations (cached sample_page true))
  /\ (1500, RevealIcon 6)
     ∈ timers (exec setupPageLoadAnimations (cached sample_page true))
  /\ 2%nat ∈ group_targets Card (cached sample_page true)
  /\ document (cached sample_page true) !! 2%nat = Some (element ["link-card"])
  /\ exists node',
       document (exec setupPageLoadAnimations (cached sample_page true)) !! 2%nat
       = Some node'
       /\ is_hidden (style node') = true
       /\ transition (style node') = EmptyString.
Proof.
  assert (2%nat ∈ group_targets Card (cached sample_page true)) as Hin
    by in_computed_list.
  destruct (C9_hidden_before_any_reveal (cached sample_page true)
              (cached_Elements_cached sample_page true))
    as (H1 & _ & _ & H4 & _ & H6 & _).
  split; [exact H1|]. split; [exact (H4 Icon 1%nat 6%nat eq_refl)|].
  split; [exact Hin|]. split; [reflexivity|].
  exact (H6 Card 2%nat (element ["link-card"]) Hin eq_refl eq_refl).
Defined.

(** ** More values of the script *)

Example css_transform_card_hidden :
  css_transform "translateY(30px)" = Some [translateY (mkDecimal 30 0)].
Proof. reflexivity. Qed.

Example css_transform_card_final :
  css_transform "translateY(0)" = Some [translateY (mkDecimal 0 0)].
Proof. reflexivity. Qed.

Example css_transform_icon_final :
  css_transform "translateY(0) scale(1)"
  = Some [translateY (mkDecimal 0 0); scale (mkDecimal 1 0)].
Proof. reflexivity. Qed.

Example css_transform_rejects : css_transform "rotate(3deg)" = None.
Proof. reflexivity. Qed.

(** * Further properties of the script *)

(** ** Listener registration *)

Lemma forEach_register {A} (f : A -> nat -> M unit)
    (g : A -> list (nat * EventType * Listener)) l :
  (forall x i s, f x i s = Ok tt (with_listeners (fun ls => ls ++ g x) s)) ->
  forall i s,
    forEach_from i l f s
    = Ok tt (with_listeners (fun ls => ls ++ flat_map g l) s).
Proof.
  intros Hf. induction l as [|x l IH]; intros i s.
  - destruct s. cbn [forEach_from flat_map ret]. state_simpl.
    by rewrite app_nil_r.
  - cbn [forEach_from flat_map]. erewrite bind_Ok by apply Hf.
    rewrite IH. destruct s. state_simpl. by rewrite <- app_assoc.
Qed.

Lemma forEach_card_listeners l i s :
  forEach_from i l (fun card _ =>
      addEventListener card mouseenter (CardHover true) ;;;
      addEventListener card mouseleave (CardHover false) ;;;
      addEventListener card focus (CardHover true) ;;;
      addEventListener card blur (CardHover false)) s
  = Ok tt (with_listeners (fun ls => ls ++ card_listeners l) s).
Proof.
  apply (forEach_register _
           (fun card => [(card, mouseenter, CardHover true);
                         (card, mouseleave, CardHover false);
                         (card, focus, CardHover true);
                         (card, blur, CardHover false)])).
  intros x j [] . unfold bind, addEventListener, modify. state_simpl.
  by rewrite <- !app_assoc.
Qed.

Lemma forEach_icon_listeners l i s :
  forEach_from i l (fun icon _ =>
      addEventListener icon mouseenter IconEnter ;;;
      addEventListener icon mouseleave IconLeave) s
  = Ok tt (with_listeners (fun ls => ls ++ icon_listeners l) s).
Proof.
  apply (forEach_register _
           (fun icon => [(icon, mouseenter, IconEnter);
                         (icon, mouseleave, IconLeave)])).
  intros x j []. unfold bind, addEventListener, modify. state_simpl.
  by rewrite <- !app_assoc.
Qed.

Lemma setupHoverEffects_eq s :
  setupHoverEffects s = Ok tt (hover_registered s).
Proof.
  unfold setupHoverEffects, hover_registered. rewrite bind_gets.
  destruct (Elements_linkCards s) as [cards|] eqn:Hc;
    destruct (Elements_socialIcons s) as [icons|] eqn:Hi;
    cbn [truthy when NodeList_forEach].
  - erewrite bind_Ok; cycle 1.
    { erewrite bind_Ok by apply forEach_card_listeners. reflexivity. }
    rewrite bind_gets.
    cbn [Elements_socialIcons with_console with_listeners]. rewrite Hi.
    cbn [truthy when NodeList_forEach]. apply forEach_icon_listeners.
  - erewrite bind_Ok; cycle 1.
    { erewrite bind_Ok by apply forEach_card_listeners. reflexivity. }
    rewrite bind_gets.
    cbn [Elements_socialIcons with_console with_listeners]. rewrite Hi.
    reflexivity.
  - unfold bind at 1. cbn [ret]. rewrite bind_gets, Hi.
    cbn [truthy when NodeList_forEach]. apply forEach_icon_listeners.
  - unfold bind at 1. cbn [ret]. rewrite bind_gets, Hi. reflexivity.
Qed.

Lemma listeners_hover_registered s :
  listeners (hover_registered s)
  = listeners s ++ card_listeners (group_targets Card s)
                ++ icon_listeners (group_targets Icon s).
Proof.
  unfold hover_registered, group_targets, NodeList_items.
  destruct (Elements_linkCards s) as [cards|];
    destruct (Elements_socialIcons s) as [icons|];
    cbn [default listeners with_listeners with_console
         card_listeners icon_listeners flat_map app];
    rewrite ?app_nil_r, <- ?app_assoc; reflexivity.
Qed.

Lemma console_hover_registered s :
  console (hover_registered s)
  = console s ++ (if truthy (Elements_linkCards s)
                  then ["🎯 Enhanced hover effects setup complete"]
                  else []).
Proof.
  unfold hover_registered.
  destruct (Elements_linkCards s) as [cards|];
    destruct (Elements_socialIcons s) as [icons|];
    cbn [truthy console with_listeners with_console];
    rewrite ?app_nil_r; reflexivity.
Qed.

Lemma length_card_listeners l : length (card_listeners l) = (4 * length l)%nat.
Proof.
  induction l as [|c l IH]; [done|].
  unfold card_listeners in *. cbn [flat_map length app]. rewrite IH. lia.
Qed.

Lemma length_icon_listeners l : length (icon_listeners l) = (2 * length l)%nat.
Proof.
  induction l as [|c l IH]; [done|].
  unfold icon_listeners in *. cbn [flat_map length app]. rewrite IH. lia.
Qed.

(** X1. [setupHoverEffects] registers, in order, four listeners on every
    cached card and then two on every cached icon, and nothing else; it
    logs its completion line whenever the card cache is not [null], also
    when it holds no card; the document, the timers, the style history,
    the frames and the observers are left as they were. *)
Theorem X1_hover_registration (s : State) :
  let s' := exec setupHoverEffects s in
  setupHoverEffects s = Ok tt s'
  /\ listeners s'
     = listeners s ++ card_listeners (group_targets Card s)
                   ++ icon_listeners (group_targets Icon s)
  /\ length (listeners s')
     = (length (listeners s) + 4 * length (group_targets Card s)
        + 2 * length (group_targets Icon s))%nat
  /\ console s'
     = console s ++ (if truthy (Elements_linkCards s)
                     then ["🎯 Enhanced hover effects setup complete"]
                     else [])
  /\ core s' = core s
  /\ frames s' = frames s
  /\ observers s' = observers s.
Proof.
  intros s'. subst s'.
  split; [unfold exec; by rewrite setupHoverEffects_eq|].
  split; [unfold exec; rewrite setupHoverEffects_eq;
          apply listeners_hover_registered|].
  split.
  { unfold exec. rewrite setupHoverEffects_eq. cbn [final_state].
    rewrite listeners_hover_registered, !length_app.
    rewrite length_card_listeners, length_icon_listeners. lia. }
  split; [unfold exec; rewrite setupHoverEffects_eq;
          apply console_hover_registered|].
  split; [apply preserves_core_setupHoverEffects|].
  unfold exec. rewrite setupHoverEffects_eq. cbn [final_state].
  unfold hover_registered.
  destruct (Elements_linkCards s), (Elements_socialIcons s); by split.
Qed.

(** ** Pages on which nothing is armed *)

Lemma next_inert ev s : inert s -> next ev s = s.
Proof.
  intros (Ht & Hf & Hl & Ho). unfold next. destruct ev; cbn [step].
  - rewrite bind_gets, Ht. reflexivity.
  - unfold fire_frame. rewrite bind_gets, Hf. reflexivity.
  - unfold dispatch. rewrite bind_gets, Hl. reflexivity.
  - rewrite bind_gets. unfold watched. rewrite Ho. reflexivity.
Qed.

Lemma run_inert evs s : inert s -> run evs s = s.
Proof.
  intros Hs. induction evs as [|ev evs IH]; [done|].
  by rewrite run_cons, next_inert.
Qed.

Lemma preserves_cacheDOMElements_armed :
  preserves (fun s => (timers s, frames s, listeners s, observers s))
            cacheDOMElements.
Proof.
  unfold cacheDOMElements, querySelectorAll, querySelector, console_log.
  preserves_cases.
Qed.

Lemma loaded_disabled doc :
  loaded doc false = exec disableAnimations (cached doc false).
Proof.
  unfold loaded, cached. rewrite exec_seq by apply returns_cacheDOMElements.
  unfold exec at 1. by rewrite init_disabled.
Qed.

Lemma inert_loaded_disabled doc : inert (loaded doc false).
Proof.
  rewrite loaded_disabled. unfold exec.
  pose proof (preserves_disableAnimations_timers (cached doc false)) as H.
  injection H as Ht Hf Hl Ho. unfold inert. by rewrite Ht, Hf, Hl, Ho.
Qed.

(** X2. With animations disabled nothing is armed at load: no timer, no
    frame, no listener, no observer.  Whatever events follow, the page
    stays exactly as [disableAnimations] left it. *)
Theorem X2_disabled_page_is_inert (doc : list Node) (evs : list Event) :
  timers (loaded doc false) = []
  /\ frames (loaded doc false) = []
  /\ listeners (loaded doc false) = []
  /\ observers (loaded doc false) = []
  /\ run evs (loaded doc false) = loaded doc false.
Proof.
  pose proof (inert_loaded_disabled doc) as Hin.
  destruct Hin as (Ht & Hf & Hl & Ho).
  repeat split; try assumption.
  apply run_inert. by repeat split.
Qed.

(** ** [disableAnimations], element by element *)

Lemma foldl_alter_lookup {A} (f : A -> A) (l : list nat) :
  (forall x, f (f x) = f x) ->
  forall (d : list A) (n : nat),
    foldl (fun d c => alter f c d) d l !! n
    = if decide (n ∈ l) then f <$> d !! n else d !! n.
Proof.
  intros Hf. induction l as [|c l IH]; intros d n.
  - cbn [foldl]. by rewrite decide_False by apply not_elem_of_nil.
  - cbn [foldl]. rewrite IH.
    destruct (decide (n = c)) as [->|Hne].
    + rewrite list_lookup_alter_eq, (decide_True (P := c ∈ c :: l)) by (by left).
      destruct (decide (c ∈ l)); [|done].
      destruct (d !! c); cbn [fmap option_fmap option_map]; by rewrite ?Hf.
    + rewrite list_lookup_alter_ne by done.
      destruct (decide (n ∈ l)) as [Hl|Hl].
      * by rewrite decide_True by (by right).
      * rewrite decide_False; [done|].
        intros [?|?]%elem_of_cons; congruence.
Qed.

Lemma forEach_show_element_document l : forall i s,
  document (final_state (forEach_from i l show_element s))
  = foldl (fun d c => alter (with_style shown_style) c d) (document s) l.
Proof.
  induction l as [|c l IH]; intros i s; [done|].
  cbn [forEach_from foldl]. unfold bind.
  pose proof (returns_show_element c i s) as Hr.
  pose proof (show_element_document c i s) as Hd.
  destruct (show_element c i s) as [[] s1|e s1]; [|discriminate].
  cbn [final_state] in Hd. rewrite IH, Hd, !list_alter_alter_eq.
  reflexivity.
Qed.

Lemma document_disableAnimations s :
  document (exec disableAnimations s)
  = foldl (fun d c => alter (with_style shown_style) c d) (document s)
          (select_from 0 shown_selector (document s)).
Proof.
  unfold exec, disableAnimations, querySelectorAll. rewrite bind_gets.
  unfold bind.
  pose proof (returns_forEach show_element
                (select_from 0 shown_selector (document s))
                returns_show_element 0%nat s) as Hr.
  pose proof (forEach_show_element_document
                (select_from 0 shown_selector (document s)) 0 s) as Hd.
  unfold shown_selector in *.
  destruct (forEach_from 0 _ show_element s) as [[] s1|e s1]; [|discriminate].
  exact Hd.
Qed.

Lemma lookup_disableAnimations s el :
  document (exec disableAnimations s) !! el
  = shown_if_selected <$> document s !! el.
Proof.
  rewrite document_disableAnimations, foldl_alter_lookup by done.
  unfold shown_if_selected.
  destruct (document s !! el) as [node|] eqn:Hnode.
  - cbn [fmap option_fmap option_map].
    destruct (matches shown_selector node) eqn:Hm.
    + rewrite decide_True; [done|]. apply elem_of_select. eauto.
    + rewrite decide_False; [done|].
      intros (node' & Hn' & Hm')%elem_of_select. congruence.
  - by destruct (decide (el ∈ select_from 0 shown_selector (document s))).
Qed.

Lemma shown_if_selected_idem node :
  shown_if_selected (shown_if_selected node) = shown_if_selected node.
Proof.
  unfold shown_if_selected.
  destruct (matches shown_selector node) eqn:Hm; [|by rewrite Hm].
  change (matches shown_selector (with_style shown_style node))
    with (matches shown_selector node).
  by rewrite Hm.
Qed.

(** X3. [disableAnimations] acts on the elements of its five classes and on
    no other: such an element gets opacity 1, [translateY(0)] and animation
    [none], which also resets its animation name to [none], and keeps its
    transition, its classes, its place and its image attributes; any other
    element is left as it was.  Running it again changes nothing in the
    document. *)
Theorem X3_disableAnimations_by_element (s : State) (el : nat) (node : Node) :
  document s !! el = Some node ->
  (exists node',
     document (exec disableAnimations s) !! el = Some node'
     /\ (matches ["link-card"; "social-icon"; "hero-section";
                  "social-section"; "footer"] node = false ->
         node' = node)
     /\ (matches ["link-card"; "social-icon"; "hero-section";
                  "social-section"; "footer"] node = true ->
         opacity (style node') = "1"
         /\ transform (style node') = "translateY(0)"
         /\ animation (style node') = "none"
         /\ animationName (style node') = "none"
         /\ transition (style node') = transition (style node)
         /\ parent node' = parent node
         /\ classList node' = classList node
         /\ src node' = src node
         /\ alt node' = alt node
         /\ requestAnimationFrame_prop node'
            = requestAnimationFrame_prop node))
  /\ length (document (exec disableAnimations s)) = length (document s)
  /\ document (exec disableAnimations (exec disableAnimations s))
     = document (exec disableAnimations s).
Proof.
  intros Hnode. split; [|split].
  - exists (shown_if_selected node).
    split; [by rewrite lookup_disableAnimations, Hnode|].
    unfold shown_if_selected, shown_selector.
    split; intros Hm; rewrite Hm; [reflexivity|].
    cbn. by repeat split.
  - apply Nat.le_antisymm.
    + destruct (decide (length (document (exec disableAnimations s))
                        <= length (document s))%nat) as [H|H]; [exact H|].
      assert (is_Some (document (exec disableAnimations s)
                         !! length (document s))) as [x Hx]
        by (apply lookup_lt_is_Some; lia).
      rewrite lookup_disableAnimations in Hx.
      rewrite (lookup_ge_None_2 (document s)) in Hx by lia. done.
    + destruct (decide (length (document s)
                        <= length (document (exec disableAnimations s)))%nat)
        as [H|H]; [exact H|].
      assert (is_Some (document s
                         !! length (document (exec disableAnimations s))))
        as [x Hx] by (apply lookup_lt_is_Some; lia).
      pose proof (lookup_disableAnimations s
                    (length (document (exec disableAnimations s)))) as Hl.
      rewrite Hx, (lookup_ge_None_2 (document (exec disableAnimations s)))
        in Hl by lia.
      done.
  - apply list_eq. intros n. rewrite !lookup_disableAnimations.
    destruct (document s !! n) as [node0|]; [|done].
    cbn [fmap option_fmap option_map]. by rewrite shown_if_selected_idem.
Qed.

(** ** Events other than timers *)

(** X4. A hover, focus, animation-frame or intersection event never arms
    or cancels a timer, never changes the opacity of any element, and
    never writes [opacity] or [transition]. *)
Theorem X4_only_timers_touch_visibility (ev : Event) (s : State) :
  ev <> TimerFires ->
  timers (next ev s) = timers s
  /\ (forall el,
        (fun n => opacity (style n)) <$> document (next ev s) !! el
        = (fun n => opacity (style n)) <$> document s !! el)
  /\ exists ws,
       style_writes (next ev s) = style_writes s ++ ws
       /\ forall w, w ∈ ws -> w.1.2 <> Opacity /\ w.1.2 <> Transition.
Proof.
  intros Hev. destruct (next_cases ev s) as [(Ht & Ho & ws & Hw & Hf)|(He & _)];
    [|done].
  split; [exact Ht|]. split.
  - intros el. unfold opacity_view in Ho.
    by rewrite <- !list_lookup_fmap, Ho.
  - exists ws. split; [exact Hw|]. by apply Forall_forall.
Qed.

(** ** The pulse of a hovered card *)

Lemma exec_set_style_lookup el p v s :
  document (exec (set_style el p v) s) !! el
  = with_style (style_set p v) <$> document s !! el.
Proof. apply list_lookup_alter_eq. Qed.

Lemma present_respects_quiet {A} (m : M A) s el :
  respects quiet m ->
  is_Some (document s !! el) -> is_Some (document (exec m s) !! el).
Proof.
  intros Hm Hs. destruct (Hm s) as (_ & Ho & _). unfold opacity_view in Ho.
  apply lookup_lt_is_Some. apply lookup_lt_is_Some in Hs.
  apply (f_equal length) in Ho. rewrite !length_fmap in Ho.
  unfold exec. lia.
Qed.

Lemma returns_set_part part v :
  returns (match part with
           | Some a => set_style a Transform v
           | None => ret tt
           end).
Proof. destruct part; [apply returns_set_style | apply returns_ret]. Qed.

Lemma preserves_frames_set_part part v :
  preserves (fun s => (frames s, frame_handles s))
            (match part with
             | Some a => set_style a Transform v
             | None => ret tt
             end).
Proof. destruct part; unfold set_style; preserves_cases. Qed.

Lemma preserves_frames_set_style el p v :
  preserves (fun s => (frames s, frame_handles s)) (set_style el p v).
Proof. unfold set_style. preserves_cases. Qed.

Lemma frames_request card cb s :
  frames (exec (let* h := requestAnimationFrame cb in
                modify (with_document (alter (with_raf_prop h) card))) s)
  = frames s ++ [(S (frame_handles s), cb)].
Proof. reflexivity. Qed.

Lemma frames_handleCardHover_enter card s :
  frames (exec (handleCardHover card true) s)
  = frames s ++ [(S (frame_handles s), PulseCard card)].
Proof.
  unfold handleCardHover, Element_querySelector. unfold exec.
  rewrite !bind_gets. cbv iota.
  set (arrow := head _). set (logo := head _).
  change (final_state ((?m ;;; ?k) s)) with (exec (m ;;; k) s).
  rewrite exec_seq by apply returns_set_part.
  rewrite exec_seq by apply returns_set_part.
  rewrite exec_seq by apply returns_set_style.
  rewrite exec_seq by apply returns_set_style.
  rewrite frames_request.
  set (s4 := exec (set_style card AnimationName "none") _).
  assert ((frames s4, frame_handles s4) = (frames s, frame_handles s)) as H.
  { subst s4. unfold exec.
    rewrite (preserves_frames_set_style card AnimationName "none").
    rewrite (preserves_frames_set_style card AnimationDuration "2s").
    rewrite (preserves_frames_set_part logo "scale(1.15)").
    by rewrite (preserves_frames_set_part arrow "translateX(6px)"). }
  clearbody s4. injection H as Hf Hh. by rewrite Hf, Hh.
Qed.

Lemma preserves_frames_handleCardHover_leave card :
  preserves (fun s => (frames s, frame_handles s)) (handleCardHover card false).
Proof.
  unfold handleCardHover, Element_querySelector.
  apply preserves_bind; [apply preserves_gets|]. intros arrow.
  apply preserves_bind; [apply preserves_gets|]. intros logo. cbv iota.
  apply preserves_bind; [apply preserves_frames_set_part|]. intros _.
  apply preserves_bind; [apply preserves_frames_set_part|]. intros _.
  apply preserves_frames_set_style.
Qed.

Lemma quiet_set_part part v :
  respects quiet (match part with
                  | Some a => set_style a Transform v
                  | None => ret tt
                  end).
Proof.
  destruct part;
    [by apply quiet_set_style | apply (respects_ret quiet quiet_refl)].
Qed.

Lemma animationName_after_leave card s :
  is_Some (document s !! card) ->
  (fun n => animationName (style n))
    <$> document (exec (handleCardHover card false) s) !! card
  = Some "none".
Proof.
  intros Hs. unfold handleCardHover, Element_querySelector. unfold exec.
  rewrite !bind_gets. cbv iota.
  set (arrow := head _). set (logo := head _).
  change (final_state ((?m ;;; ?k) s)) with (exec (m ;;; k) s).
  rewrite exec_seq by apply returns_set_part.
  rewrite exec_seq by apply returns_set_part.
  rewrite exec_set_style_lookup.
  assert (is_Some (document
            (exec (match logo with
                   | Some l => set_style l Transform "scale(1)"
                   | None => ret tt
                   end)
               (exec (match arrow with
                      | Some a => set_style a Transform "translateX(0)"
                      | None => ret tt
                      end) s)) !! card)) as [n Hn].
  { apply present_respects_quiet; [apply quiet_set_part|].
    apply present_respects_quiet; [apply quiet_set_part | exact Hs]. }
  by rewrite Hn.
Qed.

Lemma next_frame_pulse s h card rest :
  frames s = (h, PulseCard card) :: rest ->
  frames (next FrameFires s) = rest
  /\ forall el,
       document (next FrameFires s) !! el
       = if decide (el = card)
         then with_style (style_set AnimationName "subtle-pulse")
                <$> document s !! el
         else document s !! el.
Proof.
  intros Hf. unfold next. cbn [step]. unfold fire_frame.
  rewrite bind_gets, Hf. cbn [head].
  cbv beta iota delta [bind modify run_frame set_style report final_state].
  cbn [frames document with_style_writes with_document with_frames].
  split; [by rewrite Hf|]. intros el.
  destruct (decide (el = card)) as [->|Hne].
  - apply list_lookup_alter_eq.
  - by apply list_lookup_alter_ne.
Qed.

(** X5. Entering a card requests one animation frame that will set the
    card's animation name to [subtle-pulse]; leaving the card resets the
    name to [none] but does not cancel the frame.  So when the pointer
    leaves before the frame runs the card ends up pulsing although it is
    no longer hovered, and when the frame runs first the card ends at
    [none]. *)
Theorem X5_pulse_outlives_leave (s : State) (card : nat) :
  is_Some (document s !! card) ->
  frames s = [] ->
  let entered := exec (handleCardHover card true) s in
  let left_first := next FrameFires (exec (handleCardHover card false) entered) in
  let frame_first := exec (handleCardHover card false) (next FrameFires entered) in
  frames entered = [(S (frame_handles s), PulseCard card)]
  /\ frames (exec (handleCardHover card false) entered) = frames entered
  /\ (fun n => animationName (style n)) <$> document left_first !! card
     = Some "subtle-pulse"
  /\ (fun n => animationName (style n)) <$> document frame_first !! card
     = Some "none"
  /\ frames left_first = []
  /\ frames frame_first = [].
Proof.
  intros Hs Hf entered left_first frame_first.
  assert (frames entered = [(S (frame_handles s), PulseCard card)]) as Hfe.
  { subst entered. by rewrite frames_handleCardHover_enter, Hf. }
  assert (is_Some (document entered !! card)) as He.
  { apply present_respects_quiet; [apply quiet_handleCardHover | exact Hs]. }
  assert (frames (exec (handleCardHover card false) entered) = frames entered)
    as Hfl.
  { pose proof (preserves_frames_handleCardHover_leave card entered) as H.
    by injection H. }
  assert (is_Some (document (exec (handleCardHover card false) entered) !! card))
    as [n Hn].
  { apply present_respects_quiet; [apply quiet_handleCardHover | exact He]. }
  destruct (next_frame_pulse (exec (handleCardHover card false) entered)
              _ card [] (eq_trans Hfl Hfe)) as [Hr1 Hd1].
  destruct (next_frame_pulse entered _ card [] Hfe) as [Hr2 Hd2].
  split; [exact Hfe|]. split; [exact Hfl|]. split; [|split; [|split]].
  - subst left_first. rewrite Hd1, decide_True, Hn by done. reflexivity.
  - subst frame_first. apply animationName_after_leave.
    rewrite Hd2, decide_True by done. destruct He as [m ->]. by eexists.
  - exact Hr1.
  - subst frame_first.
    pose proof (preserves_frames_handleCardHover_leave card
                  (next FrameFires entered)) as H.
    injection H as H _. unfold exec. by rewrite H.
Qed.

(** ** Which timer fires *)

Lemma earliest_from_min (l : list (Z * TimerCallback)) : forall ts pre b d0 cb0,
  l = pre ++ ts ->
  pre !! b = Some (d0, cb0) ->
  (forall t, t ∈ pre -> d0 <= t.1) ->
  exists d cb,
    l !! earliest_from (length pre) (b, d0) ts = Some (d, cb)
    /\ forall t, t ∈ l -> d <= t.1.
Proof.
  induction ts as [|[d c] ts IH]; intros pre b d0 cb0 Hl Hb Hmin.
  - rewrite app_nil_r in Hl. subst l. cbn [earliest_from fst]. eauto.
  - cbn [earliest_from snd].
    assert (l = (pre ++ [(d, c)]) ++ ts) as Hl' by (by rewrite <- app_assoc).
    assert (S (length pre) = length (pre ++ [(d, c)])) as ->
      by (rewrite length_app; cbn [length]; lia).
    destruct (d <? d0) eqn:Hlt.
    + apply Z.ltb_lt in Hlt.
      apply (IH (pre ++ [(d, c)]) (length pre) d c Hl').
      * by rewrite lookup_app_r, Nat.sub_diag by lia.
      * intros t [Ht| ->%list_elem_of_singleton]%elem_of_app;
          [specialize (Hmin t Ht); lia | cbn [fst]; lia].
    + apply Z.ltb_ge in Hlt.
      apply (IH (pre ++ [(d, c)]) b d0 cb0 Hl').
      * rewrite lookup_app_l; [done|]. by eapply lookup_lt_Some.
      * intros t [Ht| ->%list_elem_of_singleton]%elem_of_app;
          [by apply Hmin | cbn [fst]; lia].
Qed.

(** The timer that fires next is pending and due no later than any other. *)
Lemma next_timer_min ts :
  ts <> [] ->
  exists k d cb,
    next_timer ts = Some k /\ ts !! k = Some (d, cb)
    /\ forall t, t ∈ ts -> d <= t.1.
Proof.
  destruct ts as [|[d0 cb0] ts]; [done|]. intros _.
  destruct (earliest_from_min ((d0, cb0) :: ts) ts [(d0, cb0)] 0%nat d0 cb0)
    as (d & cb & Hk & Hmin); [done | done | |].
  - intros t ->%list_elem_of_singleton. cbn [fst]. lia.
  - exists (earliest_from 1 (0%nat, d0) ts), d, cb. by repeat split.
Qed.

Lemma next_TimerFires s :
  (timers s = [] /\ next TimerFires s = s)
  \/ (exists k d cb,
        timers s !! k = Some (d, cb)
        /\ (forall t, t ∈ timers s -> d <= t.1)
        /\ next TimerFires s = fired k cb s).
Proof.
  destruct (timers s) as [|t ts] eqn:Ht.
  - left. split; [done|]. unfold next. cbn [step]. by rewrite bind_gets, Ht.
  - right. destruct (next_timer_min (t :: ts)) as (k & d & cb & Hn & Hk & Hmin);
      [done|].
    exists k, d, cb. split; [exact Hk|].
    split; [exact Hmin|].
    unfold next. cbn [step]. rewrite bind_gets, Ht, Hn, fire_timer_eq, Ht, Hk.
    reflexivity.
Qed.

Lemma next_other ev s : ev <> TimerFires -> quiet s (next ev s).
Proof.
  intros Hev. by destruct (next_cases ev s) as [Hq|(He & _)].
Qed.

Lemma elem_of_delete_inv {A} (l : list A) k x t :
  l !! k = Some x -> t ∈ l -> t = x \/ t ∈ delete k l.
Proof.
  revert k. induction l as [|y l IH]; intros [|k] Hk Ht; try done.
  - cbn in Hk. injection Hk as ->. cbn [delete list_delete].
    apply elem_of_cons in Ht as [->|Ht]; [by left | by right].
  - cbn in Hk. cbn [delete list_delete].
    apply elem_of_cons in Ht as [->|Ht]; [right; by left|].
    destruct (IH k Hk Ht) as [->|H]; [by left | right; by right].
Qed.

(** ** The schedule along a run *)

Lemma in_schedule_next s0 ev s : in_schedule s0 s -> in_schedule s0 (next ev s).
Proof.
  intros (Hsub & Hord & Hvis & Hpres).
  assert (forall t, t ∈ timers s0 ->
                    is_Some (document (next ev s) !! timer_target t.2)) as Hpres'
    by (intros t Ht; by apply present_next, Hpres).
  assert (quiet s (next ev s) -> in_schedule s0 (next ev s)) as Hquiet.
  { intros Hq. pose proof Hq as (Ht & _).
    split; [intros t; rewrite Ht; apply Hsub|].
    split; [intros t t'; rewrite Ht; apply Hord|].
    split; [|exact Hpres'].
    intros t H0 Hn. rewrite (Visible_quiet s _ _ Hq). apply Hvis; [done|].
    by rewrite <- Ht. }
  destruct ev; try (apply Hquiet, next_other; discriminate).
  destruct (next_TimerFires s) as [[_ ->]|(k & d & cb & Hk & Hmin & Hn)];
    [by repeat split|].
  rewrite Hn in Hpres' |- *.
  assert (timers (fired k cb s) = delete k (timers s)) as Ht by reflexivity.
  assert (forall t, t ∉ delete k (timers s) -> t ∈ timers s -> t = (d, cb))
    as Hfired.
  { intros t Hn' Hin.
    by destruct (elem_of_delete_inv (timers s) k (d, cb) t Hk Hin). }
  split; [intros t; rewrite Ht; intros H; by eapply Hsub, elem_of_delete|].
  split; [|split; [|exact Hpres']].
  - intros t t' H0 Hn' Hin'. rewrite Ht in Hn', Hin'.
    apply elem_of_delete in Hin'.
    destruct (decide (t ∈ timers s)) as [Hin|Hout].
    + rewrite (Hfired t Hn' Hin). by apply Hmin.
    + by apply Hord.
  - intros t H0 Hn'. rewrite Ht in Hn'.
    destruct (decide (t ∈ timers s)) as [Hin|Hout].
    + rewrite (Hfired t Hn' Hin). cbn [snd].
      rewrite Visible_fired, decide_True by done.
      destruct (Hpres (d, cb)) as [n Hn0];
        [apply Hsub; by eapply list_elem_of_lookup_2|].
      cbn [snd] in Hn0. by rewrite Hn0.
    + rewrite <- Hn. apply Visible_next. by apply Hvis.
Qed.

Lemma in_schedule_run s0 evs : forall s,
  in_schedule s0 s -> in_schedule s0 (run evs s).
Proof.
  induction evs as [|ev evs IH]; intros s Hs; [done|].
  rewrite run_cons. by apply IH, in_schedule_next.
Qed.

Lemma in_schedule_start s0 :
  (forall t, t ∈ timers s0 -> is_Some (document s0 !! timer_target t.2)) ->
  in_schedule s0 s0.
Proof. intros H. repeat split; try done. Qed.

Lemma timer_of_loaded doc G i el :
  group_targets G (loaded doc true) !! i = Some el ->
  timer_of G i el ∈ timers (loaded doc true).
Proof.
  rewrite group_targets_loaded, timers_loaded. intros Hi.
  assert (timer_of G i el
          ∈ stagger_timers (reveal G) (baseDelay G) (perItemDelay G) 0
              (select_from 0 [group_class G] doc)) as H.
  { apply list_elem_of_lookup. exists i.
    unfold stagger_timers. by rewrite list_lookup_imap, Hi. }
  apply elem_of_app. destruct G; [by left | by right].
Qed.

Lemma present_loaded doc t :
  t ∈ timers (loaded doc true) ->
  is_Some (document (loaded doc true) !! timer_target t.2).
Proof.
  rewrite timers_loaded. intros [H|H]%elem_of_app;
    apply elem_of_stagger_timers in H as (c & Hc & ->);
    apply elem_of_select in Hc as (node & Hnode & _);
    cbn [timer_target]; rewrite document_loaded;
    rewrite (lookup_setupPageLoadAnimations (cached doc true) _ node Hnode);
    by eexists.
Qed.

Lemma in_schedule_loaded doc evs :
  in_schedule (loaded doc true) (run evs (loaded doc true)).
Proof. apply in_schedule_run, in_schedule_start, present_loaded. Qed.

(** X6. Reveals follow capture order within a group: in any run of the
    loaded page, once the timer of the target at index [j] has fired, the
    timer of every target of the same group at a lower index has fired too
    and that target is Visible. *)
Theorem X6_reveal_order (doc : list Node) (evs : list Event) (G : Group)
    (i j ci cj : nat) :
  (i < j)%nat ->
  group_targets G (loaded doc true) !! i = Some ci ->
  group_targets G (loaded doc true) !! j = Some cj ->
  timer_of G j cj ∉ timers (run evs (loaded doc true)) ->
  (timer_of G i ci ∉ timers (run evs (loaded doc true)))
  /\ Visible (run evs (loaded doc true)) ci = true
  /\ Visible (run evs (loaded doc true)) cj = true.
Proof.
  intros Hij Hi Hj Hfired.
  destruct (in_schedule_loaded doc evs) as (_ & Hord & Hvis & _).
  pose proof (timer_of_loaded doc G i ci Hi) as Hti.
  pose proof (timer_of_loaded doc G j cj Hj) as Htj.
  assert (timer_of G i ci ∉ timers (run evs (loaded doc true))) as Hni.
  { intros Hpending. pose proof (Hord _ _ Htj Hfired Hpending) as Hle.
    unfold timer_of in Hle. cbn [fst] in Hle. destruct G; cbn in Hle; lia. }
  split; [exact Hni|]. split.
  - pose proof (Hvis _ Hti Hni) as H. unfold timer_of in H. cbn [snd] in H.
    by rewrite timer_target_reveal in H.
  - pose proof (Hvis _ Htj Hfired) as H. unfold timer_of in H. cbn [snd] in H.
    by rewrite timer_target_reveal in H.
Qed.

(** ** Every target is revealed in the end *)

Lemma length_timers_next ev s :
  length (timers (next ev s))
  = (length (timers s) - timer_firings [ev])%nat.
Proof.
  destruct ev; cbn [timer_firings].
  2-4: match goal with
       | |- context [next ?e ?s0] =>
           destruct (next_other e s0 ltac:(discriminate)) as (Ht & _);
           rewrite Ht; lia
       end.
  destruct (next_TimerFires s) as [[Ht ->]|(k & d & cb & Hk & _ & ->)].
  - rewrite Ht. reflexivity.
  - change (timers (fired k cb s)) with (delete k (timers s)).
    rewrite length_delete by eauto. lia.
Qed.

Lemma timer_firings_cons ev evs :
  timer_firings (ev :: evs) = (timer_firings [ev] + timer_firings evs)%nat.
Proof. by destruct ev. Qed.

Lemma length_timers_run evs : forall s,
  length (timers (run evs s)) = (length (timers s) - timer_firings evs)%nat.
Proof.
  induction evs as [|ev evs IH]; intros s.
  - cbn [run timer_firings]. lia.
  - rewrite run_cons, IH, length_timers_next, (timer_firings_cons ev evs). lia.
Qed.

(** X7. Nothing can stop a reveal: a run of the loaded page that contains
    as many timer firings as there are targets, with any hover, focus,
    frame and intersection events in between, ends with no timer pending
    and every card and icon Visible.  Before that, each timer firing
    takes exactly one timer off the queue. *)
Theorem X7_every_target_is_revealed (doc : list Node) (evs : list Event) :
  length (timers (run evs (loaded doc true)))
  = (length (group_targets Card (loaded doc true))
     + length (group_targets Icon (loaded doc true))
     - timer_firings evs)%nat
  /\ ((length (group_targets Card (loaded doc true))
       + length (group_targets Icon (loaded doc true))
       <= timer_firings evs)%nat ->
      timers (run evs (loaded doc true)) = []
      /\ forall G el,
           el ∈ group_targets G (loaded doc true) ->
           Visible (run evs (loaded doc true)) el = true).
Proof.
  assert (length (timers (loaded doc true))
          = (length (group_targets Card (loaded doc true))
             + length (group_targets Icon (loaded doc true)))%nat) as Hlen.
  { rewrite timers_loaded, !group_targets_loaded, length_app.
    unfold stagger_timers. by rewrite !length_imap. }
  split; [by rewrite length_timers_run, Hlen|].
  intros Hall.
  assert (timers (run evs (loaded doc true)) = []) as Hnil.
  { apply nil_length_inv. rewrite length_timers_run, Hlen. lia. }
  split; [exact Hnil|].
  intros G el (i & Hi)%list_elem_of_lookup.
  destruct (in_schedule_loaded doc evs) as (_ & _ & Hvis & _).
  pose proof (Hvis _ (timer_of_loaded doc G i el Hi)) as H.
  rewrite Hnil in H. unfold timer_of in H. cbn [snd] in H.
  rewrite timer_target_reveal in H. apply H, not_elem_of_nil.
Qed.

(** ** Classes are only ever added *)

Lemma grows_refl s : grows s s.
Proof. by repeat split. Qed.

Lemma grows_trans s1 s2 s3 : grows s1 s2 -> grows s2 s3 -> grows s1 s3.
Proof.
  intros (Ho & Hl & Hc) (Ho' & Hl' & Hc').
  repeat split; [congruence.. | eauto].
Qed.

Lemma grows_structure s s' :
  observers s' = observers s -> structure s' = structure s -> grows s s'.
Proof.
  intros Ho Hs. split; [exact Ho|]. split.
  - apply (f_equal length) in Hs. unfold structure in Hs.
    by rewrite !length_fmap in Hs.
  - intros c el. unfold has_class.
    destruct (document s !! el) as [node|] eqn:Hn; [|done].
    destruct (structure_lookup s s' el node Hs Hn) as (node' & -> & _ & -> & _).
    done.
Qed.

Lemma grows_alter (f : Node -> Node) el s :
  (forall n, (parent (f n), classList (f n), src (f n), alt (f n))
             = (parent n, classList n, src n, alt n)) ->
  grows s (with_document (alter f el) s).
Proof.
  intros Hf. apply grows_structure; [reflexivity|].
  unfold structure. cbn [document with_document]. by apply fmap_alter_same.
Qed.

Lemma grows_set_style el p v : respects grows (set_style el p v).
Proof.
  intros s. apply grows_structure; [reflexivity|].
  apply (preserves_set_style_structure el p v s).
Qed.

Lemma contains_add_token c cl d :
  contains c cl = true -> contains c (add_token cl d) = true.
Proof.
  rewrite !contains_true. unfold add_token.
  destruct (contains d cl); [done|]. intros H. apply elem_of_app. by left.
Qed.

Lemma grows_on_entry e i : respects grows (on_entry e i).
Proof.
  intros s. rewrite on_entry_eq. cbn [final_state].
  destruct (isIntersecting e && negb (has_class "animated" (target e) s));
    [|apply grows_refl].
  split; [reflexivity|]. split.
  - cbn [document with_document]. apply length_alter.
  - intros c el. unfold has_class. cbn [document with_document].
    destruct (decide (el = target e)) as [->|Hne].
    + rewrite list_lookup_alter_eq.
      destruct (document s !! target e) as [n|]; [|done].
      cbn [fmap option_fmap option_map with_classList classList classList_add
           fold_left].
      intros H. by do 2 apply contains_add_token.
    + by rewrite list_lookup_alter_ne.
Qed.

Ltac grows_tac :=
  repeat first
    [ match goal with |- forall _, _ => intro end
    | apply grows_on_entry
    | apply grows_set_style
    | apply (respects_bind grows grows_trans)
    | apply (respects_forEach grows grows_refl grows_trans)
    | apply (respects_ret grows grows_refl)
    | apply (respects_gets grows grows_refl)
    | apply (respects_report grows grows_trans);
        [intros ? ?; by apply grows_structure|]
    | apply respects_modify; intros ?; apply grows_alter; reflexivity
    | apply respects_modify; intros ?; by apply grows_structure
    | match goal with
      | |- respects _ (match ?x with _ => _ end) => destruct x
      | |- respects _ (when ?b _) => destruct b; cbn [when]
      end ].

Lemma grows_requestAnimationFrame cb : respects grows (requestAnimationFrame cb).
Proof. intros s. by apply grows_structure. Qed.

Lemma grows_handleCardHover card isEntering :
  respects grows (handleCardHover card isEntering).
Proof.
  unfold handleCardHover, Element_querySelector. grows_tac.
  all: try apply grows_requestAnimationFrame.
Qed.

Lemma grows_step ev : respects grows (step ev).
Proof.
  destruct ev; cbn [step].
  - unfold fire_timer, run_timer. grows_tac.
  - unfold fire_frame, run_frame. grows_tac.
  - unfold dispatch. grows_tac. destruct (x.2); cbn [run_listener].
    + apply grows_handleCardHover.
    + apply grows_set_style.
    + apply grows_set_style.
  - unfold observer_callback. grows_tac.
Qed.

Lemma grows_next ev s : grows s (next ev s).
Proof.
  unfold next.
  apply (respects_report grows grows_trans);
    [intros ? ?; by apply grows_structure | apply grows_step].
Qed.

Lemma grows_run evs : forall s, grows s (run evs s).
Proof.
  induction evs as [|ev evs IH]; intros s; [apply grows_refl|].
  rewrite run_cons. eapply grows_trans; [apply grows_next | apply IH].
Qed.

(** ** The observer of the footer *)

Lemma observers_setupScrollAnimations s :
  observers (exec setupScrollAnimations s)
  = observers s ++ [mkObserver observerOptions
                      (match Elements_footer s with
                       | Some ft => [ft]
                       | None => []
                       end)].
Proof.
  unfold exec, setupScrollAnimations.
  cbv beta iota delta [bind modify gets final_state].
  cbn [Elements_footer observers with_observers].
  destruct (Elements_footer s) as [ft|]; [|reflexivity].
  cbn [final_state observers with_observers].
  rewrite length_app. cbn [length].
  replace (pred (length (observers s) + 1)) with (length (observers s) + 0)%nat
    by lia.
  by rewrite alter_app_r.
Qed.

Lemma frame_setupPageLoadAnimations s :
  phase_frame (exec setupPageLoadAnimations s) = phase_frame s.
Proof.
  unfold exec. rewrite setupPageLoadAnimations_eq. cbn [final_state].
  unfold icons_phase, cards_phase. by rewrite !phase_frame_phase.
Qed.

Lemma footer_hover_registered s :
  Elements_footer (hover_registered s) = Elements_footer s
  /\ observers (hover_registered s) = observers s.
Proof.
  unfold hover_registered.
  by destruct (Elements_linkCards s), (Elements_socialIcons s).
Qed.

Lemma observers_loaded doc :
  observers (loaded doc true)
  = [mkObserver observerOptions
       (match head (select_from 0 ["footer"] doc) with
        | Some ft => [ft]
        | None => []
        end)].
Proof.
  rewrite loaded_enabled, observers_setupScrollAnimations.
  unfold exec at 1 3. rewrite !setupHoverEffects_eq. cbn [final_state].
  destruct (footer_hover_registered
              (exec setupPageLoadAnimations (cached doc true))) as [-> ->].
  pose proof (frame_setupPageLoadAnimations (cached doc true)) as H.
  unfold phase_frame in H. injection H as _ _ _ Hft _ _ _ Ho.
  by rewrite Hft, Ho.
Qed.

Lemma length_document_loaded doc : length (document (loaded doc true)) = length doc.
Proof.
  rewrite document_loaded, document_setupPageLoadAnimations.
  by rewrite !hide_all_length.
Qed.

Lemma next_Intersects_watched s ft :
  watched s [mkEntry true ft] = true ->
  next (Intersects [mkEntry true ft]) s = trigger ft s.
Proof.
  intros Hw. unfold next. cbn [step]. rewrite bind_gets, Hw. cbn [when].
  pose proof (returns_observer_callback [mkEntry true ft] s) as Hr.
  unfold trigger, exec.
  by destruct (observer_callback [mkEntry true ft] s).
Qed.

(** X8. On the loaded page one observer watches the first element of class
    [footer] and nothing else, and no event changes that.  Once an
    intersecting entry for the footer has been delivered the footer carries
    the class [animated] for the rest of the run; more generally no event
    ever takes a class off an element. *)
Theorem X8_footer_mark_is_permanent (doc : list Node) (ft : nat)
    (evs1 evs2 : list Event) :
  head (select_from 0 ["footer"] doc) = Some ft ->
  observers (run evs1 (loaded doc true)) = [mkObserver observerOptions [ft]]
  /\ has_class "animated" ft
       (run (evs1 ++ Intersects [mkEntry true ft] :: evs2) (loaded doc true))
     = true
  /\ (forall c el,
        has_class c el (loaded doc true) = true ->
        has_class c el (run evs1 (loaded doc true)) = true).
Proof.
  intros Hft.
  destruct (grows_run evs1 (loaded doc true)) as (Ho & Hl & Hc).
  assert (observers (run evs1 (loaded doc true))
          = [mkObserver observerOptions [ft]]) as Hobs
    by (by rewrite Ho, observers_loaded, Hft).
  split; [exact Hobs|]. split; [|exact Hc].
  rewrite run_app, run_cons.
  assert (is_Some (document (run evs1 (loaded doc true)) !! ft)) as [n Hn].
  { apply lookup_lt_is_Some. rewrite Hl, length_document_loaded.
    assert (ft ∈ select_from 0 ["footer"] doc) as Hin.
    { destruct (select_from 0 ["footer"] doc) as [|x l]; [done|].
      cbn in Hft. injection Hft as ->. by left. }
    apply elem_of_select in Hin as (node & Hnode & _).
    by eapply lookup_lt_Some. }
  rewrite next_Intersects_watched.
  - destruct (grows_run evs2 (trigger ft (run evs1 (loaded doc true))))
      as (_ & _ & Hkeep).
    apply Hkeep. by eapply trigger_marks.
  - unfold watched. rewrite Hobs. cbn [existsb forallb targets target].
    rewrite bool_decide_eq_true_2 by (by left). reflexivity.
Qed.

(** ** What hovering a card touches *)

Lemma document_set_part part v s :
  document (exec (match part with
                  | Some a => set_style a Transform v
                  | None => ret tt
                  end) s)
  = restyle part Transform v (document s).
Proof. by destruct part. Qed.

Lemma document_exec_set_style el p v s :
  document (exec (set_style el p v) s)
  = alter (with_style (style_set p v)) el (document s).
Proof. reflexivity. Qed.

Lemma frame_handles_exec_set_style el p v s :
  frame_handles (exec (set_style el p v) s) = frame_handles s.
Proof. reflexivity. Qed.

Lemma frame_handles_set_part part v s :
  frame_handles (exec (match part with
                       | Some a => set_style a Transform v
                       | None => ret tt
                       end) s)
  = frame_handles s.
Proof. by destruct part. Qed.

Lemma document_handleCardHover card isEntering s :
  document (exec (handleCardHover card isEntering) s)
  = hovered card isEntering s.
Proof.
  unfold handleCardHover, Element_querySelector, hovered. unfold exec.
  rewrite !bind_gets. fold (card_part card ["link-arrow"] s).
  fold (card_part card ["logo-container"] s).
  set (arrow := card_part card ["link-arrow"] s).
  set (logo := card_part card ["logo-container"] s).
  destruct isEntering.
  - change (final_state ((?m ;;; ?k) s)) with (exec (m ;;; k) s).
    rewrite exec_seq by apply returns_set_part.
    rewrite exec_seq by apply returns_set_part.
    rewrite exec_seq by apply returns_set_style.
    rewrite exec_seq by apply returns_set_style.
    set (s4 := exec (set_style card AnimationName "none") _).
    assert (frame_handles s4 = frame_handles s) as Hh.
    { subst s4.
      by rewrite !frame_handles_exec_set_style, !frame_handles_set_part. }
    assert (document s4
            = alter (with_style (style_set AnimationName "none")) card
                (alter (with_style (style_set AnimationDuration "2s")) card
                   (restyle logo Transform "scale(1.15)"
                      (restyle arrow Transform "translateX(6px)" (document s)))))
      as Hd.
    { subst s4. by rewrite !document_exec_set_style, !document_set_part. }
    clearbody s4.
    cbv beta iota delta [exec bind requestAnimationFrame modify final_state].
    cbn [document with_document with_frames]. by rewrite Hh, Hd.
  - change (final_state ((?m ;;; ?k) s)) with (exec (m ;;; k) s).
    rewrite exec_seq by apply returns_set_part.
    rewrite exec_seq by apply returns_set_part.
    by rewrite document_exec_set_style, !document_set_part.
Qed.

Lemma descends_lt doc : parents_first doc ->
  forall fuel anc d, descends doc fuel anc d = true -> (anc < d)%nat.
Proof.
  intros Hpf. induction fuel as [|fuel IH]; intros anc d; [done|].
  cbn [descends]. destruct (doc !! d) as [n|] eqn:Hd; [|done].
  destruct (parent n) as [p|] eqn:Hp; [|done].
  pose proof (Hpf d n p Hd Hp) as Hlt.
  intros [->%bool_decide_eq_true|H]%orb_true_iff; [done|].
  specialize (IH anc p H). lia.
Qed.

Lemma card_part_inside card sel s a :
  parents_first (document s) -> card_part card sel s = Some a -> (card < a)%nat.
Proof.
  intros Hpf Ha. unfold card_part in Ha.
  apply head_Some_elem_of in Ha. apply list_elem_of_filter in Ha as [Hd _].
  by eapply descends_lt.
Qed.

Lemma restyle_lookup part p v (doc : list Node) el :
  restyle part p v doc !! el
  = if decide (part = Some el)
    then with_style (style_set p v) <$> doc !! el
    else doc !! el.
Proof.
  destruct part as [a|]; cbn [restyle].
  - destruct (decide (Some a = Some el)) as [[= ->]|Hne].
    + apply list_lookup_alter_eq.
    + apply list_lookup_alter_ne. congruence.
  - by rewrite decide_False.
Qed.

(** X9. Hovering a card restyles its parts only.  With parents before
    children in the document, the arrow and the logo found are strictly
    inside the card; the card keeps its own opacity, transform, transition
    and classes (only its animation fields are written), the logo gets the
    scale and the arrow the shift of the direction, and every other element
    is left as it was. *)
Theorem X9_card_hover_restyles_parts_only (s : State) (card : nat)
    (isEntering : bool) :
  parents_first (document s) ->
  let s' := exec (handleCardHover card isEntering) s in
  let arrow := card_part card ["link-arrow"] s in
  let logo := card_part card ["logo-container"] s in
  (forall a, arrow = Some a \/ logo = Some a -> (card < a)%nat)
  /\ (forall node,
        document s !! card = Some node ->
        exists node',
          document s' !! card = Some node'
          /\ opacity (style node') = opacity (style node)
          /\ transform (style node') = transform (style node)
          /\ transition (style node') = transition (style node)
          /\ animationName (style node') = "none"
          /\ classList node' = classList node)
  /\ (forall l node,
        logo = Some l ->
        document s !! l = Some node ->
        document s' !! l
        = Some (with_style
                  (style_set Transform
                     (if isEntering then "scale(1.15)" else "scale(1)"))
                  node))
  /\ (forall a node,
        arrow = Some a ->
        logo <> Some a ->
        document s !! a = Some node ->
        document s' !! a
        = Some (with_style
                  (style_set Transform
                     (if isEntering then "translateX(6px)" else "translateX(0)"))
                  node))
  /\ (forall el,
        el <> card -> arrow <> Some el -> logo <> Some el ->
        document s' !! el = document s !! el).
Proof.
  intros Hpf s' arrow logo. subst s'.
  assert (forall a, arrow = Some a \/ logo = Some a -> (card < a)%nat) as Hin.
  { intros a [Ha|Ha]; by eapply card_part_inside. }
  assert (arrow <> Some card) as Hac
    by (intros H; pose proof (Hin card (or_introl H)); lia).
  assert (logo <> Some card) as Hlc
    by (intros H; pose proof (Hin card (or_intror H)); lia).
  rewrite document_handleCardHover. unfold hovered.
  fold arrow. fold logo.
  split; [exact Hin|]. split; [|split; [|split]].
  - intros node Hnode. destruct isEntering.
    + rewrite !list_lookup_alter_eq, !restyle_lookup, Hnode.
      rewrite !decide_False by done.
      eexists. split; [reflexivity|]. by repeat split.
    + rewrite !list_lookup_alter_eq, !restyle_lookup, Hnode.
      rewrite !decide_False by done.
      eexists. split; [reflexivity|]. by repeat split.
  - intros l node Hl Hnode.
    assert (card <> l) as Hne by (pose proof (Hin l (or_intror Hl)); lia).
    destruct isEntering;
      rewrite !list_lookup_alter_ne, !restyle_lookup, Hnode by done;
      rewrite (decide_True (P := logo = Some l)) by done;
      by destruct (decide (arrow = Some l)).
  - intros a node Ha Hla Hnode.
    assert (card <> a) as Hne by (pose proof (Hin a (or_introl Ha)); lia).
    destruct isEntering;
      rewrite !list_lookup_alter_ne, !restyle_lookup, Hnode by done;
      rewrite (decide_False (P := logo = Some a)) by done;
      by rewrite decide_True.
  - intros el Hc Ha Hl.
    destruct isEntering;
      rewrite !list_lookup_alter_ne, !restyle_lookup by done;
      by rewrite !decide_False.
Qed.

(** * [Utils] *)

(** ** [throttle] *)

Lemma spaced_snoc {P} (throws : P -> bool) gap (inv : list (Z * P)) t a :
  spaced throws gap inv ->
  (forall tl al, last inv = Some (tl, al) -> throws al = false -> tl + gap <= t) ->
  spaced throws gap (inv ++ [(t, a)]).
Proof.
  induction inv as [|[t1 a1] inv IH]; intros Hs Hl; [by cbn|].
  cbn [app spaced] in *. destruct Hs as [H1 Hs]. split.
  - destruct inv as [|[t2 a2] inv']; cbn [app]; [|exact H1].
    intros Ht. by apply (Hl t1 a1).
  - apply IH; [exact Hs|]. intros tl al Hlast. apply Hl.
    destruct inv; [done | exact Hlast].
Qed.

(** The delay of a timer is never negative, is the argument itself up to
    [2^31 - 1], and is 0 for a negative argument and at [2^31]. *)
Lemma timer_delay_range d :
  0 <= timer_delay d < 2 ^ 31
  /\ (0 <= d < 2 ^ 31 -> timer_delay d = d)
  /\ (d < 0 -> - 2 ^ 31 <= d -> timer_delay d = 0)
  /\ timer_delay (2 ^ 31) = 0.
Proof.
  unfold timer_delay, to_long.
  pose proof (Z.mod_pos_bound (d + 2 ^ 31) (2 ^ 32) eq_refl) as Hb.
  split; [lia|]. split; [|split].
  - intros Hd. rewrite Z.mod_small by lia. lia.
  - intros Hneg Hlow. rewrite Z.mod_small by lia. lia.
  - reflexivity.
Qed.

Lemma run_body_Reenter {A} limit now (args : A) inner catches rest th :
  run_body limit now (Reenter args inner catches rest) th
  = (if (throttle_wrapper limit now args inner th).2 && negb catches
     then throttle_wrapper limit now args inner th
     else run_body limit now rest (throttle_wrapper limit now args inner th).1).
Proof. reflexivity. Qed.

Lemma throttle_call_throttled {A} limit now (args : A) body th :
  inThrottle th = true -> throttle_call limit now args body th = th.
Proof.
  intros H. unfold throttle_call, throttle_wrapper. by rewrite H.
Qed.

Lemma throttle_call_Done {A} limit now (args : A) th :
  inThrottle th = false ->
  throttle_call limit now args Done th
  = mkThrottle true (throttle_timers th ++ [now + timer_delay limit])
               (throttle_invoked th ++ [(now, (args, Done))]).
Proof.
  intros H. unfold throttle_call, throttle_wrapper. by rewrite H.
Qed.

Lemma throttle_call_Raise {A} limit now (args : A) th :
  inThrottle th = false ->
  throttle_call limit now args Raise th
  = mkThrottle false (throttle_timers th)
               (throttle_invoked th ++ [(now, (args, Raise))]).
Proof.
  intros H. unfold throttle_call, throttle_wrapper. rewrite H.
  cbn [run_body fst snd]. unfold applied. by rewrite H.
Qed.

Lemma throttle_inv_step {A} limit t th (ev : UtilEvent (A * Body A)) :
  throttle_inv (timer_delay limit) t th ->
  t <= event_time ev ->
  (forall now p, ev = Call now p -> plain p.2 = true) ->
  throttle_inv (timer_delay limit) (event_time ev) (throttle_step limit th ev).
Proof.
  intros [Hflag Hsp] Hle Hplain.
  destruct ev as [now [args body]|now]; cbn [event_time] in *.
  - cbn [throttle_step fst snd].
    destruct (inThrottle th) eqn:Hth.
    + rewrite throttle_call_throttled by exact Hth.
      split; [by rewrite Hth | exact Hsp].
    + destruct Hflag as [Hnil Hlast].
      assert (spaced not_done (timer_delay limit)
                     (throttle_invoked th ++ [(now, (args, body))])) as Hsp'.
      { apply spaced_snoc; [exact Hsp|].
        intros tl al Hl Ht. specialize (Hlast tl al Hl Ht). lia. }
      specialize (Hplain now (args, body) eq_refl). cbn [snd] in Hplain.
      destruct body as [| |a' inner c rest]; [| |discriminate].
      * rewrite throttle_call_Done by exact Hth.
        split; [|exact Hsp']. cbn [inThrottle throttle_timers throttle_invoked].
        exists now, (args, Done). by rewrite last_snoc, Hnil.
      * rewrite throttle_call_Raise by exact Hth.
        split; [|exact Hsp']. cbn [inThrottle throttle_timers throttle_invoked].
        split; [exact Hnil|].
        intros tl al. rewrite last_snoc. intros [= <- <-]. discriminate.
  - cbn [throttle_step]. unfold throttle_tick.
    destruct (inThrottle th) eqn:Hth.
    + destruct Hflag as (tl & al & Hl & Ht). rewrite Ht.
      destruct (tl + timer_delay limit <=? now) eqn:Hdue.
      * apply Z.leb_le in Hdue. split; [|exact Hsp].
        cbn [inThrottle throttle_timers throttle_invoked].
        split; [done|]. intros tl' al'. rewrite Hl. intros [= <- <-] _. lia.
      * split; [|exact Hsp]. rewrite Hth. eauto.
    + destruct Hflag as [Hnil Hlast]. rewrite Hnil.
      split; [|exact Hsp]. rewrite Hth. split; [exact Hnil|].
      intros tl al Hl Ht. specialize (Hlast tl al Hl Ht). lia.
Qed.

Lemma plain_calls_cons {A} (ev : UtilEvent (A * Body A)) evs :
  plain_calls (ev :: evs) ->
  (forall now p, ev = Call now p -> plain p.2 = true) /\ plain_calls evs.
Proof.
  unfold plain_calls. destruct ev as [now p|now]; cbn [calls_of].
  - intros [Hp Hrest]%Forall_cons. split; [|exact Hrest].
    intros now' p' [= <- <-]. exact Hp.
  - intros Hrest. split; [|exact Hrest]. intros now' p'. discriminate.
Qed.

Lemma throttle_inv_fold {A} limit (evs : list (UtilEvent (A * Body A))) :
  forall t th,
    throttle_inv (timer_delay limit) t th ->
    in_time t evs ->
    plain_calls evs ->
    exists t', throttle_inv (timer_delay limit) t'
                 (fold_left (throttle_step limit) evs th).
Proof.
  induction evs as [|ev evs IH]; intros t th Hinv Htime Hplain; [by exists t|].
  cbn [fold_left]. destruct Htime as [Hle Htime].
  apply plain_calls_cons in Hplain as [Hev Hplain].
  apply (IH (event_time ev)); [|exact Htime | exact Hplain].
  by apply (throttle_inv_step _ t).
Qed.

Lemma throttle_invoked_fold {A} limit (evs : list (UtilEvent (A * Body A))) :
  forall th,
    plain_calls evs ->
    exists extra,
      throttle_invoked (fold_left (throttle_step limit) evs th)
      = throttle_invoked th ++ extra
      /\ extra `sublist_of` calls_of evs.
Proof.
  induction evs as [|ev evs IH]; intros th Hplain.
  - exists []. by rewrite app_nil_r.
  - cbn [fold_left].
    apply plain_calls_cons in Hplain as [Hev Hplain].
    destruct (IH (throttle_step limit th ev) Hplain) as (extra & Heq & Hsub).
    destruct ev as [now [args body]|now]; cbn [calls_of].
    + cbn [throttle_step fst snd] in *.
      specialize (Hev now (args, body) eq_refl). cbn [snd] in Hev.
      destruct (inThrottle th) eqn:Hth.
      * rewrite throttle_call_throttled in Heq |- * by exact Hth.
        exists extra. split; [exact Heq | by apply sublist_cons].
      * exists ((now, (args, body)) :: extra).
        split; [|by apply sublist_skip].
        rewrite Heq.
        destruct body as [| |a' inner c rest]; [| |discriminate].
        -- rewrite throttle_call_Done by exact Hth.
           cbn [throttle_invoked]. by rewrite <- app_assoc.
        -- rewrite throttle_call_Raise by exact Hth.
           cbn [throttle_invoked]. by rewrite <- app_assoc.
    + exists extra. split; [|exact Hsub]. rewrite Heq.
      cbn [throttle_step]. unfold throttle_tick.
      destruct (throttle_timers th) as [|due rest]; [done|].
      by destruct (due <=? now).
Qed.

(** X10. A throttled function applies [func] at once on a call made while
    it is not throttled, and drops every call made while it is.  When
    [func] returns, the function is throttled and one reset is armed, with
    the delay [setTimeout] makes of [limit]; when [func] throws, neither
    happens.  Along any trace in which the clock does not go back and
    [func] does not call the throttled function itself, an application
    that returned is followed by the next application no sooner than that
    delay later, a reset timer is armed exactly while the function is
    throttled, and the applications are a subsequence of the calls.  A
    [func] that does call the throttled function is applied again within
    its own application, since line 51 has not run yet, and two resets
    are armed.  The delay is [limit] itself from 0 up to [2^31 - 1]. *)
Theorem X10_throttle_spacing {A} (limit t0 : Z)
    (evs : list (UtilEvent (A * Body A))) :
  in_time t0 evs ->
  plain_calls evs ->
  let th := throttle_run limit evs in
  spaced not_done (timer_delay limit) (throttle_invoked th)
  /\ length (throttle_timers th) = (if inThrottle th then 1%nat else 0%nat)
  /\ throttle_invoked th `sublist_of` calls_of evs
  /\ (forall now (args : A) (th0 : Throttle A),
        inThrottle th0 = false ->
        throttle_call limit now args Done th0
        = mkThrottle true (throttle_timers th0 ++ [now + timer_delay limit])
                     (throttle_invoked th0 ++ [(now, (args, Done))])
        /\ throttle_call limit now args Raise th0
           = mkThrottle false (throttle_timers th0)
                        (throttle_invoked th0 ++ [(now, (args, Raise))]))
  /\ (forall now (args : A) body (th0 : Throttle A),
        inThrottle th0 = true ->
        throttle_call limit now args body th0 = th0)
  /\ (forall now (args args' : A) catches (th0 : Throttle A),
        inThrottle th0 = false ->
        throttle_call limit now args (Reenter args' Done catches Done) th0
        = mkThrottle true
            (throttle_timers th0
               ++ [now + timer_delay limit; now + timer_delay limit])
            (throttle_invoked th0
               ++ [(now, (args, Reenter args' Done catches Done));
                   (now, (args', Done))]))
  /\ (0 <= limit < 2 ^ 31 -> timer_delay limit = limit).
Proof.
  intros Htime Hplain th. subst th. unfold throttle_run.
  assert (throttle_inv (timer_delay limit) t0 (@throttle A)) as H0.
  { split; [|done]. cbn. split; [done|]. intros tl al. discriminate. }
  destruct (throttle_inv_fold limit evs t0 throttle H0 Htime Hplain)
    as (t' & Hflag & Hsp).
  destruct (throttle_invoked_fold limit evs throttle Hplain)
    as (extra & Heq & Hsub).
  split; [exact Hsp|]. split; [|split; [|split; [|split; [|split]]]].
  - destruct (inThrottle _).
    + destruct Hflag as (tl & al & _ & ->). reflexivity.
    + destruct Hflag as [-> _]. reflexivity.
  - by rewrite Heq.
  - intros now args th0 Hth.
    split; [by apply throttle_call_Done | by apply throttle_call_Raise].
  - intros now args body th0 Hth. by apply throttle_call_throttled.
  - intros now args args' catches th0 Hth.
    unfold throttle_call, throttle_wrapper at 1. rewrite Hth.
    rewrite run_body_Reenter. unfold throttle_wrapper, applied.
    cbn [inThrottle]. rewrite Hth.
    cbn [run_body fst snd andb throttled applied inThrottle throttle_timers
         throttle_invoked].
    unfold throttled. cbn [inThrottle throttle_timers throttle_invoked].
    by rewrite <- !app_assoc.
  - exact (proj1 (proj2 (timer_delay_range limit))).
Qed.

(** ** [debounce] *)

Lemma calls_of_app {A} (evs1 evs2 : list (UtilEvent A)) :
  calls_of (evs1 ++ evs2) = calls_of evs1 ++ calls_of evs2.
Proof.
  induction evs1 as [|[now args|now] evs1 IH]; cbn [app calls_of];
    by rewrite ?IH.
Qed.

Lemma clearTimeout_own {A} id (t : nat * Z * A) :
  t.1.1 = id -> clearTimeout (Some id) [t] = [].
Proof.
  intros H. unfold clearTimeout. by rewrite filter_cons_False, filter_nil by tauto.
Qed.

Lemma debounce_inv_step {A} wait (evs : list (UtilEvent A)) db ev :
  debounce_inv (timer_delay wait) evs db ->
  debounce_inv (timer_delay wait) (evs ++ [ev]) (debounce_step wait db ev).
Proof.
  intros [Hshape Hinv]. unfold debounce_inv. rewrite calls_of_app.
  assert (Forall (fun x => exists t0, (t0, x.2) ∈ calls_of evs ++ calls_of [ev]
                                     /\ t0 + timer_delay wait <= x.1)
                 (debounce_invoked db)) as Hinv'.
  { eapply Forall_impl; [exact Hinv|]. cbn beta.
    intros x (t0 & Hin & Hle). exists t0. split; [|exact Hle].
    apply elem_of_app. by left. }
  destruct ev as [now args|now]; cbn [debounce_step calls_of].
  - unfold debounce_call. cbn [debounce_timers timeout debounce_invoked].
    split; [|exact Hinv'].
    right. exists (S (timer_ids db)), now, args.
    split; [|split; [done|]].
    + destruct Hshape as [->|(id & t0 & a & -> & -> & _)].
      * by destruct (timeout db).
      * by rewrite clearTimeout_own.
    + apply elem_of_app. right. by left.
  - unfold debounce_tick.
    destruct Hshape as [Hnil|(id & t0 & a & Ht & Hid & Hin)].
    + rewrite Hnil. split; [by left | exact Hinv'].
    + rewrite Ht. destruct (t0 + timer_delay wait <=? now) eqn:Hdue.
      * apply Z.leb_le in Hdue.
        cbn [debounce_timers timeout debounce_invoked].
        split; [left; by destruct (timeout db)|].
        apply Forall_app. split; [exact Hinv'|].
        constructor; [|constructor]. exists t0. cbn [fst snd].
        split; [|exact Hdue]. rewrite app_nil_r. exact Hin.
      * split; [|exact Hinv']. right. exists id, t0, a.
        rewrite app_nil_r. by repeat split.
Qed.

Lemma debounce_inv_run {A} wait (evs : list (UtilEvent A)) :
  debounce_inv (timer_delay wait) evs (debounce_run wait evs).
Proof.
  induction evs as [|ev evs IH] using rev_ind.
  - split; [by left | constructor].
  - unfold debounce_run in *. rewrite fold_left_app. cbn [fold_left].
    by apply debounce_inv_step.
Qed.

Lemma debounce_call_last {A} wait now (args : A) db evs :
  debounce_inv (timer_delay wait) evs db ->
  debounce_timers (debounce_call wait now args db)
  = [(S (timer_ids db), now + timer_delay wait, args)]
  /\ timeout (debounce_call wait now args db) = Some (S (timer_ids db))
  /\ debounce_invoked (debounce_call wait now args db) = debounce_invoked db.
Proof.
  intros [Hshape _]. unfold debounce_call.
  cbn [debounce_timers timeout debounce_invoked]. split; [|done].
  destruct Hshape as [->|(id & t0 & a & -> & -> & _)].
  - by destruct (timeout db).
  - by rewrite clearTimeout_own.
Qed.

Lemma debounce_burst_invoked {A} wait (calls : list (Z * A)) : forall evs db,
  debounce_inv (timer_delay wait) evs db ->
  debounce_inv (timer_delay wait) (evs ++ burst calls)
               (fold_left (debounce_step wait) (burst calls) db)
  /\ debounce_invoked (fold_left (debounce_step wait) (burst calls) db)
     = debounce_invoked db.
Proof.
  induction calls as [|[t a] calls IH]; intros evs db Hinv.
  - cbn [burst map fold_left]. by rewrite app_nil_r.
  - cbn [burst map fold_left fst snd].
    pose proof (debounce_inv_step wait evs db (Call t a) Hinv) as Hstep.
    destruct (IH (evs ++ [Call t a]) _ Hstep) as [Hinv' Heq].
    split.
    + rewrite <- app_assoc in Hinv'. exact Hinv'.
    + etrans; [exact Heq | reflexivity].
Qed.

(** X11. A debounced function never has more than one timer armed, and
    only a timer applies [func]: every application comes after a call with
    the same arguments, by the delay [setTimeout] makes of [wait] or more;
    that delay is [wait] itself from 0 up to [2^31 - 1].  In a burst of
    calls each call cancels the timer of the call before it, so after the
    burst the one armed timer carries the arguments of the last call and
    is due that delay after it; when it fires [func] is applied once, with
    those arguments, and nothing remains armed. *)
Theorem X11_debounce_last_call_wins {A} (wait : Z) (evs0 : list (UtilEvent A))
    (calls : list (Z * A)) (t : Z) (a : A) (tfire : Z) :
  let db0 := debounce_run wait evs0 in
  let db1 := fold_left (debounce_step wait) (burst (calls ++ [(t, a)])) db0 in
  (length (debounce_timers db0) <= 1)%nat
  /\ Forall (fun x => exists t0, (t0, x.2) ∈ calls_of evs0
                                 /\ t0 + timer_delay wait <= x.1)
            (debounce_invoked db0)
  /\ (exists id, debounce_timers db1 = [(id, t + timer_delay wait, a)]
                 /\ timeout db1 = Some id)
  /\ debounce_invoked db1 = debounce_invoked db0
  /\ (t + timer_delay wait <= tfire ->
      debounce_invoked (debounce_tick tfire db1)
      = debounce_invoked db0 ++ [(tfire, a)]
      /\ debounce_timers (debounce_tick tfire db1) = [])
  /\ (tfire < t + timer_delay wait -> debounce_tick tfire db1 = db1)
  /\ (0 <= wait < 2 ^ 31 -> timer_delay wait = wait).
Proof.
  intros db0 db1.
  pose proof (debounce_inv_run wait evs0) as Hinv0. fold db0 in Hinv0.
  assert (exists dbm evm,
            debounce_inv (timer_delay wait) evm dbm
            /\ debounce_invoked dbm = debounce_invoked db0
            /\ db1 = debounce_call wait t a dbm) as (dbm & evm & Hm & Him & Hdb1).
  { exists (fold_left (debounce_step wait) (burst calls) db0),
           (evs0 ++ burst calls).
    destruct (debounce_burst_invoked wait calls evs0 db0 Hinv0) as [H1 H2].
    split; [exact H1|]. split; [exact H2|].
    subst db1. unfold burst. by rewrite map_app, fold_left_app. }
  destruct (debounce_call_last wait t a dbm evm Hm) as (Ht & Hid & Hi).
  rewrite <- Hdb1 in Ht, Hid, Hi.
  split.
  { destruct Hinv0 as [[->|(id & t0 & a0 & -> & _)] _]; cbn [length]; lia. }
  split; [by destruct Hinv0|].
  split; [eauto|]. split; [congruence|]. split; [|split].
  - intros Hdue. unfold debounce_tick. rewrite Ht.
    apply Z.leb_le in Hdue. rewrite Hdue.
    cbn [debounce_invoked debounce_timers]. split; [congruence|].
    by destruct (timeout db1).
  - intros Hearly. unfold debounce_tick. rewrite Ht.
    apply Z.leb_gt in Hearly. by rewrite Hearly.
  - exact (proj1 (proj2 (timer_delay_range wait))).
Qed.

(** * [PerformanceMonitor.trackImageLoading] *)

Lemma track_images_from_spec imgs : forall index tr,
  let tr' := track_images_from index imgs tr in
  tracked_page tr' = tracked_page tr
  /\ images tr' = images tr
  /\ totalImages tr' = totalImages tr
  /\ loadedImages tr' = (loadedImages tr + ready imgs)%nat
  /\ exists added,
       image_listeners tr' = image_listeners tr ++ added
       /\ (length added + ready imgs = length imgs)%nat
       /\ forall i, i ∈ added
                    <-> exists img, (index <= i)%nat
                                    /\ imgs !! (i - index)%nat = Some img
                                    /\ already_loaded img = false.
Proof.
  induction imgs as [|img imgs IH]; intros index tr.
  - cbn. repeat split; try lia. exists []. rewrite app_nil_r.
    repeat split; try done.
    + intros H. by apply elem_of_nil in H.
    + intros (img & _ & H & _). done.
  - cbn [track_images_from]. unfold ready in *. rewrite filter_cons.
    destruct (IH (S index) (track_image tr index img))
      as (Hp & Hi & Ht & Hl & added & Ha & Hlen & Hin).
    unfold track_image in *.
    assert (forall i, (S index <= i)%nat ->
              (img :: imgs) !! (i - index)%nat = imgs !! (i - S index)%nat) as Hshift.
    { intros i Hle. by replace (i - index)%nat with (S (i - S index)) by lia. }
    destruct (already_loaded img) eqn:Hready.
    + rewrite decide_True by done. cbn [length] in *.
      cbn [tracked_page images totalImages loadedImages image_listeners] in *.
      split; [exact Hp|]. split; [exact Hi|]. split; [exact Ht|].
      split; [lia|]. exists added. split; [exact Ha|]. split; [lia|].
      intros i. rewrite Hin. split.
      * intros (im & Hle & Him & Hr). exists im.
        split; [lia|]. by rewrite Hshift.
      * intros (im & Hle & Him & Hr).
        destruct (decide (i = index)) as [->|Hne].
        -- rewrite Nat.sub_diag in Him. cbn in Him. congruence.
        -- exists im. split; [lia|]. rewrite <- Hshift by lia. done.
    + rewrite decide_False by congruence.
      cbn [tracked_page images totalImages loadedImages image_listeners] in *.
      split; [exact Hp|]. split; [exact Hi|]. split; [exact Ht|].
      split; [lia|]. exists (index :: added).
      split; [by rewrite Ha, <- app_assoc|]. split; [cbn [length]; lia|].
      intros i. rewrite elem_of_cons, Hin. split.
      * intros [->|(im & Hle & Him & Hr)].
        -- exists img. rewrite Nat.sub_diag. by repeat split.
        -- exists im. split; [lia|]. by rewrite Hshift.
      * intros (im & Hle & Him & Hr).
        destruct (decide (i = index)) as [->|Hne]; [by left|right].
        exists im. split; [lia|]. rewrite <- Hshift by lia. done.
Qed.

Lemma document_console_log msg s :
  document (exec (console_log msg) s) = document s.
Proof. reflexivity. Qed.

Lemma console_console_log msg s :
  console (exec (console_log msg) s) = console s ++ [msg].
Proof. reflexivity. Qed.

Lemma ready_le imgs : (ready imgs <= length imgs)%nat.
Proof. unfold ready. apply length_filter. Qed.

Lemma trackImageLoading_setup (imgs : list Image) (s : State) :
  let tr := trackImageLoading imgs s in
  images tr = imgs
  /\ totalImages tr = length imgs
  /\ loadedImages tr = (if (length imgs =? 0)%nat then 0%nat else ready imgs)
  /\ (length (image_listeners tr) + ready imgs = length imgs)%nat
  /\ (forall i, i ∈ image_listeners tr
                <-> exists img, imgs !! i = Some img
                                /\ already_loaded img = false)
  /\ document (tracked_page tr) = document s
  /\ console (tracked_page tr)
     = console s
       ++ (if (length imgs =? 0)%nat then ["📷 No images to track"]
           else if (ready imgs =? length imgs)%nat
                then ["✅ All images already loaded"]
                else []).
Proof.
  intros tr. subst tr. unfold trackImageLoading. cbn [totalImages].
  destruct imgs as [|img imgs].
  - cbn. repeat split; try done.
    + intros H. by apply elem_of_nil in H.
    + intros (img & H & _). done.
  - change (length (img :: imgs) =? 0)%nat with false. cbv iota.
    destruct (track_images_from_spec (img :: imgs) 0
                (mkImageTracking s (img :: imgs) 0 (length (img :: imgs)) []))
      as (Hp & Hi & Ht & Hl & added & Ha & Hlen & Hin).
    cbn [tracked_page images totalImages loadedImages image_listeners app
         Nat.add] in Hp, Hi, Ht, Hl, Ha.
    rewrite Ht, Hl.
    assert (forall i, i ∈ added
                      <-> exists im, (img :: imgs) !! i = Some im
                                     /\ already_loaded im = false) as Hin'.
    { intros i. rewrite Hin, Nat.sub_0_r.
      split; intros (im & H); exists im; intuition lia. }
    destruct (ready (img :: imgs) =? length (img :: imgs))%nat eqn:Hall;
      cbn [log_line tracked_page images totalImages loadedImages
           image_listeners];
      rewrite ?Ht, ?Hl, ?Ha, ?Hp, ?Hi, ?app_nil_r,
        ?document_console_log, ?console_console_log;
      (split; [reflexivity|]); (split; [reflexivity|]);
      (split; [reflexivity|]);
      (split; [exact Hlen|]); (split; [exact Hin'|]);
      split; reflexivity.
Qed.

(** X12. [trackImageLoading] counts the images that are complete with a
    non-zero height and gives the two listeners to exactly the others.  It
    logs [No images to track] when there is no image, [All images already
    loaded] when there are images and all of them were counted, and
    nothing otherwise; the document is not touched. *)
Theorem X12_image_tracking_setup (imgs : list Image) (s : State) :
  let tr := trackImageLoading imgs s in
  totalImages tr = length imgs
  /\ loadedImages tr = (if (length imgs =? 0)%nat then 0%nat else ready imgs)
  /\ (length (image_listeners tr) + ready imgs = length imgs)%nat
  /\ (forall i, i ∈ image_listeners tr
                <-> exists img, imgs !! i = Some img
                                /\ already_loaded img = false)
  /\ document (tracked_page tr) = document s
  /\ console (tracked_page tr)
     = console s
       ++ (if (length imgs =? 0)%nat then ["📷 No images to track"]
           else if (ready imgs =? length imgs)%nat
                then ["✅ All images already loaded"]
                else []).
Proof. intros tr. apply (trackImageLoading_setup imgs s). Qed.

Lemma completion_lines_console_log msg s :
  completion_lines (exec (console_log msg) s)
  = (completion_lines s + (if completion_line msg then 1 else 0))%nat.
Proof.
  unfold completion_lines. rewrite console_console_log, filter_app, length_app.
  f_equal. rewrite filter_cons, filter_nil.
  destruct (completion_line msg) eqn:E.
  - by rewrite decide_True.
  - by rewrite decide_False by congruence.
Qed.

Lemma console_handleImageError el s :
  console (exec (handleImageError el) s)
  = console s ++ (if has_class "profile-image" el s
                  then ["🔄 Profile image fallback applied"] else []).
Proof.
  unfold exec, handleImageError. rewrite bind_gets.
  destruct (has_class "profile-image" el s).
  - reflexivity.
  - cbn. by rewrite app_nil_r.
Qed.

Lemma completion_lines_handleImageError el s :
  completion_lines (exec (handleImageError el) s) = completion_lines s.
Proof.
  unfold completion_lines. rewrite console_handleImageError, filter_app, length_app.
  destruct (has_class "profile-image" el s).
  - rewrite filter_cons, decide_False, filter_nil
      by (intros H; vm_compute in H; discriminate).
    cbn [length]. lia.
  - rewrite filter_nil. cbn [length]. lia.
Qed.

Lemma completion_line_loaded rest :
  completion_line ("📸 Image " +:+ rest) = false.
Proof.
  unfold completion_line.
  rewrite !bool_decide_eq_false_2; [reflexivity|cbn; discriminate..].
Qed.

Lemma completion_line_failed rest :
  completion_line ("❌ Failed to load image: " +:+ rest) = false.
Proof.
  unfold completion_line.
  rewrite !bool_decide_eq_false_2; [reflexivity|cbn; discriminate..].
Qed.

Lemma completion_line_all_loaded :
  completion_line "✅ All images loaded successfully" = true.
Proof. vm_compute. reflexivity. Qed.

Lemma completion_line_all_processed :
  completion_line "⚠️ All images processed (some may have failed)" = true.
Proof. vm_compute. reflexivity. Qed.

(** One delivered event: the counter goes up by one, whichever image the
    event is for, and a completion line is written exactly when the counter
    reaches the total. *)
Lemma image_step_delivered tr ev :
  image_index ev ∈ image_listeners tr ->
  is_Some (images tr !! image_index ev) ->
  let tr' := image_step tr ev in
  images tr' = images tr
  /\ totalImages tr' = totalImages tr
  /\ image_listeners tr' = image_listeners tr
  /\ loadedImages tr' = S (loadedImages tr)
  /\ completion_lines (tracked_page tr')
     = (completion_lines (tracked_page tr)
        + (if (S (loadedImages tr) =? totalImages tr)%nat then 1 else 0))%nat.
Proof.
  intros Hin [img Himg] tr'. subst tr'. unfold image_step.
  rewrite bool_decide_eq_true_2 by exact Hin.
  destruct ev as [i|i]; cbn [image_index] in Himg.
  - unfold on_image_load. cbn [log_line tracked_page images totalImages
                               loadedImages image_listeners].
    destruct (S (loadedImages tr) =? totalImages tr)%nat;
      cbn [log_line tracked_page images totalImages loadedImages image_listeners];
      rewrite !completion_lines_console_log, completion_line_loaded,
        ?completion_line_all_loaded;
      repeat (split; [reflexivity|]); lia.
  - rewrite Himg. unfold on_image_error.
    cbn [log_line tracked_page images totalImages loadedImages image_listeners].
    destruct (S (loadedImages tr) =? totalImages tr)%nat;
      cbn [log_line tracked_page images totalImages loadedImages image_listeners];
      rewrite ?completion_lines_console_log, completion_lines_handleImageError,
        completion_lines_console_log, completion_line_failed,
        ?completion_line_all_processed;
      repeat (split; [reflexivity|]); lia.
Qed.

Lemma image_step_undelivered tr ev :
  image_index ev ∉ image_listeners tr -> image_step tr ev = tr.
Proof.
  intros Hin. unfold image_step. by rewrite bool_decide_eq_false_2.
Qed.

Lemma image_run_spec evs : forall tr,
  (forall i, i ∈ image_listeners tr -> is_Some (images tr !! i)) ->
  let tr' := image_run evs tr in
  let n := length (delivered tr evs) in
  images tr' = images tr
  /\ totalImages tr' = totalImages tr
  /\ image_listeners tr' = image_listeners tr
  /\ loadedImages tr' = (loadedImages tr + n)%nat
  /\ completion_lines (tracked_page tr')
     = (completion_lines (tracked_page tr)
        + (if (loadedImages tr <? totalImages tr)%nat
              && (totalImages tr <=? loadedImages tr + n)%nat
           then 1 else 0))%nat.
Proof.
  induction evs as [|ev evs IH]; intros tr Hvalid.
  - cbn zeta. unfold image_run, delivered. rewrite filter_nil.
    cbn [fold_left length]. rewrite Nat.add_0_r.
    repeat (split; [reflexivity|]).
    destruct (Nat.ltb_spec (loadedImages tr) (totalImages tr));
      destruct (Nat.leb_spec (totalImages tr) (loadedImages tr));
      cbn [andb]; lia.
  - cbn zeta. unfold image_run, delivered. cbn [fold_left].
    rewrite filter_cons.
    fold (image_run evs (image_step tr ev)). fold (delivered tr evs).
    destruct (decide (image_index ev ∈ image_listeners tr)) as [Hin|Hout].
    + destruct (image_step_delivered tr ev Hin (Hvalid _ Hin))
        as (Hi & Ht & Hl & Hn & Hc).
      assert (delivered (image_step tr ev) evs = delivered tr evs) as Hd.
      { unfold delivered. by rewrite Hl. }
      destruct (IH (image_step tr ev)) as (Hi' & Ht' & Hl' & Hn' & Hc').
      { intros i. rewrite Hl, Hi. apply Hvalid. }
      rewrite Hd in Hn', Hc'.
      rewrite Hi', Ht', Hl', Hn', Hc', Hi, Ht, Hl, Hn, Hc.
      cbn [length].
      repeat (split; [reflexivity|]). split; [lia|].
      set (l := loadedImages tr). set (t := totalImages tr).
      set (n := length (delivered tr evs)).
      destruct (Nat.eqb_spec (S l) t); destruct (Nat.ltb_spec (S l) t);
        destruct (Nat.leb_spec t (S l + n)); destruct (Nat.ltb_spec l t);
        destruct (Nat.leb_spec t (l + S n)); cbn [andb]; lia.
    + rewrite image_step_undelivered by exact Hout. by apply IH.
Qed.

(** X13. After [trackImageLoading], every [load] or [error] event at an
    image that got listeners raises the counter by one and changes neither
    the total nor the listeners; events at other images do nothing.  So the
    counter counts events, not images.  Among the three lines that
    announce that all images are done, exactly one is written when there
    are images and the counted images plus the delivered events reach the
    total, none before; and when the event that completes the count is a
    [load], the last line of the console is [All images loaded
    successfully]. *)
Theorem X13_image_events_are_counted (imgs : list Image) (s : State)
    (evs : list ImageEvent) :
  let tr0 := trackImageLoading imgs s in
  let tr := image_run evs tr0 in
  let n := length (delivered tr0 evs) in
  loadedImages tr = (loadedImages tr0 + n)%nat
  /\ totalImages tr = length imgs
  /\ image_listeners tr = image_listeners tr0
  /\ completion_lines (tracked_page tr)
     = (completion_lines s
        + (if (0 <? length imgs)%nat && (length imgs <=? ready imgs + n)%nat
           then 1 else 0))%nat
  /\ (forall pre i,
        evs = pre ++ [ImageLoad i] ->
        i ∈ image_listeners tr0 ->
        (ready imgs + length (delivered tr0 pre) + 1 = length imgs)%nat ->
        last (console (tracked_page tr))
        = Some "✅ All images loaded successfully").
Proof.
  intros tr0 tr n.
  destruct (trackImageLoading_setup imgs s)
    as (Hi0 & Ht0 & Hl0 & Hlen0 & Hin0 & Hd0 & Hc0).
  fold tr0 in Hi0, Ht0, Hl0, Hlen0, Hin0, Hd0, Hc0.
  assert (forall i, i ∈ image_listeners tr0 -> is_Some (images tr0 !! i))
    as Hvalid.
  { intros i Hi. apply Hin0 in Hi as (img & Himg & _). rewrite Hi0. eauto. }
  destruct (image_run_spec evs tr0 Hvalid) as (Hi & Ht & Hl & Hn & Hc).
  fold tr in Hi, Ht, Hl, Hn, Hc. fold n in Hn, Hc.
  split; [exact Hn|]. split; [congruence|]. split; [exact Hl|].
  pose proof (ready_le imgs) as Hle.
  split.
  - rewrite Hc. unfold completion_lines at 1. rewrite Hc0, filter_app, length_app.
    fold (completion_lines s). rewrite Ht0, Hl0.
    destruct (Nat.eqb_spec (length imgs) 0) as [Hz|Hnz].
    + rewrite filter_cons, decide_False, filter_nil
        by (intros H; vm_compute in H; discriminate).
      destruct (Nat.ltb_spec 0 (length imgs)); [lia|].
      cbn [andb length]. lia.
    + destruct (Nat.eqb_spec (ready imgs) (length imgs));
        [rewrite filter_cons, decide_True, filter_nil
           by (vm_compute; reflexivity)
        |rewrite filter_nil];
        destruct (Nat.ltb_spec (ready imgs) (length imgs));
        destruct (Nat.leb_spec (length imgs) (ready imgs + n));
        destruct (Nat.ltb_spec 0 (length imgs)); cbn [andb length]; lia.
  - intros pre i -> Hin Hsum. subst tr. unfold image_run.
    rewrite fold_left_app. cbn [fold_left]. fold (image_run pre tr0).
    destruct (image_run_spec pre tr0 Hvalid) as (Hi' & Ht' & Hl' & Hn' & _).
    unfold image_step. cbn [image_index].
    rewrite bool_decide_eq_true_2 by (by rewrite Hl').
    unfold on_image_load.
    cbn [log_line tracked_page images totalImages loadedImages image_listeners].
    rewrite Ht', Hn', Ht0, Hl0.
    destruct (Nat.eqb_spec (length imgs) 0) as [Hz|Hnz]; [lia|].
    rewrite (proj2 (Nat.eqb_eq _ _)) by lia.
    cbn [log_line tracked_page]. rewrite console_console_log.
    apply last_snoc.
Qed.

(** * The further properties on sample data *)

Lemma X3_disableAnimations_by_element_witness :
  document (page spinning_page false) !! 0%nat
  = Some (mkNode None ["link-card"] (mkStyle "0" "" "" "" "3s" "spin")
                 "" "" None)
  /\ exists node',
       document (exec disableAnimations (page spinning_page false)) !! 0%nat
       = Some node'
       /\ opacity (style node') = "1"
       /\ animationName (style node') = "none".
Proof.
  destruct (X3_disableAnimations_by_element (page spinning_page false) 0 _
              eq_refl) as ((node' & Hn & _ & H) & _).
  destruct (H eq_refl) as (H1 & _ & _ & H4 & _).
  split; [reflexivity|]. exists node'.
  split; [exact Hn|]. split; [exact H1 | exact H4].
Defined.

Lemma X4_only_timers_touch_visibility_witness :
  Dispatch mouseenter 2 <> TimerFires
  /\ timers (next (Dispatch mouseenter 2) (loaded sample_page true))
     = timers (loaded sample_page true).
Proof.
  assert (Dispatch mouseenter 2 <> TimerFires) as Hne by discriminate.
  split; [exact Hne|].
  exact (proj1 (X4_only_timers_touch_visibility
                  (Dispatch mouseenter 2) (loaded sample_page true) Hne)).
Defined.

Lemma X5_pulse_outlives_leave_witness :
  is_Some (document (page sample_page true) !! 2%nat)
  /\ frames (page sample_page true) = []
  /\ (fun n => animationName (style n))
       <$> document
             (next FrameFires
                (exec (handleCardHover 2 false)
                   (exec (handleCardHover 2 true) (page sample_page true))))
           !! 2%nat
     = Some "subtle-pulse".
Proof.
  assert (is_Some (document (page sample_page true) !! 2%nat)) as Hsome
    by (eexists; reflexivity).
  pose proof (X5_pulse_outlives_leave (page sample_page true) 2 Hsome eq_refl)
    as H.
  cbv zeta in H. destruct H as (_ & _ & H & _).
  split; [exact Hsome|]. split; [reflexivity | exact H].
Defined.

Lemma X6_reveal_order_witness :
  (timer_of Card 1 3 ∉ timers (run [TimerFires; TimerFires]
                                   (loaded sample_page true)))
  /\ (timer_of Card 0 2 ∉ timers (run [TimerFires; TimerFires]
                                      (loaded sample_page true)))
  /\ Visible (run [TimerFires; TimerFires] (loaded sample_page true)) 2 = true.
Proof.
  assert (timer_of Card 1 3 ∉ timers (run [TimerFires; TimerFires]
                                          (loaded sample_page true))) as Hout
    by in_computed_list.
  assert (0 < 1)%nat as Hlt by lia.
  destruct (X6_reveal_order sample_page [TimerFires; TimerFires] Card
              0 1 2 3 Hlt eq_refl eq_refl Hout) as (H1 & H2 & _).
  split; [exact Hout|]. split; [exact H1 | exact H2].
Defined.

Lemma X7_every_target_is_revealed_witness :
  (length (group_targets Card (loaded sample_page true))
   + length (group_targets Icon (loaded sample_page true))
   <= timer_firings [TimerFires; TimerFires; FrameFires; TimerFires;
                     TimerFires; TimerFires])%nat
  /\ timers (run [TimerFires; TimerFires; FrameFires; TimerFires;
                  TimerFires; TimerFires] (loaded sample_page true)) = []
  /\ Visible (run [TimerFires; TimerFires; FrameFires; TimerFires;
                   TimerFires; TimerFires] (loaded sample_page true)) 6 = true.
Proof.
  assert (length (group_targets Card (loaded sample_page true))
          + length (group_targets Icon (loaded sample_page true))
          <= timer_firings [TimerFires; TimerFires; FrameFires; TimerFires;
                            TimerFires; TimerFires])%nat as Hle
    by (vm_compute; lia).
  assert (6%nat ∈ group_targets Icon (loaded sample_page true)) as Hin
    by in_computed_list.
  destruct (proj2 (X7_every_target_is_revealed sample_page
                     [TimerFires; TimerFires; FrameFires; TimerFires;
                      TimerFires; TimerFires]) Hle) as (H1 & H2).
  split; [exact Hle|]. split; [exact H1 | exact (H2 Icon 6%nat Hin)].
Defined.

Lemma X8_footer_mark_is_permanent_witness :
  head (select_from 0 ["footer"] sample_page) = Some 7%nat
  /\ has_class "animated" 7
       (run ([TimerFires] ++ Intersects [mkEntry true 7]
                          :: [Dispatch mouseenter 2; TimerFires])
            (loaded sample_page true))
     = true.
Proof.
  destruct (X8_footer_mark_is_permanent sample_page 7 [TimerFires]
              [Dispatch mouseenter 2; TimerFires] eq_refl) as (_ & H & _).
  split; [reflexivity | exact H].
Defined.

Lemma X9_card_hover_restyles_parts_only_witness :
  parents_first card_page
  /\ card_part 0 ["logo-container"] (page card_page true) = Some 1%nat
  /\ document (exec (handleCardHover 0 true) (page card_page true)) !! 1%nat
     = Some (with_style (style_set Transform "scale(1.15)")
               (mkNode (Some 0%nat) ["logo-container"] empty_style "" "" None)).
Proof.
  assert (parents_first card_page) as Hpf.
  { intros n node p Hn Hp.
    destruct n as [|[|[|n]]]; simpl in Hn; inversion Hn; subst;
      simpl in Hp; inversion Hp; lia. }
  pose proof (X9_card_hover_restyles_parts_only (page card_page true) 0 true Hpf)
    as H.
  cbv zeta in H. destruct H as (_ & _ & H & _).
  split; [exact Hpf|]. split; [reflexivity|].
  exact (H 1%nat _ eq_refl eq_refl).
Defined.

Lemma X10_throttle_spacing_witness :
  in_time 0 scroll_trace
  /\ plain_calls scroll_trace
  /\ spaced not_done (timer_delay 100)
       (throttle_invoked (throttle_run 100 scroll_trace))
  /\ throttle_invoked (throttle_run 100 scroll_trace)
     `sublist_of` calls_of scroll_trace.
Proof.
  assert (in_time 0 scroll_trace) as Htime by (simpl; lia).
  assert (plain_calls scroll_trace) as Hplain by (repeat constructor).
  pose proof (X10_throttle_spacing 100 0 scroll_trace Htime Hplain) as H.
  cbv zeta in H. destruct H as (H1 & _ & H3 & _).
  split; [exact Htime|]. split; [exact Hplain|].
  split; [exact H1 | exact H3].
Defined.

Lemma X11_debounce_last_call_wins_witness :
  200 + timer_delay 300 <= 500
  /\ debounce_invoked
       (debounce_tick 500
          (fold_left (debounce_step 300)
             (burst ([(0, 1%nat); (100, 2%nat)] ++ [(200, 3%nat)]))
             (debounce_run 300 [])))
     = debounce_invoked (debounce_run 300 []) ++ [(500, 3%nat)].
Proof.
  assert (200 + timer_delay 300 <= 500) as Hdue
    by (vm_compute; discriminate).
  pose proof (X11_debounce_last_call_wins 300 [] [(0, 1%nat); (100, 2%nat)]
                200 3%nat 500) as H.
  cbv zeta in H. destruct H as (_ & _ & _ & _ & H & _).
  split; [exact Hdue | exact (proj1 (H Hdue))].
Defined.

Lemma X13_image_events_are_counted_witness :
  1%nat ∈ image_listeners (trackImageLoading two_images (page sample_page true))
  /\ (ready two_images
      + length (delivered (trackImageLoading two_images (page sample_page true))
                          [])
      + 1 = length two_images)%nat
  /\ last (console
             (tracked_page
                (image_run [ImageLoad 1]
                   (trackImageLoading two_images (page sample_page true)))))
     = Some "✅ All images loaded successfully".
Proof.
  assert (1%nat ∈ image_listeners
                    (trackImageLoading two_images (page sample_page true)))
    as Hin by in_computed_list.
  pose proof (X13_image_events_are_counted two_images (page sample_page true)
                [ImageLoad 1]) as H.
  cbv zeta in H. destruct H as (_ & _ & _ & _ & H).
  split; [exact Hin|]. split; [reflexivity|].
  exact (H [] 1%nat eq_refl Hin eq_refl).
Defined.

(** ** Delays beyond 32 bits *)

Example timer_delay_values :
  timer_delay 100 = 100
  /\ timer_delay (-5) = 0
  /\ timer_delay (2 ^ 31 - 1) = 2 ^ 31 - 1
  /\ timer_delay (2 ^ 31) = 0
  /\ timer_delay (2 ^ 32 + 7) = 7.
Proof. by repeat split. Qed.

(** With a limit of [2^31] the reset is due at once, and calls at 0 and at
    1 ms are both applied. *)
Example throttle_limit_wraps :
  throttle_invoked
    (throttle_run (2 ^ 31)
       [Call 0 (1%nat, Done); Tick 0; Call 1 (2%nat, Done)])
  = [(0, (1%nat, Done)); (1, (2%nat, Done))].
Proof. reflexivity. Qed.

(** With a wait of [2^31] the timer of a call is due at once. *)
Example debounce_wait_wraps :
  debounce_invoked (debounce_run (2 ^ 31) [Call 0 1%nat; Tick 1])
  = [(1, 1%nat)].
Proof. reflexivity. Qed.

(** A [func] that calls the throttled function once is applied twice in
    the same call, and two resets are armed. *)
Example throttle_reentrant :
  throttle_run 100 [Call 0 (1%nat, Reenter 2%nat Done false Done)]
  = mkThrottle true [100; 100]
      [(0, (1%nat, Reenter 2%nat Done false Done)); (0, (2%nat, Done))].
Proof. reflexivity. Qed.
